(** * discord.py gateway, connection state and voice handshake

    A shallow embedding of [discord/gateway.py], [discord/state.py] and the
    parts of [discord/client.py] they call, followed by the properties of
    the gateway session, the dispatch waiters, the connection-state cache,
    the ready-settle member chunking and the voice UDP discovery.

    Conventions of the embedding:
    - decoded JSON frames are values of [json]; non-integer numbers are
      outside the model, and strings are sequences of ASCII characters;
    - a Python exception is a value of [exn]; a computation that may
      raise returns [exn + A], and code that mutates [self] threads a
      [World] which keeps every mutation made before a raise;
    - [asyncio.Future] and [asyncio.Event] objects live in stores indexed
      by their identity;
    - the classes of [server.py], [user.py], [channel.py], [message.py]
      are not part of the sources at hand: they are Section variables. *)

From Stdlib Require Import ZArith Strings.Byte Ascii String List Lia Bool.
From stdpp Require Import base option list gmap strings.

Set Warnings "-register-all".

Open Scope string_scope.
Open Scope Z_scope.
Open Scope list_scope.

(** ** Python exceptions *)

Inductive exn : Type :=
  | KeyError (key : string)
  | TypeError
  | AttributeError
  | ValueError
  | IndexError
  | UnicodeDecodeError
  | StructError
  | OverflowError
  | InvalidStateError
  | ReconnectWebSocket
  | ConnectionClosed (code : Z)
  | UserError (tag : nat).

Definition result (A : Type) : Type := exn + A.

Abbreviation ok := (@inr exn _) (only parsing).
Abbreviation throw := (@inl exn _) (only parsing).

Definition rbind {A B} (r : result A) (k : A -> result B) : result B :=
  match r with
  | inl e => inl e
  | inr a => k a
  end.

(** ** Decoded JSON values ([json.loads]) *)

Inductive json : Type :=
  | JNull
  | JBool (b : bool)
  | JInt (z : Z)
  | JStr (s : string)
  | JList (items : list json)
  | JDict (fields : list (string * json)).

Fixpoint assoc {V} (k : string) (l : list (string * V)) : option V :=
  match l with
  | [] => None
  | (k', v) :: rest => if String.eqb k' k then Some v else assoc k rest
  end.

(** [d.get(k)]: [None] for a missing key, [AttributeError] when [d] has no
    [get] (anything but a dict). *)
Definition py_get (d : json) (k : string) : result json :=
  match d with
  | JDict fields => ok (default JNull (assoc k fields))
  | _ => throw AttributeError
  end.

(** [d[k]] with a string key. *)
Definition py_item (d : json) (k : string) : result json :=
  match d with
  | JDict fields =>
      match assoc k fields with
      | Some v => ok v
      | None => throw (KeyError k)
      end
  | _ => throw TypeError
  end.

(** [k in d] for a decoded frame, which is a dict where this is used. *)
Definition py_contains (d : json) (k : string) : bool :=
  match d with
  | JDict fields => bool_decide (is_Some (assoc k fields))
  | _ => false
  end.

(** [x == n] for an integer constant [n]; Python's [bool] is an [int]. *)
Definition py_eq_int (x : json) (n : Z) : bool :=
  match x with
  | JInt z => z =? n
  | JBool b => Z.b2z b =? n
  | _ => false
  end.

(** [x == s] for a string constant [s]. *)
Definition py_eq_str (x : json) (s : string) : bool :=
  match x with
  | JStr t => String.eqb t s
  | _ => false
  end.

(** [==] on decoded JSON: structural, with [True == 1], and dicts compared
    as mappings. *)
Fixpoint py_eq (a b : json) {struct a} : bool :=
  match a, b with
  | JNull, JNull => true
  | JBool x, JBool y => Bool.eqb x y
  | JBool x, JInt z => Z.b2z x =? z
  | JInt z, JBool x => z =? Z.b2z x
  | JInt x, JInt y => x =? y
  | JStr x, JStr y => String.eqb x y
  | JList xs, JList ys =>
      (fix go (xs ys : list json) {struct xs} : bool :=
         match xs, ys with
         | [], [] => true
         | x :: xs', y :: ys' => py_eq x y && go xs' ys'
         | _, _ => false
         end) xs ys
  | JDict xs, JDict ys =>
      (length xs =? length ys)%nat &&
      (fix go (xs : list (string * json)) {struct xs} : bool :=
         match xs with
         | [] => true
         | (k, x) :: xs' =>
             match assoc k ys with
             | Some y => py_eq x y && go xs'
             | None => false
             end
         end) xs
  | _, _ => false
  end.

(** [str.lower] on ASCII. *)
Definition lower_ascii (c : ascii) : ascii :=
  let n := nat_of_ascii c in
  if ((65 <=? n) && (n <=? 90))%nat then ascii_of_nat (n + 32) else c.

Fixpoint str_lower (s : string) : string :=
  match s with
  | EmptyString => EmptyString
  | String c rest => String (lower_ascii c) (str_lower rest)
  end.

(** [x.lower()] on a decoded value: only [str] has the method. *)
Definition py_lower (x : json) : result string :=
  match x with
  | JStr s => ok (str_lower s)
  | _ => throw AttributeError
  end.

(** [x / 1000.0], kept as the dividend: [None], strings, lists and dicts
    cannot be divided. *)
Definition py_dividend (x : json) : result Z :=
  match x with
  | JInt z => ok z
  | JBool b => ok (Z.b2z b)
  | _ => throw TypeError
  end.

(** Iterating a decoded value: a list yields its items, a dict its keys, a
    string its characters; [None], booleans and numbers are not iterable. *)
Definition py_iter (x : json) : result (list json) :=
  match x with
  | JList items => ok items
  | JDict fields => ok (map (fun kv => JStr (fst kv)) fields)
  | JStr s => ok (map (fun c => JStr (String c EmptyString)) (list_ascii_of_string s))
  | _ => throw TypeError
  end.

(** ** Voice: UDP IP discovery ([DiscordVoiceWebSocket.initial_connection]) *)

Module Voice.

(** [recv.index(0, start)]: the first position at or after [start] holding a
    null byte. *)
Fixpoint index_null_from (recv : list byte) (pos start : nat) : result nat :=
  match recv with
  | [] => throw ValueError
  | b :: rest =>
      if ((start <=? pos)%nat && Byte.eqb b x00)%bool then ok pos
      else index_null_from rest (S pos) start
  end.

Definition bytes_index_null (recv : list byte) (start : nat) : result nat :=
  index_null_from recv 0 start.

(** [recv[lo:hi]] for non-negative bounds. *)
Definition bytes_slice (recv : list byte) (lo hi : nat) : list byte :=
  take (hi - lo) (drop lo recv).

(** [bytes.decode('ascii')] *)
Fixpoint decode_ascii (bs : list byte) : result string :=
  match bs with
  | [] => ok EmptyString
  | b :: rest =>
      if (Byte.to_N b <? 128)%N
      then rbind (decode_ascii rest) (fun s => ok (String (ascii_of_byte b) s))
      else throw UnicodeDecodeError
  end.

(** [struct.unpack_from('<H', recv, offset)[0]] *)
Definition unpack_le_u16 (recv : list byte) (offset : Z) : result Z :=
  if offset <? 0 then throw StructError
  else
    match recv !! Z.to_nat offset, recv !! S (Z.to_nat offset) with
    | Some lo, Some hi => ok (Z.of_N (Byte.to_N lo) + 256 * Z.of_N (Byte.to_N hi))
    | _, _ => throw StructError
    end.

(** The external address: ASCII from [ip_start = 4] to [ip_end], the
    first null from there. *)
Definition discovery_ip (recv : list byte) : result string :=
  let ip_start := 4%nat in
  rbind (bytes_index_null recv ip_start) (fun ip_end =>
  decode_ascii (bytes_slice recv ip_start ip_end)).

(** The external port: a little-endian unsigned short in the last two
    bytes. *)
Definition discovery_port (recv : list byte) : result Z :=
  unpack_le_u16 recv (Z.of_nat (length recv) - 2).

(** [struct.pack_into('>I', packet, 0, ssrc)] on [bytearray(70)] *)
Definition byte_of_Z (z : Z) : byte :=
  default x00 (Byte.of_N (Z.to_N (z mod 256))).

Definition discovery_packet (ssrc : json) : result (list byte) :=
  match ssrc with
  | JInt n =>
      if (0 <=? n) && (n <? 2 ^ 32)
      then ok ([byte_of_Z (n / 2 ^ 24); byte_of_Z (n / 2 ^ 16);
                byte_of_Z (n / 2 ^ 8); byte_of_Z n] ++ replicate 66 x00)
      else throw StructError
  | JBool b => ok ([x00; x00; x00; byte_of_Z (Z.b2z b)] ++ replicate 66 x00)
  | _ => throw StructError
  end.

(** The voice client the socket is attached to ([self._connection]). *)
Record VoiceClient : Type := mkVoiceClient {
  ssrc : json;
  voice_port : json;
  endpoint_ip : string;
  ip : option string;
  port : option Z;
}.

Inductive VoiceEffect : Type :=
  | SendTo (packet : list byte) (host : string) (dport : json)
  | SelectProtocol (address : string) (sport : Z).

(** The port of the address that [socket.sendto(packet, (host, port))]
    is given: an integer of 0..65535, or the call raises before anything
    is sent. *)
Definition sendto_port (dport : json) : result unit :=
  match dport with
  | JInt n => if (0 <=? n) && (n <=? 65535) then ok tt else throw OverflowError
  | JBool _ => ok tt
  | _ => throw TypeError
  end.

(** [initial_connection(data)], with the datagram that [sock_recv] returns
    as an argument. *)
Definition initial_connection (data : json) (recv : list byte) (state : VoiceClient)
  : VoiceClient * list VoiceEffect * result unit :=
  match py_get data "ssrc", py_get data "port" with
  | inr s, inr p =>
      let state1 := mkVoiceClient s p (endpoint_ip state) (ip state) (port state) in
      match discovery_packet s with
      | inl e => (state1, [], throw e)
      | inr packet =>
          match sendto_port p with
          | inl e => (state1, [], throw e)
          | inr _ =>
              let sent := [SendTo packet (endpoint_ip state1) p] in
              match discovery_ip recv with
              | inl e => (state1, sent, throw e)
              | inr addr =>
                  let state2 :=
                    mkVoiceClient s p (endpoint_ip state1) (Some addr) (port state1) in
                  match discovery_port recv with
                  | inl e => (state2, sent, throw e)
                  | inr prt =>
                      let state3 :=
                        mkVoiceClient s p (endpoint_ip state1) (Some addr) (Some prt) in
                      (state3, sent ++ [SelectProtocol addr prt], ok tt)
                  end
              end
          end
      end
  | inl e, _ => (state, [], throw e)
  | _, inl e => (state, [], throw e)
  end.

End Voice.

(** ** Voice: the websocket ([DiscordVoiceWebSocket]) *)

Module VoiceSocket.

Definition IDENTIFY : Z := 0.
Definition SELECT_PROTOCOL : Z := 1.
Definition READY : Z := 2.
Definition HEARTBEAT : Z := 3.
Definition SESSION_DESCRIPTION : Z := 4.
Definition SPEAKING : Z := 5.

(** [VoiceKeepAliveHandler(ws=self, interval=interval)], where [interval]
    is [(beat / 100.0) - 5] for the heartbeat interval [beat] of the
    payload; the handler is kept as [beat]. *)
Record VoiceKeepAlive : Type := mkVoiceKeepAlive {
  beat : Z;
}.

(** The socket and the voice client it is attached to: [client] holds the
    attributes of [self._connection] that the discovery works on, and
    [secret_key] is [self._connection.secret_key] once it is assigned. *)
Record VoiceState : Type := mkVoiceState {
  client : Voice.VoiceClient;
  secret_key : option json;
  _keep_alive : option VoiceKeepAlive;
}.

(** What the socket does to the outside. *)
Inductive Sent : Type :=
  | Datagram (packet : list byte) (host : string) (dport : json)
  | SendAsJson (payload : json)
  | KeepAliveStarted (started : VoiceKeepAlive).

(** The payload of [select_protocol(ip, port)] *)
Definition select_protocol (ip : string) (port : Z) : json :=
  JDict [("op", JInt SELECT_PROTOCOL);
         ("d", JDict [("protocol", JStr "udp");
                      ("data", JDict [("address", JStr ip);
                                      ("port", JInt port);
                                      ("mode", JStr "xsalsa20_poly1305")])])].

(** The payload of [speak(is_speaking)] *)
Definition speak (is_speaking : bool) : json :=
  JDict [("op", JInt SPEAKING);
         ("d", JDict [("speaking", JBool is_speaking); ("delay", JInt 0)])].

(** What [initial_connection] does, as the socket sends it. *)
Definition sent_of (e : Voice.VoiceEffect) : Sent :=
  match e with
  | Voice.SendTo packet host dport => Datagram packet host dport
  | Voice.SelectProtocol address sport => SendAsJson (select_protocol address sport)
  end.

(** [load_secret_key(data)] *)
Definition load_secret_key (data : json) (st : VoiceState)
  : VoiceState * list Sent * result unit :=
  match py_get data "secret_key" with
  | inl e => (st, [], throw e)
  | inr key =>
      (mkVoiceState (client st) (Some key) (_keep_alive st), [SendAsJson (speak true)], ok tt)
  end.

(** [received_message(msg)] for a decoded frame; [recv] is the datagram
    that [sock_recv] returns when the frame is READY. The socket stays
    open while the frame is handled. *)
Definition received_message (msg : json) (recv : list byte) (st : VoiceState)
  : VoiceState * list Sent * result unit :=
  match py_get msg "op", py_get msg "d" with
  | inr op, inr data =>
      if py_eq_int op READY then
        match rbind (py_item data "heartbeat_interval") py_dividend with
        | inl e => (st, [], throw e)
        | inr interval =>
            let alive := mkVoiceKeepAlive interval in
            let '(c, effects, r) := Voice.initial_connection data recv (client st) in
            (mkVoiceState c (secret_key st) (Some alive),
             KeepAliveStarted alive :: map sent_of effects, r)
        end
      else if py_eq_int op SESSION_DESCRIPTION then load_secret_key data st
      else (st, [], ok tt)
  | inl e, _ => (st, [], throw e)
  | _, inl e => (st, [], throw e)
  end.

(** What [asyncio.wait_for(self.recv(), timeout=30.0)] gives
    [poll_event]: a decoded frame, the closure of the socket with its
    code, or nothing within the 30 seconds. *)
Inductive Polled : Type :=
  | Frame (msg : json)
  | Closed (code : Z)
  | Silent.

(** What [poll_event] raises: an exception of the client, or the
    [asyncio.TimeoutError] of [wait_for], which it does not catch. *)
Inductive PollError : Type :=
  | Raised (e : exn)
  | TimeoutError.

(** [poll_event()] *)
Definition poll_event (p : Polled) (recv : list byte) (st : VoiceState)
  : VoiceState * list Sent * (PollError + unit) :=
  match p with
  | Frame msg =>
      let '(st', sent, r) := received_message msg recv st in
      (st', sent, match r with inl e => inl (Raised e) | inr u => inr u end)
  | Closed code => (st, [], inl (Raised (ConnectionClosed code)))
  | Silent => (st, [], inl TimeoutError)
  end.

End VoiceSocket.

(** ** asyncio objects *)

(** The state of an [asyncio.Future]. *)
Inductive Future : Type :=
  | Pending
  | Cancelled
  | Finished (value : json)
  | Excepted (e : exn).

#[global] Instance Future_inhabited : Inhabited Future := populate Pending.

Definition is_pending (f : Future) : bool :=
  match f with Pending => true | _ => false end.

(** [Future.done()] *)
Definition is_done (f : Future) : bool := negb (is_pending f).

(** [Future.cancelled()] *)
Definition is_cancelled (f : Future) : bool :=
  match f with Cancelled => true | _ => false end.

(** ** Python containers *)

(** Only [None], booleans, numbers and strings can be dict keys. *)
Definition hashable (k : json) : bool :=
  match k with
  | JList _ | JDict _ => false
  | _ => true
  end.

(** A [dict] keyed by decoded values, in insertion order. *)
Definition pydict (V : Type) : Type := list (json * V).

Fixpoint dict_replace {V} (k : json) (v : V) (d : pydict V) : option (pydict V) :=
  match d with
  | [] => None
  | (k', v') :: rest =>
      if py_eq k' k then Some ((k', v) :: rest)
      else option_map (cons (k', v')) (dict_replace k v rest)
  end.

(** [d[k] = v] *)
Definition dict_setitem {V} (k : json) (v : V) (d : pydict V) : result (pydict V) :=
  if hashable k then ok (default (d ++ [(k, v)]) (dict_replace k v d))
  else throw TypeError.

(** [d.get(k)] *)
Definition dict_get {V} (k : json) (d : pydict V) : result (option V) :=
  if hashable k then ok (snd <$> List.find (fun kv => py_eq (fst kv) k) d)
  else throw TypeError.

(** [d.pop(k, None)], for what it leaves in [d]: the entries whose key is
    not [k]. CPython returns the default for an empty dict before it
    hashes the key. *)
Definition dict_pop {V} (k : json) (d : pydict V) : result (pydict V) :=
  match d with
  | [] => ok []
  | _ :: _ =>
      if hashable k then ok (List.filter (fun kv => negb (py_eq (fst kv) k)) d)
      else throw TypeError
  end.

(** [d.values()] *)
Definition dict_values {V} (d : pydict V) : list V := map snd d.

(** [del l[i]] *)
Definition list_delitem {A} (i : nat) (l : list A) : result (list A) :=
  if (i <? length l)%nat then ok (delete i l) else throw IndexError.

(** [for index in idxs: del l[index]] *)
Fixpoint del_indices {A} (idxs : list nat) (l : list A) : result (list A) :=
  match idxs with
  | [] => ok l
  | i :: rest => rbind (list_delitem i l) (del_indices rest)
  end.

(** [math.ceil(n / d)] for integers, [d] positive. The quotient is taken
    exactly: the rounding of the intermediate float is outside the model. *)
Definition math_ceil_div (n d : Z) : Z := - ((- n) / d).

(** [range(start, stop, step)] for a positive [step]; [fuel] bounds the
    number of items and [stop] is always enough. *)
Fixpoint range_step (fuel start stop step : nat) : list nat :=
  match fuel with
  | O => []
  | S fuel' =>
      if (start <? stop)%nat then start :: range_step fuel' (start + step) stop step
      else []
  end.

(** [[l[i:i + n] for i in range(0, len(l), n)]] *)
Definition splits_of {A} (n : nat) (l : list A) : list (list A) :=
  map (fun i => take n (drop i l)) (range_step (length l) 0 (length l) n).

(** ** The client: connection state, main websocket, event loop *)

Section Client.

(** *** The classes the sources import but do not contain *)

(** [server.py]: the class, its constructor applied to a guild's
    fields and the
    attributes [id], [large] and [_member_count]. *)
Context {Server : Type}.
Variable Server_new : json -> result Server.
Variable server_id : Server -> json.
Variable server_large : Server -> bool.
Variable server_member_count : Server -> Z.

(** [user.py]: the class, its constructor applied to a user's fields and
    the attribute [id]. *)
Context {User : Type}.
Variable User_new : json -> result User.
Variable user_id : User -> json.

(** [channel.py]: [PrivateChannel(id=..., user=...)] and its attributes
    [id] and [user]. *)
Context {PrivateChannel : Type}.
Variable PrivateChannel_new : json -> User -> result PrivateChannel.
Variable channel_id : PrivateChannel -> json.
Variable channel_user : PrivateChannel -> User.

(** The voice clients kept in [_voice_clients]. *)
Context {VoiceHandle : Type}.

(** [message.py]: a message is the mapping from its attribute names to
    their values; [attr_of_json] stores a decoded value in an attribute. *)
Context {pyvalue : Type}.
Variable attr_of_json : json -> pyvalue.

Record Message : Type := mkMessage {
  attributes : gmap string pyvalue;
}.

(** [message._update] called with [channel=message.channel] and the
    payload's fields (message.py): the message as the call leaves it, and
    whether the call raised. *)
Variable Message_update : Message -> json -> Message * result unit.

(** [m.id == msg_id] on a cached message. *)
Variable message_has_id : Message -> json -> bool.

(** [utils.find(predicate, seq)] (utils.py): the position in [seq] of the
    element it returns, [None] when it returns [None]. *)
Variable utils_find : (Message -> bool) -> list Message -> option nat.

(** *** Listeners *)

(** [EventListener] of gateway.py; the future is named by its identity. *)
Record EventListener : Type := mkEventListener {
  el_predicate : json -> result bool;
  el_event : string;
  el_result : option (json -> result json);
  el_future : nat;
}.

(** [ListenerType] and [Listener] of state.py. *)
Inductive ListenerType : Type := chunk.

Definition ListenerType_eqb (a b : ListenerType) : bool :=
  match a, b with chunk, chunk => true end.

Record Listener : Type := mkListener {
  l_type : ListenerType;
  l_future : nat;
  l_predicate : Server -> result bool;
}.

(** *** State *)

(** [ReadyState]: the [launch] event by identity, and the staged servers. *)
Record ReadyState : Type := mkReadyState {
  launch : nat;
  servers : list Server;
}.

(** [collections.deque(maxlen=...)] *)
Record Deque : Type := mkDeque {
  maxlen : Z;
  items : list Message;
}.

Record ConnectionState : Type := mkConnectionState {
  max_messages : Z;
  _listeners : list Listener;
  user : option User;
  sequence : json;
  session_id : json;
  _servers : pydict Server;
  _voice_clients : pydict VoiceHandle;
  _private_channels : pydict PrivateChannel;
  _private_channels_by_user : pydict PrivateChannel;
  messages : Deque;
  _ready_state : option ReadyState;
}.

(** [KeepAliveHandler(ws=self, interval=interval)]; the interval is kept
    as the number of milliseconds the server sent. *)
Record KeepAliveHandler : Type := mkKeepAlive {
  interval_ms : Z;
  stopped : bool;
}.

Record DiscordWebSocket : Type := mkWebSocket {
  _dispatch_listeners : list EventListener;
  _keep_alive : option KeepAliveHandler;
}.

(** The suspension points of the coroutine [_delay_ready]. *)
Inductive DelayReady : Type :=
  | DR_created
  | DR_sleeping (launch_event : nat)
  | DR_sending (splits_left : list (list Server)) (chunks : list nat)
  | DR_waiting (chunks : list nat)
  | DR_finished
  | DR_failed (e : exn).

(** What the code does to the outside: calls of the application's
    dispatcher, calls of user predicates, frames sent, threads and tasks
    started. *)
Inductive DispatchArg : Type :=
  | ArgJson (j : json)
  | ArgMessage (m : Message).

Inductive Effect : Type :=
  | Dispatch (event : string) (args : list DispatchArg)
  | PredicateCalled (future : nat)
  | SendAsJson (payload : json)
  | KeepAliveStarted (interval : Z)
  | SocketClosed
  | Logged (what : string).

Record World : Type := mkWorld {
  conn : ConnectionState;
  ws : DiscordWebSocket;
  futures : gmap nat Future;
  next_future : nat;
  events : gmap nat bool;
  next_event : nat;
  tasks : list DelayReady;
  effects : list Effect;
}.

(** *** Updating one field *)

Definition with_conn (f : ConnectionState -> ConnectionState) (w : World) : World :=
  mkWorld (f (conn w)) (ws w) (futures w) (next_future w) (events w) (next_event w)
          (tasks w) (effects w).

Definition with_ws (f : DiscordWebSocket -> DiscordWebSocket) (w : World) : World :=
  mkWorld (conn w) (f (ws w)) (futures w) (next_future w) (events w) (next_event w)
          (tasks w) (effects w).

Definition with_futures (f : gmap nat Future -> gmap nat Future) (w : World) : World :=
  mkWorld (conn w) (ws w) (f (futures w)) (next_future w) (events w) (next_event w)
          (tasks w) (effects w).

Definition with_events (f : gmap nat bool -> gmap nat bool) (w : World) : World :=
  mkWorld (conn w) (ws w) (futures w) (next_future w) (f (events w)) (next_event w)
          (tasks w) (effects w).

Definition with_tasks (f : list DelayReady -> list DelayReady) (w : World) : World :=
  mkWorld (conn w) (ws w) (futures w) (next_future w) (events w) (next_event w)
          (f (tasks w)) (effects w).

Definition emit (e : Effect) (w : World) : World :=
  mkWorld (conn w) (ws w) (futures w) (next_future w) (events w) (next_event w)
          (tasks w) (effects w ++ [e]).

Definition set_listeners (v : list Listener) (c : ConnectionState) : ConnectionState :=
  mkConnectionState (max_messages c) v (user c) (sequence c) (session_id c) (_servers c)
    (_voice_clients c) (_private_channels c) (_private_channels_by_user c) (messages c)
    (_ready_state c).

Definition set_user (v : option User) (c : ConnectionState) : ConnectionState :=
  mkConnectionState (max_messages c) (_listeners c) v (sequence c) (session_id c) (_servers c)
    (_voice_clients c) (_private_channels c) (_private_channels_by_user c) (messages c)
    (_ready_state c).

Definition set_sequence (v : json) (c : ConnectionState) : ConnectionState :=
  mkConnectionState (max_messages c) (_listeners c) (user c) v (session_id c) (_servers c)
    (_voice_clients c) (_private_channels c) (_private_channels_by_user c) (messages c)
    (_ready_state c).

Definition set_session_id (v : json) (c : ConnectionState) : ConnectionState :=
  mkConnectionState (max_messages c) (_listeners c) (user c) (sequence c) v (_servers c)
    (_voice_clients c) (_private_channels c) (_private_channels_by_user c) (messages c)
    (_ready_state c).

Definition set_servers (v : pydict Server) (c : ConnectionState) : ConnectionState :=
  mkConnectionState (max_messages c) (_listeners c) (user c) (sequence c) (session_id c) v
    (_voice_clients c) (_private_channels c) (_private_channels_by_user c) (messages c)
    (_ready_state c).

Definition set_private_channels (v v_by_user : pydict PrivateChannel) (c : ConnectionState)
  : ConnectionState :=
  mkConnectionState (max_messages c) (_listeners c) (user c) (sequence c) (session_id c)
    (_servers c) (_voice_clients c) v v_by_user (messages c) (_ready_state c).

Definition set_messages (v : Deque) (c : ConnectionState) : ConnectionState :=
  mkConnectionState (max_messages c) (_listeners c) (user c) (sequence c) (session_id c)
    (_servers c) (_voice_clients c) (_private_channels c) (_private_channels_by_user c) v
    (_ready_state c).

Definition set_ready_state (v : option ReadyState) (c : ConnectionState) : ConnectionState :=
  mkConnectionState (max_messages c) (_listeners c) (user c) (sequence c) (session_id c)
    (_servers c) (_voice_clients c) (_private_channels c) (_private_channels_by_user c)
    (messages c) v.

Definition set_dispatch_listeners (v : list EventListener) (s : DiscordWebSocket)
  : DiscordWebSocket :=
  mkWebSocket v (_keep_alive s).

Definition set_keep_alive (v : option KeepAliveHandler) (s : DiscordWebSocket)
  : DiscordWebSocket :=
  mkWebSocket (_dispatch_listeners s) v.

(** *** Computations on the world that may raise

    The world returned with an exception holds every mutation made before
    the raise, as the Python objects do. *)

Definition M (A : Type) : Type := World -> World * result A.

Definition ret {A} (a : A) : M A := fun w => (w, ok a).

Definition raise {A} (e : exn) : M A := fun w => (w, throw e).

Definition bind {A B} (m : M A) (k : A -> M B) : M B :=
  fun w =>
    match m w with
    | (w', inr a) => k a w'
    | (w', inl e) => (w', inl e)
    end.

Definition lift {A} (r : result A) : M A := fun w => (w, r).

Definition gets {A} (f : World -> A) : M A := fun w => (w, ok (f w)).

Definition modify (f : World -> World) : M unit := fun w => (f w, ok tt).

Notation "'let*' x ':=' c 'in' k" := (bind c (fun x => k))
  (at level 10, x name, c at level 100, k at level 200).
Notation "c ;; k" := (bind c (fun _ => k))
  (at level 100, k at level 200, right associativity).

(** *** Futures and events of the loop *)

Definition future_state (w : World) (f : nat) : Future := futures w !!! f.

(** [asyncio.Future(loop=self.loop)] *)
Definition new_future : M nat :=
  fun w =>
    let f := next_future w in
    (mkWorld (conn w) (ws w) (<[f := Pending]> (futures w)) (S f) (events w) (next_event w)
             (tasks w) (effects w), ok f).

(** [future.cancelled()] *)
Definition future_cancelled (f : nat) : M bool :=
  gets (fun w => is_cancelled (future_state w f)).

(** [future.set_result(value)] *)
Definition set_result (f : nat) (value : json) : M unit :=
  fun w =>
    match future_state w f with
    | Pending => (with_futures (insert f (Finished value)) w, ok tt)
    | _ => (w, throw InvalidStateError)
    end.

(** [future.set_exception(e)] *)
Definition set_exception (f : nat) (e : exn) : M unit :=
  fun w =>
    match future_state w f with
    | Pending => (with_futures (insert f (Excepted e)) w, ok tt)
    | _ => (w, throw InvalidStateError)
    end.

(** [future.cancel()], called by whoever holds the handle. *)
Definition cancel (f : nat) (w : World) : World :=
  match future_state w f with
  | Pending => with_futures (insert f Cancelled) w
  | _ => w
  end.

(** [asyncio.Event()] *)
Definition new_event : M nat :=
  fun w =>
    let e := next_event w in
    (mkWorld (conn w) (ws w) (futures w) (next_future w) (<[e := false]> (events w)) (S e)
             (tasks w) (effects w), ok e).

Definition event_is_set (e : nat) : M bool := gets (fun w => events w !!! e).
Definition event_set (e : nat) : M unit := modify (with_events (insert e true)).
Definition event_clear (e : nat) : M unit := modify (with_events (insert e false)).

(** [self.dispatch(event, *args)] and [self._dispatch(event, *args)] *)
Definition dispatch (event : string) (args : list DispatchArg) : M unit :=
  modify (emit (Dispatch event args)).

Definition log_info (what : string) : M unit := modify (emit (Logged what)).

(** *** gateway.py: [DiscordWebSocket] *)

Definition DISPATCH : Z := 0.
Definition HEARTBEAT : Z := 1.
Definition IDENTIFY : Z := 2.
Definition PRESENCE : Z := 3.
Definition VOICE_STATE : Z := 4.
Definition VOICE_PING : Z := 5.
Definition RESUME : Z := 6.
Definition RECONNECT : Z := 7.
Definition REQUEST_MEMBERS : Z := 8.
Definition INVALIDATE_SESSION : Z := 9.

(** [wait_for(event, predicate, result=None)] *)
Definition wait_for (event : string) (predicate : json -> result bool)
    (result : option (json -> result json)) : M nat :=
  let* future := new_future in
  let entry := mkEventListener predicate event result future in
  modify (with_ws (fun s => set_dispatch_listeners (_dispatch_listeners s ++ [entry]) s)) ;;
  ret future.

(** The loop over [enumerate(self._dispatch_listeners)] of
    [received_message]; it returns [removed]. *)
Fixpoint dispatch_loop (event : string) (data : json) (entries : list EventListener)
    (index : nat) (removed : list nat) : M (list nat) :=
  match entries with
  | [] => ret removed
  | entry :: rest =>
      if negb (String.eqb (el_event entry) event)
      then dispatch_loop event data rest (S index) removed
      else
        let future := el_future entry in
        let* cancelled := future_cancelled future in
        let removed := if cancelled : bool then removed ++ [index] else removed in
        modify (emit (PredicateCalled future)) ;;
        match el_predicate entry data with
        | inl e =>
            set_exception future e ;;
            dispatch_loop event data rest (S index) (removed ++ [index])
        | inr valid =>
            if valid : bool then
              let* ret_value :=
                lift (match el_result entry with
                      | None => ok data
                      | Some f => f data
                      end) in
              set_result future ret_value ;;
              dispatch_loop event data rest (S index) (removed ++ [index])
            else dispatch_loop event data rest (S index) removed
        end
  end.

(** The part of [received_message] under "remove the dispatched
    listeners": the loop, then [del] of the collected indices from the
    highest down. *)
Definition dispatch_listeners (event : string) (data : json) : M unit :=
  let* entries := gets (fun w => _dispatch_listeners (ws w)) in
  let* removed := dispatch_loop event data entries 0 [] in
  let* current := gets (fun w => _dispatch_listeners (ws w)) in
  let* kept := lift (del_indices (rev removed) current) in
  modify (with_ws (set_dispatch_listeners kept)).

(** [_can_handle_close(code)] *)
Definition _can_handle_close (code : Z) : bool :=
  bool_decide (code ∈ [4006; 4008; 4009]) || ((1001 <=? code) && (code <? 1015)).

(** *** state.py: [ConnectionState] *)

(** [clear()] *)
Definition clear_state (c : ConnectionState) : ConnectionState :=
  mkConnectionState (max_messages c) (_listeners c) None JNull JNull [] [] [] []
    (mkDeque (max_messages c) []) (_ready_state c).

Definition clear : M unit := modify (with_conn clear_state).

(** [ConnectionState(dispatch, chunker, max_messages, loop=loop)] *)
Definition ConnectionState_init (max_messages : Z) : ConnectionState :=
  clear_state (mkConnectionState max_messages [] None JNull JNull [] [] [] []
                 (mkDeque max_messages []) None).

(** The loop over [enumerate(self._listeners)] of [process_listeners]; it
    returns [removed]. *)
Fixpoint process_loop (listener_type : ListenerType) (argument : Server) (result : json)
    (entries : list Listener) (i : nat) (removed : list nat) : M (list nat) :=
  match entries with
  | [] => ret removed
  | listener :: rest =>
      if negb (ListenerType_eqb (l_type listener) listener_type)
      then process_loop listener_type argument result rest (S i) removed
      else
        let future := l_future listener in
        let* cancelled := future_cancelled future in
        if cancelled : bool
        then process_loop listener_type argument result rest (S i) (removed ++ [i])
        else
          modify (emit (PredicateCalled future)) ;;
          match l_predicate listener argument with
          | inl e =>
              set_exception future e ;;
              process_loop listener_type argument result rest (S i) (removed ++ [i])
          | inr passed =>
              if passed : bool then
                set_result future result ;;
                if ListenerType_eqb (l_type listener) chunk
                then ret (removed ++ [i])
                else process_loop listener_type argument result rest (S i) (removed ++ [i])
              else process_loop listener_type argument result rest (S i) removed
          end
  end.

(** [process_listeners(listener_type, argument, result)] *)
Definition process_listeners (listener_type : ListenerType) (argument : Server)
    (result : json) : M unit :=
  let* entries := gets (fun w => _listeners (conn w)) in
  let* removed := process_loop listener_type argument result entries 0 [] in
  let* current := gets (fun w => _listeners (conn w)) in
  let* kept := lift (del_indices (rev removed) current) in
  modify (with_conn (set_listeners kept)).

(** [receive_chunk(guild_id)]; the predicate is [lambda s: s.id == guild_id]. *)
Definition receive_chunk (guild_id : json) : M nat :=
  let* future := new_future in
  let listener := mkListener chunk future (fun s => ok (py_eq (server_id s) guild_id)) in
  modify (with_conn (fun c => set_listeners (_listeners c ++ [listener]) c)) ;;
  ret future.

(** The generator [chunks_needed(server)], run to its end: one
    [receive_chunk] for each item of [range(math.ceil(count / 1000))]. *)
Fixpoint receive_chunks (n : nat) (guild_id : json) : M (list nat) :=
  match n with
  | O => ret []
  | S n' =>
      let* future := receive_chunk guild_id in
      let* rest := receive_chunks n' guild_id in
      ret (future :: rest)
  end.

Definition chunks_needed (server : Server) : M (list nat) :=
  receive_chunks (Z.to_nat (math_ceil_div (server_member_count server) 1000))
                 (server_id server).

(** [_add_server(server)] *)
Definition _add_server (server : Server) : M unit :=
  let* d := gets (fun w => _servers (conn w)) in
  let* d' := lift (dict_setitem (server_id server) server d) in
  modify (with_conn (set_servers d')).

(** [_add_server_from_data(guild)] *)
Definition _add_server_from_data (guild : json) : M Server :=
  let* server := lift (Server_new guild) in
  _add_server server ;;
  ret server.

(** [_add_private_channel(channel)] *)
Definition _add_private_channel (channel : PrivateChannel) : M unit :=
  let* d := gets (fun w => _private_channels (conn w)) in
  let* d' := lift (dict_setitem (channel_id channel) channel d) in
  modify (with_conn (fun c => set_private_channels d' (_private_channels_by_user c) c)) ;;
  let* u := gets (fun w => _private_channels_by_user (conn w)) in
  let* u' := lift (dict_setitem (user_id (channel_user channel)) channel u) in
  modify (with_conn (fun c => set_private_channels (_private_channels c) u' c)).

(** [self._ready_state.servers.append(server)] *)
Definition stage_server (server : Server) : M unit :=
  let* st := gets (fun w => _ready_state (conn w)) in
  match st with
  | None => raise AttributeError
  | Some rs =>
      modify (with_conn (set_ready_state (Some (mkReadyState (launch rs) (servers rs ++ [server])))))
  end.

(** The loop over [guilds] in [parse_ready]. *)
Fixpoint add_guilds (guilds : list json) : M unit :=
  match guilds with
  | [] => ret tt
  | guild :: rest =>
      let* server := _add_server_from_data guild in
      (if server_large server then stage_server server else ret tt) ;;
      add_guilds rest
  end.

(** The loop over [data.get('private_channels')] in [parse_ready]. *)
Fixpoint add_private_channels (pms : list json) : M unit :=
  match pms with
  | [] => ret tt
  | pm :: rest =>
      let* pm_id := lift (py_item pm "id") in
      let* recipient := lift (py_item pm "recipient") in
      let* u := lift (User_new recipient) in
      let* channel := lift (PrivateChannel_new pm_id u) in
      _add_private_channel channel ;;
      add_private_channels rest
  end.

(** [parse_ready(data)] *)
Definition parse_ready (data : json) : M unit :=
  let* ev := new_event in
  modify (with_conn (set_ready_state (Some (mkReadyState ev [])))) ;;
  let* user_data := lift (py_item data "user") in
  let* u := lift (User_new user_data) in
  modify (with_conn (set_user (Some u))) ;;
  let* guilds := lift (py_get data "guilds") in
  let* guild_list := lift (py_iter guilds) in
  add_guilds guild_list ;;
  let* pms := lift (py_get data "private_channels") in
  let* pm_list := lift (py_iter pms) in
  add_private_channels pm_list ;;
  modify (with_tasks (fun t => t ++ [DR_created])).

(** [_get_message(msg_id)]: the position of the message found. *)
Definition _get_message (msg_id : json) : M (option nat) :=
  gets (fun w => utils_find (fun m => message_has_id m msg_id) (items (messages (conn w)))).

(** [message.embeds = value] *)
Definition set_embeds (value : json) (m : Message) : Message :=
  mkMessage (<["embeds" := attr_of_json value]> (attributes m)).

(** The message at position [i] of the deque is now [m]. *)
Definition store_message (i : nat) (m : Message) : M unit :=
  modify (with_conn (fun c =>
    set_messages (mkDeque (maxlen (messages c)) (<[i := m]> (items (messages c)))) c)).

(** [parse_message_update(data)] *)
Definition parse_message_update (data : json) : M unit :=
  let* msg_id := lift (py_get data "id") in
  let* found := _get_message msg_id in
  match found with
  | None => ret tt
  | Some i =>
      let* cached := gets (fun w => items (messages (conn w)) !! i) in
      match cached with
      | None => ret tt
      | Some message =>
          let older_message := message in
          let* updated :=
            (if negb (py_contains data "content") then
               let* embeds := lift (py_item data "embeds") in
               store_message i (set_embeds embeds message) ;;
               ret (set_embeds embeds message)
             else
               let (m, raised) := Message_update message data in
               store_message i m ;;
               lift raised ;;
               ret m) in
          dispatch "message_edit" [ArgMessage older_message; ArgMessage updated]
      end
  end.

(** The payload of [Client.request_offline_members(server)] for an
    iterable of servers: [guild_id] is the list of their ids. *)
Definition members_request (split : list Server) : json :=
  JDict [("op", JInt REQUEST_MEMBERS);
         ("d", JDict [("guild_id", JList (map server_id split));
                      ("query", JStr "");
                      ("limit", JInt 0)])].

(** [send_as_json(data)] of the main socket; [closed] is the code of the
    closure when the socket is closed at the time of the send. *)
Definition send_as_json (closed : option Z) (data : json) : M unit :=
  match closed with
  | None => modify (emit (SendAsJson data))
  | Some code =>
      if negb (_can_handle_close code) then raise (ConnectionClosed code) else ret tt
  end.

(** [Client.request_offline_members(server)], the [chunker] of the
    connection state; the payload goes through [ws.send_as_json]. *)
Definition request_offline_members (closed : option Z) (split : list Server) : M unit :=
  send_as_json closed (members_request split).

(** The loop over [servers] in [_delay_ready] that collects [chunks]. *)
Fixpoint all_chunks (staged : list Server) : M (list nat) :=
  match staged with
  | [] => ret []
  | server :: rest =>
      let* c := chunks_needed server in
      let* cs := all_chunks rest in
      ret (c ++ cs)
  end.

(** The end of [_delay_ready]: [del self._ready_state], then the
    [ready] event. *)
Definition finish_ready : M DelayReady :=
  let* st := gets (fun w => _ready_state (conn w)) in
  match st with
  | None => raise AttributeError
  | Some _ =>
      modify (with_conn (set_ready_state None)) ;;
      dispatch "ready" [] ;;
      ret DR_finished
  end.

(** The loop over [splits], up to the next send; after the last one,
    [asyncio.wait(chunks)] unless [chunks] is empty. [closed] is the state
    of the socket when the coroutine is resumed. *)
Definition send_next (closed : option Z) (splits : list (list Server)) (chunks : list nat)
  : M DelayReady :=
  match splits with
  | split :: rest => request_offline_members closed split ;; ret (DR_sending rest chunks)
  | [] =>
      match chunks with
      | [] => finish_ready
      | _ :: _ => ret (DR_waiting chunks)
      end
  end.

(** [_delay_ready] from "get all the chunks" to its first send. *)
Definition after_settle (closed : option Z) : M DelayReady :=
  let* st := gets (fun w => _ready_state (conn w)) in
  match st with
  | None => raise AttributeError
  | Some rs =>
      let* chunks := all_chunks (servers rs) in
      send_next closed (splits_of 75 (servers rs)) chunks
  end.

(** One test of [while not launch.is_set()]. *)
Definition settle_loop (closed : option Z) (launch_event : nat) : M DelayReady :=
  let* is_set := event_is_set launch_event in
  if is_set : bool then after_settle closed
  else event_set launch_event ;; ret (DR_sleeping launch_event).

(** [asyncio.wait(chunks)] returns once every future is done. *)
Definition all_done (chunks : list nat) (w : World) : bool :=
  forallb (fun f => is_done (future_state w f)) chunks.

(** [_delay_ready()], from one suspension point to the next; [closed]
    is the state of the socket during this resume ([None] when it is
    open). *)
Definition _delay_ready (closed : option Z) (pc : DelayReady) : M DelayReady :=
  match pc with
  | DR_created =>
      let* st := gets (fun w => _ready_state (conn w)) in
      match st with
      | None => raise AttributeError
      | Some rs => settle_loop closed (launch rs)
      end
  | DR_sleeping launch_event => settle_loop closed launch_event
  | DR_sending splits chunks => send_next closed splits chunks
  | DR_waiting chunks =>
      let* done := gets (all_done chunks) in
      if done : bool then finish_ready else ret (DR_waiting chunks)
  | DR_finished => ret DR_finished
  | DR_failed e => ret (DR_failed e)
  end.

(** The event loop runs the [i]-th task up to its next suspension. *)
Definition run_task (closed : option Z) (i : nat) (w : World) : World :=
  match tasks w !! i with
  | None => w
  | Some pc =>
      match _delay_ready closed pc w with
      | (w', inr pc') => with_tasks (<[i := pc']>) w'
      | (w', inl e) => with_tasks (<[i := DR_failed e]>) w'
      end
  end.

(** The task resumed once for each element of [sockets], the state of
    the socket during that resume, nothing else running in between. *)
Fixpoint resume_times (sockets : list (option Z)) (pc : DelayReady) (w : World)
  : World * result DelayReady :=
  match sockets with
  | [] => (w, inr pc)
  | closed :: later =>
      match _delay_ready closed pc w with
      | (w', inr pc') => resume_times later pc' w'
      | (w', inl e) => (w', inl e)
      end
  end.

(** The [parse_*] methods of [ConnectionState] whose bodies work on
    [Server], [Member], [Channel] and [Role] objects. *)
Definition absent_parsers : list string :=
  ["parse_message_create"; "parse_message_delete"; "parse_presence_update";
   "parse_user_update"; "parse_channel_delete"; "parse_channel_update";
   "parse_channel_create"; "parse_guild_member_add"; "parse_guild_member_remove";
   "parse_guild_member_update"; "parse_guild_create"; "parse_guild_update";
   "parse_guild_delete"; "parse_guild_ban_add"; "parse_guild_ban_remove";
   "parse_guild_role_create"; "parse_guild_role_delete"; "parse_guild_role_update";
   "parse_guild_members_chunk"; "parse_voice_state_update"; "parse_typing_start"].

Variable parse_absent : string -> json -> M unit.

(** [getattr(self._connection, parser)]; [None] stands for
    [AttributeError]. *)
Definition getattr_parser (parser : string) : option (json -> M unit) :=
  if String.eqb parser "parse_ready" then Some parse_ready
  else if String.eqb parser "parse_message_update" then Some parse_message_update
  else if bool_decide (parser ∈ absent_parsers) then Some (parse_absent parser)
  else None.

(** [DiscordWebSocket.close()] *)
Definition close : M unit :=
  modify (with_ws (fun s =>
    match _keep_alive s with
    | Some k => set_keep_alive (Some (mkKeepAlive (interval_ms k) true)) s
    | None => s
    end)) ;;
  modify (emit SocketClosed).

(** [received_message(msg)] is split at its comments and tests; the four
    parts below are its blocks, in the order of the source. *)

(** The body of [if is_ready:]. *)
Definition ready_reset (msg data : json) : M unit :=
  clear ;;
  let* s := lift (py_item msg "s") in
  modify (with_conn (set_sequence s)) ;;
  let* sid := lift (py_item data "session_id") in
  modify (with_conn (set_session_id sid)).

(** The body of [if is_ready or event == 'RESUMED':]. *)
Definition start_keep_alive (data : json) : M unit :=
  let* beat := lift (py_item data "heartbeat_interval") in
  let* interval := lift (py_dividend beat) in
  modify (with_ws (set_keep_alive (Some (mkKeepAlive interval false)))) ;;
  modify (emit (KeepAliveStarted interval)).

(** From [parser = 'parse_' + event.lower()] to the call of the method. *)
Definition call_parser (event data : json) : M unit :=
  let* lowered := lift (py_lower event) in
  let parser := String.append "parse_" lowered in
  match getattr_parser parser with
  | None => log_info "Unhandled event"
  | Some func => func data
  end.

(** From [event = msg.get('t')] to the end: a DISPATCH frame. *)
Definition handle_dispatch (msg data : json) : M unit :=
  let* event := lift (py_get msg "t") in
  let is_ready := py_eq_str event "READY" in
  (if is_ready then ready_reset msg data else ret tt) ;;
  (if is_ready || py_eq_str event "RESUMED" then start_keep_alive data else ret tt) ;;
  call_parser event data ;;
  match event with
  | JStr name => dispatch_listeners name data
  | _ => ret tt
  end.

(** The tests on [op]. *)
Definition handle_op (msg op data : json) : M unit :=
  if py_eq_int op RECONNECT then
    log_info "Receivede RECONNECT opcode." ;;
    close ;;
    raise ReconnectWebSocket
  else if py_eq_int op INVALIDATE_SESSION then
    modify (with_conn (set_sequence JNull)) ;;
    modify (with_conn (set_session_id JNull))
  else if negb (py_eq_int op DISPATCH) then
    log_info "Unhandled op"
  else handle_dispatch msg data.

(** [received_message(msg)], from the decoded frame on; the raw text of
    [socket_raw_receive] is named by the value it decodes to. *)
Definition received_message (msg : json) : M unit :=
  dispatch "socket_raw_receive" [ArgJson msg] ;;
  dispatch "socket_response" [ArgJson msg] ;;
  let* op := lift (py_get msg "op") in
  let* data := lift (py_get msg "d") in
  (if py_contains msg "s"
   then let* s := lift (py_item msg "s") in modify (with_conn (set_sequence s))
   else ret tt) ;;
  handle_op msg op data.

(** What [self.recv()] gives [poll_event]: a frame, or the
    [websockets.exceptions.ConnectionClosed] with its code. *)
Inductive Received : Type :=
  | Frame (msg : json)
  | Closed (code : Z).

(** [poll_event()] *)
Definition poll_event (r : Received) : M unit :=
  match r with
  | Frame msg => received_message msg
  | Closed code =>
      if _can_handle_close code then
        log_info "Websocket closed, attempting a reconnect." ;;
        raise ReconnectWebSocket
      else raise (ConnectionClosed code)
  end.

(** The receive loop of [Client.connect] on one socket: frames are polled
    until one raises. *)
Fixpoint poll_events (rs : list Received) : M unit :=
  match rs with
  | [] => ret tt
  | r :: rest => poll_event r ;; poll_events rest
  end.

(** *** state.py: the registries of the cache *)

Definition set_voice_clients (v : pydict VoiceHandle) (c : ConnectionState) : ConnectionState :=
  mkConnectionState (max_messages c) (_listeners c) (user c) (sequence c) (session_id c)
    (_servers c) v (_private_channels c) (_private_channels_by_user c) (messages c)
    (_ready_state c).

(** The property [voice_clients] *)
Definition voice_clients : M (list VoiceHandle) :=
  gets (fun w => dict_values (_voice_clients (conn w))).

(** [_get_voice_client(guild_id)] *)
Definition _get_voice_client (guild_id : json) : M (option VoiceHandle) :=
  let* d := gets (fun w => _voice_clients (conn w)) in
  lift (dict_get guild_id d).

(** [_add_voice_client(guild_id, voice)] *)
Definition _add_voice_client (guild_id : json) (voice : VoiceHandle) : M unit :=
  let* d := gets (fun w => _voice_clients (conn w)) in
  let* d' := lift (dict_setitem guild_id voice d) in
  modify (with_conn (set_voice_clients d')).

(** [_remove_voice_client(guild_id)] *)
Definition _remove_voice_client (guild_id : json) : M unit :=
  let* d := gets (fun w => _voice_clients (conn w)) in
  let* d' := lift (dict_pop guild_id d) in
  modify (with_conn (set_voice_clients d')).

(** The property [servers] of the connection state *)
Definition ConnectionState_servers : M (list Server) :=
  gets (fun w => dict_values (_servers (conn w))).

(** [_get_server(server_id)] *)
Definition _get_server (id : json) : M (option Server) :=
  let* d := gets (fun w => _servers (conn w)) in
  lift (dict_get id d).

(** [_remove_server(server)] *)
Definition _remove_server (server : Server) : M unit :=
  let* d := gets (fun w => _servers (conn w)) in
  let* d' := lift (dict_pop (server_id server) d) in
  modify (with_conn (set_servers d')).

(** The property [private_channels] *)
Definition private_channels : M (list PrivateChannel) :=
  gets (fun w => dict_values (_private_channels (conn w))).

(** [_get_private_channel(channel_id)] *)
Definition _get_private_channel (id : json) : M (option PrivateChannel) :=
  let* d := gets (fun w => _private_channels (conn w)) in
  lift (dict_get id d).

(** [_get_private_channel_by_user(user_id)] *)
Definition _get_private_channel_by_user (id : json) : M (option PrivateChannel) :=
  let* d := gets (fun w => _private_channels_by_user (conn w)) in
  lift (dict_get id d).

(** [_remove_private_channel(channel)] *)
Definition _remove_private_channel (channel : PrivateChannel) : M unit :=
  let* d := gets (fun w => _private_channels (conn w)) in
  let* d' := lift (dict_pop (channel_id channel) d) in
  modify (with_conn (fun c => set_private_channels d' (_private_channels_by_user c) c)) ;;
  let* u := gets (fun w => _private_channels_by_user (conn w)) in
  let* u' := lift (dict_pop (user_id (channel_user channel)) u) in
  modify (with_conn (fun c => set_private_channels (_private_channels c) u' c)).

(** [channel.py] and [server.py]: the class [Channel] and the method
    [server.get_channel(id)], [None] when the server has no such channel. *)
Context {Channel : Type}.
Variable server_get_channel : Server -> json -> option Channel.

(** What [get_channel] returns: a [Channel] or a [PrivateChannel]. *)
Inductive AnyChannel : Type :=
  | ServerChannel (c : Channel)
  | DirectChannel (p : PrivateChannel).

(** The loop over [self.servers] in [get_channel]. *)
Fixpoint find_channel (id : json) (cached : list Server) : option Channel :=
  match cached with
  | [] => None
  | server :: rest =>
      match server_get_channel server id with
      | Some channel => Some channel
      | None => find_channel id rest
      end
  end.

(** [get_channel(id)] *)
Definition get_channel (id : json) : M (option AnyChannel) :=
  match id with
  | JNull => ret None
  | _ =>
      let* cached := ConnectionState_servers in
      match find_channel id cached with
      | Some channel => ret (Some (ServerChannel channel))
      | None =>
          let* pm := _get_private_channel id in
          ret (DirectChannel <$> pm)
      end
  end.

(** *** state.py: the message cache *)

(** [message.py]: the constructor [Message(channel=channel, **data)]. *)
Variable Message_new : option AnyChannel -> json -> result Message.

(** [deque.append(m)] on a deque with a [maxlen]: when the deque is
    full the item at the left end is discarded. *)
Definition deque_append (m : Message) (d : Deque) : Deque :=
  let grown := items d ++ [m] in
  mkDeque (maxlen d)
          (if maxlen d <? Z.of_nat (length grown) then drop 1 grown else grown).

(** [parse_message_create(data)] *)
Definition parse_message_create (data : json) : M unit :=
  let* id := lift (py_get data "channel_id") in
  let* channel := get_channel id in
  let* message := lift (Message_new channel data) in
  dispatch "message" [ArgMessage message] ;;
  modify (with_conn (fun c => set_messages (deque_append message (messages c)) c)).

(** [parse_message_delete(data)]; [self.messages.remove(found)] takes out
    the message found, at its position. *)
Definition parse_message_delete (data : json) : M unit :=
  let* message_id := lift (py_get data "id") in
  let* found := _get_message message_id in
  match found with
  | None => ret tt
  | Some i =>
      let* cached := gets (fun w => items (messages (conn w)) !! i) in
      match cached with
      | None => ret tt
      | Some message =>
          dispatch "message_delete" [ArgMessage message] ;;
          modify (with_conn (fun c =>
            set_messages (mkDeque (maxlen (messages c)) (delete i (items (messages c)))) c))
      end
  end.

(** *** client.py: the capacity of the message cache *)

(** The lines of [Client.__init__] that settle [max_messages], from the
    value of [options.get('max_messages')]. *)
Definition Client_max_messages (option_value : json) : result Z :=
  match option_value with
  | JNull => ok 5000
  | JInt z => ok (if z <? 100 then 5000 else z)
  | JBool b => ok 5000
  | _ => throw TypeError
  end.

(** The connection state that [Client.__init__] makes. *)
Definition Client_connection (option_value : json) : result ConnectionState :=
  rbind (Client_max_messages option_value) (fun n => ok (ConnectionState_init n)).

(** *** client.py: the waiters of [wait_for_message] *)

(** The state of a future that [wait_for_message] makes; its result is a
    message. *)
Inductive MessageFuture : Type :=
  | MessagePending
  | MessageCancelled
  | MessageFinished (message : Message)
  | MessageExcepted (e : exn).

#[global] Instance MessageFuture_inhabited : Inhabited MessageFuture :=
  populate MessagePending.

(** An item of [Client._listeners]: the pair of a predicate and a
    future, the future named by its identity. *)
Record MessageWaiter : Type := mkMessageWaiter {
  condition : Message -> result bool;
  waiter_future : nat;
}.

(** The part of the client that its message waiters live in:
    [client_listeners] is [Client._listeners], and [conditions_called]
    records the calls of the predicates, by the future of the waiter. *)
Record Client : Type := mkClient {
  client_listeners : list MessageWaiter;
  message_futures : gmap nat MessageFuture;
  next_message_future : nat;
  conditions_called : list nat;
}.

Definition message_future (c : Client) (f : nat) : MessageFuture := message_futures c !!! f.

Definition set_message_future (f : nat) (state : MessageFuture) (c : Client) : Client :=
  mkClient (client_listeners c) (<[f := state]> (message_futures c)) (next_message_future c)
           (conditions_called c).

Definition set_client_listeners (v : list MessageWaiter) (c : Client) : Client :=
  mkClient v (message_futures c) (next_message_future c) (conditions_called c).

Definition condition_called (f : nat) (c : Client) : Client :=
  mkClient (client_listeners c) (message_futures c) (next_message_future c)
           (conditions_called c ++ [f]).

(** The lines of [wait_for_message] that make the future and register
    the waiter, for the predicate built from the arguments. *)
Definition wait_for_message (predicate : Message -> result bool) (c : Client) : Client * nat :=
  let f := next_message_future c in
  (mkClient (client_listeners c ++ [mkMessageWaiter predicate f])
            (<[f := MessagePending]> (message_futures c)) (S f) (conditions_called c),
   f).

(** [asyncio.wait_for(future, timeout)] running out of time: it cancels
    the future, and [wait_for_message] returns [None]. *)
Definition wait_timed_out (f : nat) (c : Client) : Client :=
  match message_future c f with
  | MessagePending => set_message_future f MessageCancelled c
  | _ => c
  end.

(** The loop over [enumerate(self._listeners)] of [handle_message]; it
    returns [removed]. *)
Fixpoint handle_message_loop (message : Message) (entries : list MessageWaiter)
    (i : nat) (removed : list nat) (c : Client) : Client * result (list nat) :=
  match entries with
  | [] => (c, ok removed)
  | entry :: rest =>
      let future := waiter_future entry in
      match message_future c future with
      | MessageCancelled => handle_message_loop message rest (S i) (removed ++ [i]) c
      | state =>
          let c := condition_called future c in
          match condition entry message with
          | inl e =>
              match state with
              | MessagePending =>
                  handle_message_loop message rest (S i) (removed ++ [i])
                    (set_message_future future (MessageExcepted e) c)
              | _ => (c, throw InvalidStateError)
              end
          | inr result =>
              if result : bool then
                match state with
                | MessagePending =>
                    handle_message_loop message rest (S i) (removed ++ [i])
                      (set_message_future future (MessageFinished message) c)
                | _ => (c, throw InvalidStateError)
                end
              else handle_message_loop message rest (S i) removed c
          end
      end
  end.

(** [handle_message(message)] *)
Definition handle_message (message : Message) (c : Client) : Client * result unit :=
  match handle_message_loop message (client_listeners c) 0 [] c with
  | (c', inl e) => (c', throw e)
  | (c', inr removed) =>
      match del_indices (rev removed) (client_listeners c') with
      | inl e => (c', throw e)
      | inr kept => (set_client_listeners kept c', ok tt)
      end
  end.

(** *** gateway.py: sending, the keep-alive, the voice state *)

(** [KeepAliveHandler.get_payload()] *)
Definition get_payload : M json :=
  gets (fun w => JDict [("op", JInt HEARTBEAT); ("d", sequence (conn w))]).

(** [KeepAliveHandler.stop()], on the handler of the socket. *)
Definition stop : M unit :=
  modify (with_ws (fun s =>
    match _keep_alive s with
    | Some k => set_keep_alive (Some (mkKeepAlive (interval_ms k) true)) s
    | None => s
    end)).

(** One turn of the loop of [KeepAliveHandler.run] for the handler of the
    socket, from the test of [self._stop_ev.wait(self.interval)] on; it
    returns whether the body of the loop has run. *)
Definition run_turn (closed : option Z) : M bool :=
  let* handler := gets (fun w => _keep_alive (ws w)) in
  match handler with
  | None => ret false
  | Some k =>
      if stopped k then ret false
      else
        let* data := get_payload in
        (fun w =>
           match send_as_json closed data w with
           | (w', inr _) => (w', ok tt)
           | (w', inl _) => stop w'
           end) ;;
        ret true
  end.

(** [KeepAliveHandler.run()], with the state of the socket at each beat;
    the thread ends when the handler is stopped. *)
Fixpoint run (beats : list (option Z)) : M unit :=
  match beats with
  | [] => ret tt
  | closed :: rest =>
      let* went := run_turn closed in
      if went : bool then run rest else ret tt
  end.

(** [voice_state(guild_id, channel_id, self_mute, self_deaf)] *)
Definition voice_state (closed : option Z) (guild_id channel_id : json)
    (self_mute self_deaf : bool) : M unit :=
  let payload :=
    JDict [("op", JInt VOICE_STATE);
           ("d", JDict [("guild_id", guild_id);
                        ("channel_id", channel_id);
                        ("self_mute", JBool self_mute);
                        ("self_deaf", JBool self_deaf)])] in
  send_as_json closed payload ;;
  match channel_id with
  | JNull => _remove_voice_client guild_id
  | _ => ret tt
  end.

(** *** client.py: [close] and [connect] *)

(** [voice_client.py]: [voice.disconnect()], which may do anything to the
    world and whose exceptions [close] discards, and [voice.server.id]. *)
Variable voice_disconnect : VoiceHandle -> M unit.
Variable voice_server_id : VoiceHandle -> json.

(** The part of the client that [close] and [connect] work on: the
    events [_closed] and [_is_ready], and whether the HTTP session is
    open. *)
Record ClientFlags : Type := mkClientFlags {
  _closed : bool;
  _is_ready : bool;
  session_open : bool;
}.

(** The loop over [list(self.voice_clients)] in [Client.close]. *)
Fixpoint disconnect_voices (voices : list VoiceHandle) : M unit :=
  match voices with
  | [] => ret tt
  | voice :: rest =>
      (fun w => (fst (voice_disconnect voice w), ok tt)) ;;
      _remove_voice_client (voice_server_id voice) ;;
      disconnect_voices rest
  end.

(** [Client.close()]; [ws_open] is [self.ws is not None and
    self.ws.open]. The flags are assigned last, so a call that raises
    leaves them as they were. *)
Definition Client_close (ws_open : bool) (flags : ClientFlags) : M ClientFlags :=
  if _closed flags then ret flags
  else
    let* voices := voice_clients in
    disconnect_voices voices ;;
    (if ws_open : bool then close else ret tt) ;;
    ret (mkClientFlags true false false).

(** What [connect] raises: an exception of the embedding, or the
    [GatewayNotFound] of errors.py. *)
Inductive ClientError : Type :=
  | Raised (e : exn)
  | GatewayNotFound.

(** What the network gives one call of [DiscordWebSocket.from_client]:
    the status and the decoded body of the answer to the gateway
    request, the exception that [websockets.connect] raises if it raises
    one, and the code of the closure if the new socket is closed when
    the IDENTIFY is sent. *)
Record Attempt : Type := mkAttempt {
  gateway_status : Z;
  gateway_body : json;
  connect_raises : option exn;
  identify_closed : option Z;
}.

(** [get_gateway(token)] *)
Definition get_gateway (a : Attempt) : ClientError + json :=
  if negb (gateway_status a =? 200) then inl GatewayNotFound
  else
    match py_get (gateway_body a) "url" with
    | inl e => inl (Raised e)
    | inr url => inr url
    end.

(** [sys.platform] *)
Variable sys_platform : string.

(** The payload of [identify()] *)
Definition identify_payload (token : json) : json :=
  JDict [("op", JInt IDENTIFY);
         ("d", JDict [("token", token);
                      ("properties",
                       JDict [("$os", JStr sys_platform);
                              ("$browser", JStr "discord.py");
                              ("$device", JStr "discord.py");
                              ("$referrer", JStr "");
                              ("$referring_domain", JStr "")]);
                      ("compress", JBool true);
                      ("large_threshold", JInt 250);
                      ("v", JInt 3)])].

(** [DiscordWebSocket.from_client(client)]: it returns the new socket,
    which the caller then assigns to [self.ws]. *)
Definition from_client (token : json) (a : Attempt) (w : World)
  : World * (ClientError + DiscordWebSocket) :=
  match get_gateway a with
  | inl e => (w, inl e)
  | inr gateway =>
      match connect_raises a with
      | Some e => (w, inl (Raised e))
      | None =>
          let created := emit (Logged "Created websocket connected to the gateway") w in
          match send_as_json (identify_closed a) (identify_payload token) created with
          | (w', inl e) => (w', inl (Raised e))
          | (w', inr _) =>
              (emit (Logged "sent the identify payload to create the websocket") w',
               inr (mkWebSocket [] None))
          end
      end
  end.

(** What the network gives one turn of the loop of [connect]: what
    [recv] gives [poll_event], what it gives [from_client] if the turn
    reconnects, and whether the socket is open if the turn closes the
    client. *)
Record Turn : Type := mkTurn {
  polled : Received;
  reconnection : Attempt;
  ws_open : bool;
}.

(** Whether the loop of [connect] goes on or the call has returned. *)
Inductive Progress : Type :=
  | Looping
  | Returned.

(** One turn of [while not self.is_closed] in [connect]. *)
Definition connect_turn (token : json) (t : Turn) (flags : ClientFlags) (w : World)
  : (ClientFlags * World) * (ClientError + Progress) :=
  if _closed flags then ((flags, w), inr Returned)
  else
    match poll_event (polled t) w with
    | (w1, inr _) => ((flags, w1), inr Looping)
    | (w1, inl ReconnectWebSocket) =>
        match from_client token (reconnection t)
                (emit (Logged "Reconnecting the websocket.") w1) with
        | (w2, inl e) => ((flags, w2), inl e)
        | (w2, inr socket) => ((flags, with_ws (fun _ => socket) w2), inr Looping)
        end
    | (w1, inl (ConnectionClosed code)) =>
        match Client_close (ws_open t) flags w1 with
        | (w2, inl e) => ((flags, w2), inl (Raised e))
        | (w2, inr flags') =>
            if negb (code =? 1000) then ((flags', w2), inl (Raised (ConnectionClosed code)))
            else ((flags', w2), inr Looping)
        end
    | (w1, inl e) => ((flags, w1), inl (Raised e))
    end.

(** The loop of [connect], for the turns the network gives; [Looping]
    when the call is still in the loop after them. *)
Fixpoint connect_loop (token : json) (turns : list Turn) (flags : ClientFlags) (w : World)
  : (ClientFlags * World) * (ClientError + Progress) :=
  match turns with
  | [] => ((flags, w), inr (if _closed flags then Returned else Looping))
  | t :: rest =>
      match connect_turn token t flags w with
      | (state, inr Looping) => connect_loop token rest (fst state) (snd state)
      | outcome => outcome
      end
  end.

(** [Client.connect()] *)
Definition connect (token : json) (first : Attempt) (turns : list Turn)
    (flags : ClientFlags) (w : World) : (ClientFlags * World) * (ClientError + Progress) :=
  match from_client token first w with
  | (w', inl e) => ((flags, w'), inl e)
  | (w', inr socket) => connect_loop token turns flags (with_ws (fun _ => socket) w')
  end.

(** *** The vocabulary of the statements *)

(** [keeps proj m]: the part [proj] of the world is the same after [m],
    whether [m] returns or raises. *)
Definition keeps {A B} (proj : World -> B) (m : M A) : Prop :=
  forall w, proj (fst (m w)) = proj w.

Definition stored_sequence (w : World) : json := sequence (conn w).

(** The stored sequence and the configured capacity of the message
    cache. *)
Definition sequence_and_capacity (w : World) : json * Z :=
  (sequence (conn w), max_messages (conn w)).

(** The world after the lines of [received_message] before the tests on
    [op]: the two raw socket notifications are made, and the sequence is
    stored when the frame carries one. *)
Definition before_tests (fields : list (string * json)) (w : World) : World :=
  let notified :=
    emit (Dispatch "socket_response" [ArgJson (JDict fields)])
         (emit (Dispatch "socket_raw_receive" [ArgJson (JDict fields)]) w) in
  match assoc "s" fields with
  | Some s => with_conn (set_sequence s) notified
  | None => notified
  end.

(** [preserves I m]: the invariant [I] holds after [m] when it held
    before, whether [m] returns or raises. *)
Definition preserves {A} (I : World -> Prop) (m : M A) : Prop :=
  forall w, I w -> I (fst (m w)).

(** The frames of a run, processed in turn; a frame whose processing
    raised has left its mutations behind like any other. *)
Definition process_frames (frames : list json) (w : World) : World :=
  foldl (fun w frame => fst (received_message frame w)) w frames.

(** The largest of [z] and the items of [zs]. *)
Definition max_seen (z : Z) (zs : list Z) : Z := foldl Z.max z zs.

(** [frame] is a dispatch frame whose top-level [s] is the integer [z]. *)
Definition dispatch_frame_with (frame : json) (z : Z) : Prop :=
  exists fields,
    frame = JDict fields
    /\ assoc "op" fields = Some (JInt DISPATCH)
    /\ assoc "s" fields = Some (JInt z).

Definition non_decreasing (zs : list Z) : Prop :=
  forall i j a b, (i <= j)%nat -> zs !! i = Some a -> zs !! j = Some b -> a <= b.

(** The cache: everything [clear()] resets. *)
Definition cache_of (c : ConnectionState) :=
  (user c, sequence c, session_id c, _servers c, _voice_clients c,
   _private_channels c, _private_channels_by_user c, messages c).

(** Two worlds with the same cache and the same configured capacity. *)
Definition same_cache (w1 w2 : World) : Prop :=
  max_messages (conn w1) = max_messages (conn w2)
  /\ cache_of (conn w1) = cache_of (conn w2).

(** The same, while [parse_ready] runs: [_ready_state] is set in both. *)
Definition same_cache_staging (w1 w2 : World) : Prop :=
  same_cache w1 w2
  /\ is_Some (_ready_state (conn w1)) /\ is_Some (_ready_state (conn w2)).

Definition same_outcome {A} (Q : A -> A -> Prop) (r1 r2 : result A) : Prop :=
  match r1, r2 with
  | inl e1, inl e2 => e1 = e2
  | inr a1, inr a2 => Q a1 a2
  | _, _ => False
  end.

(** [m1] and [m2] take worlds related by [R1] to worlds related by [R2],
    with the same exception or with results related by [Q]. *)
Definition rel2 {A} (Q : A -> A -> Prop) (R1 R2 : World -> World -> Prop)
    (m1 m2 : M A) : Prop :=
  forall w1 w2, R1 w1 w2 ->
    R2 (fst (m1 w1)) (fst (m2 w2)) /\ same_outcome Q (snd (m1 w1)) (snd (m2 w2)).

(** The worlds alone: the two runs may end differently. *)
Definition relw {A} (R1 R2 : World -> World -> Prop) (m1 m2 : M A) : Prop :=
  forall w1 w2, R1 w1 w2 -> R2 (fst (m1 w1)) (fst (m2 w2)).

Definition same_capacity (w1 w2 : World) : Prop :=
  max_messages (conn w1) = max_messages (conn w2).

Definition capacity (w : World) : Z := max_messages (conn w).

(** The positions, counted from [start], of the items of [l] that
    satisfy [P]. *)
Fixpoint indices_where {A} (P : A -> bool) (l : list A) (start : nat) : list nat :=
  match l with
  | [] => []
  | x :: rest => (if P x then [start] else []) ++ indices_where P rest (S start)
  end.

Definition awaits (event : string) (entry : EventListener) : bool :=
  String.eqb (el_event entry) event.

(** The waiter is taken out by a dispatch of [event] with [data]: its
    event is [event], and its future is cancelled or its predicate
    returns true or raises. *)
Definition entry_pruned (w : World) (event : string) (data : json) (entry : EventListener)
  : bool :=
  awaits event entry
  && (is_cancelled (future_state w (el_future entry))
      || match el_predicate entry data with
         | inr false => false
         | _ => true
         end).

(** [data if entry.result is None else entry.result(data)] *)
Definition entry_value (data : json) (entry : EventListener) : result json :=
  match el_result entry with
  | None => ok data
  | Some f => f data
  end.

(** One round of the loop on a waiter that the dispatch can handle. *)
Definition settle_entry (event : string) (data : json) (w : World) (entry : EventListener)
  : World :=
  if awaits event entry then
    let called := emit (PredicateCalled (el_future entry)) w in
    match el_predicate entry data with
    | inl e => with_futures (insert (el_future entry) (Excepted e)) called
    | inr true =>
        match entry_value data entry with
        | inr v => with_futures (insert (el_future entry) (Finished v)) called
        | inl _ => called
        end
    | inr false => called
    end
  else w.

(** A waiter the dispatch of [event] with [data] can handle: if it is
    for [event], its future is pending and its result function, when the
    predicate is true, returns; or its future is cancelled and its
    predicate is false. *)
Definition entry_usable (w : World) (event : string) (data : json) (entry : EventListener)
  : Prop :=
  el_event entry = event ->
  (future_state w (el_future entry) = Pending
   /\ (el_predicate entry data = ok true -> exists v, entry_value data entry = ok v))
  \/ (future_state w (el_future entry) = Cancelled
      /\ el_predicate entry data = ok false).

(** What one dispatch makes of the future of a waiter. *)
Definition entry_outcome (event : string) (data : json) (entry : EventListener)
    (before : Future) : Future :=
  if awaits event entry then
    match el_predicate entry data with
    | inl e => Excepted e
    | inr true =>
        match entry_value data entry with
        | inr v => Finished v
        | inl _ => before
        end
    | inr false => before
    end
  else before.

(** The waiters of the socket are well kept for a dispatch of [event]
    with [data]: no two share a future, and the dispatch can handle each
    of them. *)
Definition waiters_ready (event : string) (data : json) (w : World) : Prop :=
  NoDup (map el_future (_dispatch_listeners (ws w)))
  /\ (forall entry, entry ∈ _dispatch_listeners (ws w) -> entry_usable w event data entry).

(** The futures among [called] that are pending in [w]. *)
Definition pending_among (w : World) (called : list nat) : list nat :=
  List.filter (fun f => is_pending (future_state w f)) called.

(** The listener's future is not cancelled and its predicate is true. *)
Definition passes (w : World) (argument : Server) (l : Listener) : bool :=
  negb (is_cancelled (future_state w (l_future l)))
  && match l_predicate l argument with
     | inr true => true
     | _ => false
     end.

(** The listener's future is cancelled or its predicate raises. *)
Definition dropped (w : World) (argument : Server) (l : Listener) : bool :=
  is_cancelled (future_state w (l_future l))
  || match l_predicate l argument with
     | inl _ => true
     | _ => false
     end.

(** One round of the loop on a listener that does not pass. *)
Definition fail_listener (argument : Server) (w : World) (l : Listener) : World :=
  if is_cancelled (future_state w (l_future l)) then w
  else
    let called := emit (PredicateCalled (l_future l)) w in
    match l_predicate l argument with
    | inl e => with_futures (insert (l_future l) (Excepted e)) called
    | inr _ => called
    end.

(** The round of the loop on the listener that passes. *)
Definition finish_listener (result : json) (w : World) (l : Listener) : World :=
  with_futures (insert (l_future l) (Finished result))
               (emit (PredicateCalled (l_future l)) w).

Definition open_future (f : Future) : Prop := f = Pending \/ f = Cancelled.

Definition not_cancelled (w : World) (l : Listener) : bool :=
  negb (is_cancelled (future_state w (l_future l))).

(** The listeners of the cache are well kept: no two share a future, and
    every future is pending or cancelled. *)
Definition listeners_ready (w : World) : Prop :=
  NoDup (map l_future (_listeners (conn w)))
  /\ (forall l, l ∈ _listeners (conn w) -> open_future (future_state w (l_future l))).

Definition finished (f : Future) : bool :=
  match f with Finished _ => true | _ => false end.

(** The step from [w] to [w'] has set a result on the future [f]. *)
Definition newly_finished (w w' : World) (f : nat) : Prop :=
  finished (future_state w' f) = true /\ finished (future_state w f) = false.

(** The listener that [receive_chunk(guild_id)] registers. *)
Definition chunk_listener (guild_id : json) (future : nat) : Listener :=
  mkListener chunk future (fun s => inr (py_eq (server_id s) guild_id)).

(** The world after [receive_chunk(guild_id)]. *)
Definition chunk_registered (guild_id : json) (w : World) : World :=
  with_conn (fun c => set_listeners (_listeners c ++ [chunk_listener guild_id (next_future w)]) c)
    (mkWorld (conn w) (ws w) (<[next_future w := Pending]> (futures w)) (S (next_future w))
             (events w) (next_event w) (tasks w) (effects w)).



(** The listeners of the cache are well kept and their futures were
    made by the loop. *)
Definition listeners_wf (w : World) : Prop :=
  listeners_ready w
  /\ (forall l, l ∈ _listeners (conn w) -> (l_future l < next_future w)%nat).

(** The payload of a READY frame is complete for the socket: the frame
    has a sequence, and the payload a session id and a heartbeat interval
    that is a number. *)
Definition ready_complete (fields : list (string * json)) : bool :=
  let data := default JNull (assoc "d" fields) in
  bool_decide (is_Some (assoc "s" fields))
  && match py_item data "session_id", rbind (py_item data "heartbeat_interval") py_dividend with
     | inr _, inr _ => true
     | _, _ => false
     end.

(** [extends m]: [m] adds to the trace of effects and takes nothing out
    of it, whether it returns or raises. *)
Definition extends {A} (m : M A) : Prop :=
  forall w, exists added, effects (fst (m w)) = effects w ++ added.

(** The message cache holds no more messages than its [maxlen], which is
    the configured capacity. *)
Definition cache_bounded (c : ConnectionState) : Prop :=
  maxlen (messages c) = max_messages c
  /\ Z.of_nat (length (items (messages c))) <= maxlen (messages c).

(** A message event of the gateway, with its payload. *)
Inductive MessageEvent : Type :=
  | MessageCreate (data : json)
  | MessageUpdate (data : json)
  | MessageDelete (data : json).

(** The handler of a message event. *)
Definition parse_message_event (event : MessageEvent) : M unit :=
  match event with
  | MessageCreate data => parse_message_create data
  | MessageUpdate data => parse_message_update data
  | MessageDelete data => parse_message_delete data
  end.

(** The message events of a run, handled in turn; an event whose
    handler raised has left its mutations behind like any other. *)
Definition handle_message_events (events : list MessageEvent) (w : World) : World :=
  foldl (fun w event => fst (parse_message_event event w)) w events.

(** The heartbeat that carries the sequence [s]. *)
Definition heartbeat (s : json) : json := JDict [("op", JInt HEARTBEAT); ("d", s)].

(** The socket is closed, at a beat, with a code that [send_as_json]
    does not swallow. *)
Definition fatal (closed : option Z) : bool :=
  match closed with
  | Some code => negb (_can_handle_close code)
  | None => false
  end.

(** The beats up to the first one at which the socket is closed for
    good, that one left out. *)
Fixpoint beats_before_fatal (beats : list (option Z)) : list (option Z) :=
  match beats with
  | [] => []
  | closed :: rest => if fatal closed then [] else closed :: beats_before_fatal rest
  end.

(** The socket is open at the beat. *)
Definition is_open (closed : option Z) : bool :=
  match closed with None => true | Some _ => false end.


(** The keep-alive of the socket is running. *)
Definition running (w : World) : Prop :=
  exists k, _keep_alive (ws w) = Some k /\ stopped k = false.

(** The future of a message waiter is cancelled. *)
Definition waiter_cancelled (c : Client) (entry : MessageWaiter) : bool :=
  match message_future c (waiter_future entry) with
  | MessageCancelled => true
  | _ => false
  end.

(** The message waiter is taken out by [handle_message]: its future is
    cancelled, or its condition is true of the message or raises. *)
Definition waiter_taken (c : Client) (message : Message) (entry : MessageWaiter) : bool :=
  waiter_cancelled c entry
  || match condition entry message with
     | inr false => false
     | _ => true
     end.

(** One round of the loop of [handle_message] on a waiter whose future
    is pending or cancelled. *)
Definition settle_waiter (message : Message) (c : Client) (entry : MessageWaiter) : Client :=
  if waiter_cancelled c entry then c
  else
    let called := condition_called (waiter_future entry) c in
    match condition entry message with
    | inl e => set_message_future (waiter_future entry) (MessageExcepted e) called
    | inr true => set_message_future (waiter_future entry) (MessageFinished message) called
    | inr false => called
    end.

(** The message waiters of the client are well kept: no two share a
    future, and every future is pending or cancelled. *)
Definition message_waiters_ready (c : Client) : Prop :=
  NoDup (map waiter_future (client_listeners c))
  /\ (forall entry, entry ∈ client_listeners c ->
        message_future c (waiter_future entry) = MessagePending
        \/ message_future c (waiter_future entry) = MessageCancelled).

(** The message waiters are well kept and their futures were made by
    [wait_for_message]. *)
Definition message_waiters_wf (c : Client) : Prop :=
  message_waiters_ready c
  /\ (forall entry, entry ∈ client_listeners c ->
        (waiter_future entry < next_message_future c)%nat).

(** What happens to the message waiters of a client: a wait is
    registered, a wait times out, a message is handled. *)
Inductive WaiterStep : Type :=
  | Registered (predicate : Message -> result bool)
  | TimedOut (f : nat)
  | Handled (message : Message).

Definition waiter_step (step : WaiterStep) (c : Client) : Client :=
  match step with
  | Registered predicate => fst (wait_for_message predicate c)
  | TimedOut f => wait_timed_out f c
  | Handled message => fst (handle_message message c)
  end.

(** Every voice client of the cache is registered under the id of its
    server. *)
Definition registered_by_server (d : pydict VoiceHandle) : Prop :=
  forall k voice, (k, voice) ∈ d -> py_eq k (voice_server_id voice) = true.

(** [voice.disconnect()] registers no voice client: the entries it
    leaves in the cache were there before. *)
Definition disconnect_adds_nothing : Prop :=
  forall voice w k v,
    (k, v) ∈ _voice_clients (conn (fst (voice_disconnect voice w))) ->
    (k, v) ∈ _voice_clients (conn w).

(** What the guild loop leaves besides the servers and the staging. *)
Definition beside_servers (w : World) :=
  (user (conn w), sequence (conn w), session_id (conn w), _voice_clients (conn w),
   _private_channels (conn w), _private_channels_by_user (conn w), messages (conn w),
   _listeners (conn w), ws w, futures w, events w, tasks w, effects w).

(** What the loop over the private channels leaves besides the two
    indices of the private channels. *)
Definition beside_private_channels (w : World) :=
  (user (conn w), sequence (conn w), session_id (conn w), _servers (conn w),
   _voice_clients (conn w), messages (conn w), _ready_state (conn w),
   _listeners (conn w), ws w, futures w, events w, tasks w, effects w).

(** The private channel that [parse_ready] makes of an entry [pm] of
    the payload: [PrivateChannel] of [pm['id']] and of the [User] made of
    [pm['recipient']]. *)
Definition private_channel_of (pm : json) : result PrivateChannel :=
  rbind (py_item pm "id") (fun pm_id =>
  rbind (py_item pm "recipient") (fun recipient =>
  rbind (User_new recipient) (fun u => PrivateChannel_new pm_id u))).

(** *** Facts: closing codes and session invalidation *)

(** C6. When the socket closes with code [c], polling raises the
    reconnect request if [c] is 4006, 4008, 4009 or lies in 1001..1014,
    and the fatal connection-closed error carrying [c] for every other
    code; the world is left as it was but for the log line of the
    reconnect. *)
Theorem poll_event_closed (c : Z) (w : World) :
  let recoverable := c = 4006 \/ c = 4008 \/ c = 4009 \/ 1001 <= c <= 1014 in
  (recoverable ->
     snd (poll_event (Closed c) w) = throw ReconnectWebSocket
     /\ fst (poll_event (Closed c) w)
        = emit (Logged "Websocket closed, attempting a reconnect.") w)
  /\ (~ recoverable ->
     poll_event (Closed c) w = (w, throw (ConnectionClosed c))).
Proof.
  intros recoverable. unfold poll_event.
  assert (Hdec : _can_handle_close c = true <-> recoverable).
  { unfold _can_handle_close, recoverable.
    rewrite orb_true_iff, andb_true_iff, bool_decide_eq_true, Z.leb_le, Z.ltb_lt.
    rewrite !elem_of_cons, elem_of_nil. lia. }
  split; intros H.
  - apply Hdec in H. rewrite H. split; reflexivity.
  - destruct (_can_handle_close c) eqn:E; [|reflexivity].
    exfalso. apply H, Hdec. reflexivity.
Qed.

(** C7. A frame whose opcode is INVALIDATE_SESSION sets [sequence] and
    [session_id] to [None] and changes nothing else: the cached entities,
    the listeners of the cache and of the socket, the keep-alive, every
    future and event and every task are as before; no [parse_*] handler
    and no waiter predicate runs, the only calls out being the two raw
    socket notifications; and the call returns normally. *)
Theorem invalidate_session_frame (fields : list (string * json)) (w : World) :
  assoc "op" fields = Some (JInt INVALIDATE_SESSION) ->
  let w' := fst (received_message (JDict fields) w) in
  snd (received_message (JDict fields) w) = ok tt
  /\ sequence (conn w') = JNull
  /\ session_id (conn w') = JNull
  /\ user (conn w') = user (conn w)
  /\ _servers (conn w') = _servers (conn w)
  /\ _voice_clients (conn w') = _voice_clients (conn w)
  /\ _private_channels (conn w') = _private_channels (conn w)
  /\ _private_channels_by_user (conn w') = _private_channels_by_user (conn w)
  /\ messages (conn w') = messages (conn w)
  /\ max_messages (conn w') = max_messages (conn w)
  /\ _listeners (conn w') = _listeners (conn w)
  /\ _ready_state (conn w') = _ready_state (conn w)
  /\ ws w' = ws w
  /\ futures w' = futures w
  /\ events w' = events w
  /\ tasks w' = tasks w
  /\ effects w'
     = effects w ++ [Dispatch "socket_raw_receive" [ArgJson (JDict fields)];
                     Dispatch "socket_response" [ArgJson (JDict fields)]].
Proof.
  intros Hop w'. subst w'.
  unfold received_message, handle_op, bind, lift, dispatch, modify, py_get, ret.
  cbn [fst snd]. rewrite Hop. cbn [default].
  change (py_eq_int (JInt INVALIDATE_SESSION) RECONNECT) with false.
  change (py_eq_int (JInt INVALIDATE_SESSION) INVALIDATE_SESSION) with true.
  cbv iota.
  destruct (py_contains (JDict fields) "s") eqn:Hs.
  - unfold py_contains in Hs. apply bool_decide_eq_true in Hs as [s Hs].
    unfold py_item. rewrite Hs. cbn.
    rewrite <- !app_assoc. repeat split; reflexivity.
  - cbn. rewrite <- !app_assoc. repeat split; reflexivity.
Qed.

(** *** Facts: what a computation leaves alone *)

Lemma keeps_ret {A B} (proj : World -> B) (a : A) : keeps proj (ret a).
Proof. intros w. reflexivity. Qed.

Lemma keeps_raise {A B} (proj : World -> B) (e : exn) : keeps proj (@raise A e).
Proof. intros w. reflexivity. Qed.

Lemma keeps_lift {A B} (proj : World -> B) (r : result A) : keeps proj (lift r).
Proof. intros w. reflexivity. Qed.

Lemma keeps_gets {A B} (proj : World -> B) (f : World -> A) : keeps proj (gets f).
Proof. intros w. reflexivity. Qed.

Lemma keeps_modify {B} (proj : World -> B) (f : World -> World) :
  (forall w, proj (f w) = proj w) -> keeps proj (modify f).
Proof. intros H w. apply H. Qed.

Lemma keeps_bind {A A' B} (proj : World -> B) (m : M A) (k : A -> M A') :
  keeps proj m -> (forall a, keeps proj (k a)) -> keeps proj (bind m k).
Proof.
  intros Hm Hk w. unfold bind. specialize (Hm w).
  destruct (m w) as [w' [e|a]]; simpl in *.
  - exact Hm.
  - rewrite Hk. exact Hm.
Qed.

Lemma keeps_set_result {B} (proj : World -> B) (f : nat) (v : json) :
  (forall g w, proj (with_futures g w) = proj w) -> keeps proj (set_result f v).
Proof.
  intros H w. unfold set_result. destruct (future_state w f); simpl; auto.
Qed.

Lemma keeps_set_exception {B} (proj : World -> B) (f : nat) (e : exn) :
  (forall g w, proj (with_futures g w) = proj w) -> keeps proj (set_exception f e).
Proof.
  intros H w. unfold set_exception. destruct (future_state w f); simpl; auto.
Qed.

Ltac keeps_step :=
  first
    [ apply keeps_ret | apply keeps_raise | apply keeps_lift | apply keeps_gets
    | apply keeps_set_result; intros; reflexivity
    | apply keeps_set_exception; intros; reflexivity
    | apply keeps_modify; intros; reflexivity
    | apply keeps_bind; [|intros]
    | match goal with
      | |- keeps _ (match ?x with _ => _ end) => destruct x
      end ].

Ltac keeps_auto := repeat keeps_step.

(** The listener loop of the socket works on the futures and on the
    socket's own list: the connection state is not touched. *)
Lemma dispatch_loop_keeps_conn (event : string) (data : json) (entries : list EventListener) :
  forall index removed, keeps conn (dispatch_loop event data entries index removed).
Proof.
  induction entries as [|entry rest IH]; intros index removed; simpl.
  - keeps_auto.
  - unfold future_cancelled. keeps_auto; try apply IH.
Qed.

Lemma dispatch_listeners_keeps_conn (event : string) (data : json) :
  keeps conn (dispatch_listeners event data).
Proof.
  unfold dispatch_listeners. keeps_auto. apply dispatch_loop_keeps_conn.
Qed.

Lemma keeps_map {A B C} (proj : World -> B) (f : B -> C) (m : M A) :
  keeps proj m -> keeps (fun w => f (proj w)) m.
Proof. intros H w. rewrite H. reflexivity. Qed.

Lemma add_guilds_keeps (guilds : list json) :
  keeps sequence_and_capacity (add_guilds guilds).
Proof.
  induction guilds as [|guild rest IH]; simpl.
  - keeps_auto.
  - unfold _add_server_from_data, _add_server, stage_server. keeps_auto. apply IH.
Qed.

Lemma add_private_channels_keeps (pms : list json) :
  keeps sequence_and_capacity (add_private_channels pms).
Proof.
  induction pms as [|pm rest IH]; simpl.
  - keeps_auto.
  - unfold _add_private_channel. keeps_auto. apply IH.
Qed.

Lemma parse_ready_keeps (data : json) :
  keeps sequence_and_capacity (parse_ready data).
Proof.
  unfold parse_ready.
  apply keeps_bind; [intros w; reflexivity | intros ev].
  keeps_auto.
  - apply add_guilds_keeps.
  - apply add_private_channels_keeps.
Qed.

Lemma parse_ready_keeps_sequence (data : json) :
  keeps stored_sequence (parse_ready data).
Proof. apply (keeps_map sequence_and_capacity fst), parse_ready_keeps. Qed.

Lemma parse_message_update_keeps_sequence (data : json) :
  keeps stored_sequence (parse_message_update data).
Proof.
  unfold parse_message_update, _get_message, store_message, dispatch. keeps_auto.
Qed.

(** *** Facts: the stored sequence *)

Lemma received_message_tests (fields : list (string * json)) (w : World) :
  received_message (JDict fields) w
  = handle_op (JDict fields) (default JNull (assoc "op" fields))
              (default JNull (assoc "d" fields)) (before_tests fields w).
Proof.
  unfold received_message, before_tests.
  unfold bind, dispatch, modify, lift, py_get, py_contains, py_item, ret.
  cbn -[handle_op].
  destruct (assoc "s" fields); reflexivity.
Qed.

Lemma keeps_preserves {A B} (proj : World -> B) (v : B) (m : M A) :
  keeps proj m -> preserves (fun w => proj w = v) m.
Proof. intros H w Hw. rewrite H. exact Hw. Qed.

Lemma preserves_bind {A A'} (I : World -> Prop) (m : M A) (k : A -> M A') :
  preserves I m -> (forall a, preserves I (k a)) -> preserves I (bind m k).
Proof.
  intros Hm Hk w Hw. unfold bind. specialize (Hm w Hw).
  destruct (m w) as [w' [e|a]]; simpl in *.
  - exact Hm.
  - apply Hk. exact Hm.
Qed.

Lemma ready_reset_stores_sequence (fields : list (string * json)) (s data : json) (w : World) :
  assoc "s" fields = Some s ->
  stored_sequence (fst (ready_reset (JDict fields) data w)) = s.
Proof.
  intros Hs. unfold ready_reset, bind, clear, modify, lift, py_item. simpl. rewrite Hs. simpl.
  destruct data as [| | | | |dfields]; try reflexivity.
  destruct (assoc "session_id" dfields); reflexivity.
Qed.

Lemma call_parser_keeps_sequence (event data : json) :
  (forall parser d, keeps stored_sequence (parse_absent parser d)) ->
  keeps stored_sequence (call_parser event data).
Proof.
  intros Habsent. unfold call_parser.
  apply keeps_bind; [keeps_auto | intros lowered]. cbv zeta.
  unfold getattr_parser.
  repeat match goal with
         | |- context [if ?b then _ else _] => destruct b
         end.
  - apply parse_ready_keeps_sequence.
  - apply parse_message_update_keeps_sequence.
  - apply Habsent.
  - unfold log_info. keeps_auto.
Qed.

Lemma handle_dispatch_stores_sequence (fields : list (string * json)) (s data : json) :
  (forall parser d, keeps stored_sequence (parse_absent parser d)) ->
  assoc "s" fields = Some s ->
  preserves (fun w => stored_sequence w = s) (handle_dispatch (JDict fields) data).
Proof.
  intros Habsent Hs. unfold handle_dispatch.
  apply preserves_bind; [apply keeps_preserves; keeps_auto | intros event].
  cbv zeta.
  apply preserves_bind.
  { destruct (py_eq_str event "READY").
    - intros w0 _. apply ready_reset_stores_sequence, Hs.
    - apply keeps_preserves. keeps_auto. }
  intros _. apply preserves_bind.
  { apply keeps_preserves. unfold start_keep_alive. keeps_auto. }
  intros _. apply preserves_bind.
  { apply keeps_preserves, call_parser_keeps_sequence, Habsent. }
  intros _. apply keeps_preserves.
  destruct event; try (keeps_auto; fail).
  intros w0. unfold stored_sequence. rewrite dispatch_listeners_keeps_conn. reflexivity.
Qed.

Lemma received_message_stores_sequence (fields : list (string * json)) (s : json) (w : World) :
  (forall parser data, keeps stored_sequence (parse_absent parser data)) ->
  assoc "s" fields = Some s ->
  py_eq_int (default JNull (assoc "op" fields)) INVALIDATE_SESSION = false ->
  stored_sequence (fst (received_message (JDict fields) w)) = s.
Proof.
  intros Habsent Hs Hop.
  assert (Hin : bool_decide (is_Some (assoc "s" fields)) = true).
  { apply bool_decide_eq_true. rewrite Hs. eauto. }
  unfold received_message.
  unfold bind at 1 2 3 4 5. unfold dispatch, modify, lift, py_get, py_contains. simpl.
  rewrite Hin. unfold bind at 1. unfold py_item, lift. rewrite Hs. simpl.
  match goal with |- stored_sequence (fst (handle_op _ _ _ ?w0)) = _ =>
    assert (Hw0 : stored_sequence w0 = s) by reflexivity; revert Hw0; generalize w0
  end.
  change (preserves (fun w => stored_sequence w = s)
            (handle_op (JDict fields) (default JNull (assoc "op" fields))
                       (default JNull (assoc "d" fields)))).
  unfold handle_op. rewrite Hop.
  destruct (py_eq_int _ RECONNECT).
  { apply keeps_preserves. unfold log_info, close. keeps_auto. }
  destruct (negb _).
  { apply keeps_preserves. unfold log_info. keeps_auto. }
  apply handle_dispatch_stores_sequence; assumption.
Qed.

Lemma max_seen_reached (b : Z) (zs : list Z) :
  forall z, z <= b -> Forall (fun x => x <= b) zs -> z = b \/ b ∈ zs -> max_seen z zs = b.
Proof.
  unfold max_seen. induction zs as [|a rest IH]; intros z Hz Hall Hin; simpl.
  - destruct Hin as [Hin|Hin]; [exact Hin | inversion Hin].
  - inversion Hall as [|? ? Ha Hrest]; subst.
    apply IH; [lia | exact Hrest |].
    destruct Hin as [->|Hin]; [left; lia|].
    apply elem_of_cons in Hin as [->|Hin]; [left; lia | right; exact Hin].
Qed.

Lemma max_seen_is_last (z : Z) (zs init : list Z) (b : Z) :
  z :: zs = init ++ [b] -> non_decreasing (z :: zs) -> max_seen z zs = b.
Proof.
  intros Heq Hmono.
  assert (Hbound : forall x, x ∈ z :: zs -> x <= b).
  { intros x Hx. apply list_elem_of_lookup in Hx as [i Hi].
    apply (Hmono i (length init) x b); [| exact Hi |].
    - apply lookup_lt_Some in Hi. rewrite Heq, length_app in Hi. simpl in Hi. lia.
    - rewrite Heq. rewrite lookup_app_r by lia. rewrite Nat.sub_diag. reflexivity. }
  apply max_seen_reached.
  - apply Hbound. left.
  - apply Forall_forall. intros x Hx. apply Hbound. right. exact Hx.
  - destruct init as [|i0 init]; simpl in Heq.
    + injection Heq as -> ->. left. reflexivity.
    + injection Heq as -> ->. right. apply elem_of_app. right. left.
Qed.

Lemma process_frames_snoc (frames : list json) (frame : json) (w : World) :
  process_frames (frames ++ [frame]) w
  = fst (received_message frame (process_frames frames w)).
Proof. unfold process_frames. rewrite foldl_app. reflexivity. Qed.

(** The loop of [Client.connect] stops at the first frame that raises:
    what it leaves is what the frames up to that one leave. *)
Lemma poll_events_prefix (frames : list json) :
  forall w, exists n,
    fst (poll_events (map Frame frames) w) = process_frames (take n frames) w.
Proof.
  induction frames as [|frame rest IH]; intros w.
  - exists 0%nat. reflexivity.
  - simpl. unfold bind. destruct (received_message frame w) as [w' [e|[]]] eqn:E.
    + exists 1%nat. simpl. rewrite E. reflexivity.
    + destruct (IH w') as [n Hn]. exists (S n). simpl. rewrite E. simpl. exact Hn.
Qed.

(** C1. A frame that carries a top-level [s] has that value stored as
    the sequence before the opcode is looked at: the tests on [op], and
    with them every handler and waiter, run in a world whose stored
    sequence is already [s]. So whatever the opcode (INVALIDATE_SESSION
    apart, which then clears it), the event name and the outcome, the
    frame leaves [s] as the stored sequence, and after a run of dispatch
    frames whose [s] are non-decreasing integers the stored sequence is the
    largest [s] seen, whatever the event names are. The [parse_*]
    handlers that work on the absent classes are taken not to assign
    [sequence], as none in state.py does. *)
Theorem sequence_follows_frames :
  (forall parser data, keeps stored_sequence (parse_absent parser data)) ->
  (forall fields s w,
      assoc "s" fields = Some s ->
      received_message (JDict fields) w
      = handle_op (JDict fields) (default JNull (assoc "op" fields))
                  (default JNull (assoc "d" fields)) (before_tests fields w)
      /\ stored_sequence (before_tests fields w) = s)
  /\ (forall fields s w,
      assoc "s" fields = Some s ->
      py_eq_int (default JNull (assoc "op" fields)) INVALIDATE_SESSION = false ->
      stored_sequence (fst (received_message (JDict fields) w)) = s)
  /\ (forall frame frames z zs w,
      Forall2 dispatch_frame_with (frame :: frames) (z :: zs) ->
      non_decreasing (z :: zs) ->
      stored_sequence (process_frames (frame :: frames) w) = JInt (max_seen z zs)).
Proof.
  intros Habsent. split; [| split].
  - intros fields s w Hs. split; [apply received_message_tests |].
    unfold before_tests. rewrite Hs. reflexivity.
  - intros fields s w. apply received_message_stores_sequence, Habsent.
  - intros frame frames z zs w Hall Hmono.
    destruct (exists_last (l := frame :: frames)) as [init [final Hsplit]]; [discriminate|].
    rewrite Hsplit in *.
    apply Forall2_app_inv_l in Hall as (zinit & zfinal & Hinit & Hfinal & Hzs).
    inversion Hfinal as [|? b ? ? Hb Hnil]; subst. inversion Hnil; subst.
    rewrite process_frames_snoc.
    destruct Hb as (fields & -> & Hop & Hs).
    rewrite (received_message_stores_sequence fields (JInt b)); [| exact Habsent | exact Hs |].
    + f_equal. symmetry. apply (max_seen_is_last z zs zinit b); assumption.
    + rewrite Hop. reflexivity.
Qed.

(** *** Facts: READY rebuilds the cache from the payload *)

Lemma rel2_ret {A} (R : World -> World -> Prop) (a : A) : rel2 eq R R (ret a) (ret a).
Proof. intros w1 w2 H. split; [exact H | reflexivity]. Qed.

Lemma rel2_raise {A} (Q : A -> A -> Prop) (R : World -> World -> Prop) (e : exn) :
  rel2 Q R R (raise e) (raise e).
Proof. intros w1 w2 H. split; [exact H | reflexivity]. Qed.

Lemma rel2_lift {A} (R : World -> World -> Prop) (r : result A) :
  rel2 eq R R (lift r) (lift r).
Proof. intros w1 w2 H. split; [exact H | destruct r; reflexivity]. Qed.

Lemma rel2_gets {A} (R : World -> World -> Prop) (f : World -> A) :
  (forall w1 w2, R w1 w2 -> f w1 = f w2) -> rel2 eq R R (gets f) (gets f).
Proof. intros Hf w1 w2 H. split; [exact H | apply Hf, H]. Qed.

Lemma rel2_modify (R1 R2 : World -> World -> Prop) (f1 f2 : World -> World) :
  (forall w1 w2, R1 w1 w2 -> R2 (f1 w1) (f2 w2)) ->
  rel2 eq R1 R2 (modify f1) (modify f2).
Proof. intros Hf w1 w2 H. split; [apply Hf, H | reflexivity]. Qed.

Lemma rel2_bind {A B} (Q : A -> A -> Prop) (Q' : B -> B -> Prop)
    (R1 R2 R3 : World -> World -> Prop) (m1 m2 : M A) (k1 k2 : A -> M B) :
  rel2 Q R1 R2 m1 m2 ->
  (forall w1 w2, R2 w1 w2 -> R3 w1 w2) ->
  (forall a1 a2, Q a1 a2 -> rel2 Q' R2 R3 (k1 a1) (k2 a2)) ->
  rel2 Q' R1 R3 (bind m1 k1) (bind m2 k2).
Proof.
  intros Hm Hsub Hk w1 w2 H. unfold bind.
  destruct (Hm w1 w2 H) as [HR Hres].
  destruct (m1 w1) as [w1' [e1|a1]], (m2 w2) as [w2' [e2|a2]]; simpl in *;
    try contradiction.
  - split; [apply Hsub, HR | exact Hres].
  - apply (Hk a1 a2 Hres), HR.
Qed.

Lemma rel2_bind_eq {A B} (Q' : B -> B -> Prop) (R : World -> World -> Prop)
    (m : M A) (k : A -> M B) :
  rel2 eq R R m m ->
  (forall a, rel2 Q' R R (k a) (k a)) ->
  rel2 Q' R R (bind m k) (bind m k).
Proof.
  intros Hm Hk. apply (rel2_bind eq Q' R R R); [exact Hm | auto |].
  intros a1 a2 <-. apply Hk.
Qed.

Ltac same_cache_solve :=
  unfold same_cache_staging, same_cache, cache_of in *; simpl in *;
  repeat match goal with
         | H : _ /\ _ |- _ => destruct H
         | H : (_, _) = (_, _) |- _ => injection H as ?
         end;
  subst; repeat split; simpl; eauto; congruence.

Lemma stage_server_rel (server : Server) :
  rel2 eq same_cache_staging same_cache_staging (stage_server server) (stage_server server).
Proof.
  intros w1 w2 H. unfold stage_server, bind, gets, modify. simpl.
  destruct H as (Hc & [rs1 H1] & [rs2 H2]). rewrite H1, H2. simpl.
  split; [|reflexivity]. same_cache_solve.
Qed.

Lemma add_guilds_rel (guilds : list json) :
  rel2 eq same_cache_staging same_cache_staging (add_guilds guilds) (add_guilds guilds).
Proof.
  induction guilds as [|guild rest IH]; simpl.
  - apply rel2_ret.
  - apply rel2_bind_eq.
    + unfold _add_server_from_data. apply rel2_bind_eq; [apply rel2_lift | intros server].
      apply rel2_bind_eq; [| intros _; apply rel2_ret].
      unfold _add_server.
      apply rel2_bind_eq; [apply rel2_gets; intros; same_cache_solve | intros d].
      apply rel2_bind_eq; [apply rel2_lift | intros d'].
      apply rel2_modify. intros w1 w2 H. same_cache_solve.
    + intros server. apply rel2_bind_eq; [| intros _; apply IH].
      destruct (server_large server); [apply stage_server_rel | apply rel2_ret].
Qed.

Lemma add_private_channels_rel (pms : list json) :
  rel2 eq same_cache_staging same_cache_staging
       (add_private_channels pms) (add_private_channels pms).
Proof.
  induction pms as [|pm rest IH]; simpl.
  - apply rel2_ret.
  - repeat (apply rel2_bind_eq; [apply rel2_lift | intros ?]).
    apply rel2_bind_eq; [| intros _; apply IH].
    unfold _add_private_channel.
    apply rel2_bind_eq; [apply rel2_gets; intros; same_cache_solve | intros d].
    apply rel2_bind_eq; [apply rel2_lift | intros d'].
    apply rel2_bind_eq; [apply rel2_modify; intros w1 w2 H; same_cache_solve | intros _].
    apply rel2_bind_eq; [apply rel2_gets; intros; same_cache_solve | intros u].
    apply rel2_bind_eq; [apply rel2_lift | intros u'].
    apply rel2_modify. intros w1 w2 H. same_cache_solve.
Qed.

Lemma rel2_weaken {A} (Q : A -> A -> Prop) (R1 R2 R2' : World -> World -> Prop)
    (m1 m2 : M A) :
  rel2 Q R1 R2 m1 m2 -> (forall w1 w2, R2 w1 w2 -> R2' w1 w2) -> rel2 Q R1 R2' m1 m2.
Proof. intros H Hsub w1 w2 HR. destruct (H w1 w2 HR). split; auto. Qed.

Lemma staging_same_cache (w1 w2 : World) : same_cache_staging w1 w2 -> same_cache w1 w2.
Proof. intros [H _]. exact H. Qed.

Lemma parse_ready_rel (data : json) :
  rel2 eq same_cache same_cache (parse_ready data) (parse_ready data).
Proof.
  unfold parse_ready.
  apply (rel2_bind (fun _ _ => True) eq same_cache same_cache same_cache); [| auto |].
  { intros w1 w2 H. split; [| exact Logic.I]. unfold new_event. same_cache_solve. }
  intros ev1 ev2 _.
  apply (rel2_bind eq eq same_cache same_cache_staging same_cache).
  { apply rel2_modify. intros w1 w2 H. same_cache_solve. }
  { apply staging_same_cache. }
  intros _ _ _.
  apply (rel2_weaken eq _ same_cache_staging); [| apply staging_same_cache].
  apply rel2_bind_eq; [apply rel2_lift | intros user_data].
  apply rel2_bind_eq; [apply rel2_lift | intros u].
  apply rel2_bind_eq; [apply rel2_modify; intros w1 w2 H; same_cache_solve | intros _].
  apply rel2_bind_eq; [apply rel2_lift | intros guilds].
  apply rel2_bind_eq; [apply rel2_lift | intros guild_list].
  apply rel2_bind_eq; [apply add_guilds_rel | intros _].
  apply rel2_bind_eq; [apply rel2_lift | intros pms].
  apply rel2_bind_eq; [apply rel2_lift | intros pm_list].
  apply rel2_bind_eq; [apply add_private_channels_rel | intros _].
  apply rel2_modify. intros w1 w2 H. same_cache_solve.
Qed.

Lemma relw_bind {A B} (Q : A -> A -> Prop) (R1 R2 R3 : World -> World -> Prop)
    (m1 m2 : M A) (k1 k2 : A -> M B) :
  rel2 Q R1 R2 m1 m2 ->
  (forall w1 w2, R2 w1 w2 -> R3 w1 w2) ->
  (forall a1 a2, Q a1 a2 -> relw R2 R3 (k1 a1) (k2 a2)) ->
  relw R1 R3 (bind m1 k1) (bind m2 k2).
Proof.
  intros Hm Hsub Hk w1 w2 H. unfold bind.
  destruct (Hm w1 w2 H) as [HR Hres].
  destruct (m1 w1) as [w1' [e1|a1]], (m2 w2) as [w2' [e2|a2]]; simpl in *;
    try contradiction.
  - apply Hsub, HR.
  - apply (Hk a1 a2 Hres), HR.
Qed.

Lemma relw_keeps_conn {A} (m : M A) :
  keeps conn m -> relw same_cache same_cache m m.
Proof.
  intros Hk w1 w2 H. unfold same_cache in *. rewrite !Hk. exact H.
Qed.

Lemma ready_reset_rel (msg data : json) :
  rel2 eq same_capacity same_cache (ready_reset msg data) (ready_reset msg data).
Proof.
  unfold ready_reset.
  apply (rel2_bind eq eq same_capacity same_cache same_cache); [| auto |].
  { apply rel2_modify. intros w1 w2 H. unfold same_capacity in H. same_cache_solve. }
  intros _ _ _.
  apply rel2_bind_eq; [apply rel2_lift | intros s].
  apply rel2_bind_eq; [apply rel2_modify; intros w1 w2 H; same_cache_solve | intros _].
  apply rel2_bind_eq; [apply rel2_lift | intros sid].
  apply rel2_modify. intros w1 w2 H. same_cache_solve.
Qed.

Lemma start_keep_alive_rel (data : json) :
  rel2 eq same_cache same_cache (start_keep_alive data) (start_keep_alive data).
Proof.
  unfold start_keep_alive.
  apply rel2_bind_eq; [apply rel2_lift | intros beat].
  apply rel2_bind_eq; [apply rel2_lift | intros interval].
  apply rel2_bind_eq; [apply rel2_modify; intros w1 w2 H; same_cache_solve | intros _].
  apply rel2_modify. intros w1 w2 H. same_cache_solve.
Qed.

Lemma call_parser_ready (data : json) :
  call_parser (JStr "READY") data = parse_ready data.
Proof. reflexivity. Qed.

Lemma handle_dispatch_ready (fields : list (string * json)) (data : json) (w : World) :
  assoc "t" fields = Some (JStr "READY") ->
  handle_dispatch (JDict fields) data w
  = (ready_reset (JDict fields) data ;;
     start_keep_alive data ;;
     parse_ready data ;;
     dispatch_listeners "READY" data) w.
Proof.
  intros Ht. unfold handle_dispatch. unfold bind at 1. unfold lift, py_get.
  rewrite Ht. reflexivity.
Qed.

Lemma handle_dispatch_ready_rel (fields : list (string * json)) (data : json) :
  assoc "t" fields = Some (JStr "READY") ->
  relw same_capacity same_cache
       (handle_dispatch (JDict fields) data) (handle_dispatch (JDict fields) data).
Proof.
  intros Ht w1 w2 H. rewrite !handle_dispatch_ready by exact Ht.
  revert w1 w2 H.
  apply (relw_bind eq same_capacity same_cache same_cache);
    [apply ready_reset_rel | auto | intros _ _ _].
  apply (relw_bind eq same_cache same_cache same_cache);
    [apply start_keep_alive_rel | auto | intros _ _ _].
  apply (relw_bind eq same_cache same_cache same_cache);
    [apply parse_ready_rel | auto | intros _ _ _].
  apply relw_keeps_conn, dispatch_listeners_keeps_conn.
Qed.

Lemma handle_dispatch_ready_keeps_capacity (fields : list (string * json)) (data : json) :
  assoc "t" fields = Some (JStr "READY") ->
  keeps capacity (handle_dispatch (JDict fields) data).
Proof.
  intros Ht w. rewrite handle_dispatch_ready by exact Ht. revert w.
  apply keeps_bind; [unfold ready_reset, clear; keeps_auto | intros _].
  apply keeps_bind; [unfold start_keep_alive; keeps_auto | intros _].
  apply keeps_bind; [| intros _].
  - apply (keeps_map sequence_and_capacity snd), parse_ready_keeps.
  - apply (keeps_map conn max_messages), dispatch_listeners_keeps_conn.
Qed.

Lemma received_message_dispatch (fields : list (string * json)) (w : World) :
  assoc "op" fields = Some (JInt DISPATCH) ->
  received_message (JDict fields) w
  = handle_dispatch (JDict fields) (default JNull (assoc "d" fields)) (before_tests fields w).
Proof.
  intros Hop. rewrite received_message_tests. rewrite Hop. reflexivity.
Qed.

Lemma before_tests_capacity (fields : list (string * json)) (w : World) :
  capacity (before_tests fields w) = capacity w.
Proof. unfold before_tests. destruct (assoc "s" fields); reflexivity. Qed.

(** *** Facts: message updates *)

Lemma parse_message_update_found (fields : list (string * json)) (i : nat)
    (message : Message) (w : World) :
  utils_find (fun m => message_has_id m (default JNull (assoc "id" fields)))
             (items (messages (conn w))) = Some i ->
  items (messages (conn w)) !! i = Some message ->
  parse_message_update (JDict fields) w
  = match assoc "content" fields with
    | None =>
        match assoc "embeds" fields with
        | Some embeds =>
            (emit (Dispatch "message_edit"
                     [ArgMessage message; ArgMessage (set_embeds embeds message)])
               (with_conn (fun c =>
                  set_messages (mkDeque (maxlen (messages c))
                                  (<[i := set_embeds embeds message]> (items (messages c)))) c) w),
             ok tt)
        | None => (w, throw (KeyError "embeds"))
        end
    | Some _ =>
        let updated := fst (Message_update message (JDict fields)) in
        let stored :=
          with_conn (fun c =>
            set_messages (mkDeque (maxlen (messages c))
                            (<[i := updated]> (items (messages c)))) c) w in
        match snd (Message_update message (JDict fields)) with
        | inl e => (stored, throw e)
        | inr _ =>
            (emit (Dispatch "message_edit" [ArgMessage message; ArgMessage updated]) stored,
             ok tt)
        end
    end.
Proof.
  intros Hfind Hat.
  unfold parse_message_update, _get_message, store_message, dispatch.
  unfold bind, gets, lift, modify, ret, py_get, py_contains, py_item. simpl.
  rewrite Hfind. simpl. rewrite Hat.
  destruct (assoc "content" fields) as [content|]; simpl.
  - destruct (Message_update message (JDict fields)) as [m [e|[]]]; reflexivity.
  - destruct (assoc "embeds" fields); reflexivity.
Qed.

(** C9. When a message-update event is for a cached message and its
    payload has no "content" key, the stored text content and every other
    attribute of the message but [embeds] are as before, [embeds] becomes
    the payload's "embeds" when the payload has that key, and no other
    cached message changes; when the payload has a "content" key, the
    message becomes what the full update [_update] of the payload makes of
    it. *)
Theorem message_update_embed_only (fields : list (string * json)) (i : nat)
    (message : Message) (w : World) :
  utils_find (fun m => message_has_id m (default JNull (assoc "id" fields)))
             (items (messages (conn w))) = Some i ->
  items (messages (conn w)) !! i = Some message ->
  let w' := fst (parse_message_update (JDict fields) w) in
  (assoc "content" fields = None ->
     (forall j, j <> i -> items (messages (conn w')) !! j = items (messages (conn w)) !! j)
     /\ exists m',
         items (messages (conn w')) !! i = Some m'
         /\ attributes m' !! "content" = attributes message !! "content"
         /\ (forall a, a <> "embeds" -> attributes m' !! a = attributes message !! a)
         /\ (forall embeds, assoc "embeds" fields = Some embeds ->
               attributes m' !! "embeds" = Some (attr_of_json embeds)
               /\ snd (parse_message_update (JDict fields) w) = ok tt))
  /\ (is_Some (assoc "content" fields) ->
     items (messages (conn w')) !! i = Some (fst (Message_update message (JDict fields)))).
Proof.
  intros Hfind Hat w'. subst w'.
  rewrite (parse_message_update_found fields i message w Hfind Hat).
  pose proof (lookup_lt_Some _ _ _ Hat) as Hlt.
  split.
  - intros Hcontent. rewrite Hcontent.
    destruct (assoc "embeds" fields) as [embeds|] eqn:Hembeds; simpl.
    + split.
      * intros j Hj. apply list_lookup_insert_ne. congruence.
      * exists (set_embeds embeds message). split.
        { apply list_lookup_insert_eq. exact Hlt. }
        unfold set_embeds. simpl. split; [| split].
        { apply lookup_insert_ne. discriminate. }
        { intros a Ha. apply lookup_insert_ne. congruence. }
        { intros e [= <-]. split; [apply lookup_insert_eq | reflexivity]. }
    + split; [reflexivity |].
      exists message. split; [exact Hat |].
      split; [reflexivity |]. split; [reflexivity |]. discriminate.
  - intros [content Hcontent]. rewrite Hcontent.
    destruct (Message_update message (JDict fields)) as [m [e|[]]]; simpl;
      apply list_lookup_insert_eq; exact Hlt.
Qed.

(** *** Facts: one step of a computation *)


Lemma bind_gets {A B} (f : World -> A) (k : A -> M B) (w : World) :
  bind (gets f) k w = k (f w) w.
Proof. reflexivity. Qed.

Lemma bind_modify {B} (f : World -> World) (k : unit -> M B) (w : World) :
  bind (modify f) k w = k tt (f w).
Proof. reflexivity. Qed.

Lemma bind_lift_ok {A B} (a : A) (k : A -> M B) (w : World) :
  bind (lift (ok a)) k w = k a w.
Proof. reflexivity. Qed.

Lemma bind_ret {A B} (a : A) (k : A -> M B) (w : World) :
  bind (ret a) k w = k a w.
Proof. reflexivity. Qed.

Lemma bind_bind {A B C} (m : M A) (k : A -> M B) (h : B -> M C) (w : World) :
  bind (bind m k) h w = bind m (fun a => bind (k a) h) w.
Proof. unfold bind. destruct (m w) as [w' [e|a]]; reflexivity. Qed.

Lemma bind_set_result {B} (f : nat) (v : json) (k : unit -> M B) (w : World) :
  future_state w f = Pending ->
  bind (set_result f v) k w = k tt (with_futures (insert f (Finished v)) w).
Proof. intros H. unfold bind, set_result. rewrite H. reflexivity. Qed.

Lemma bind_set_exception {B} (f : nat) (e : exn) (k : unit -> M B) (w : World) :
  future_state w f = Pending ->
  bind (set_exception f e) k w = k tt (with_futures (insert f (Excepted e)) w).
Proof. intros H. unfold bind, set_exception. rewrite H. reflexivity. Qed.

Lemma bind_set_result_done {B} (f : nat) (v : json) (k : unit -> M B) (w : World) :
  future_state w f <> Pending ->
  bind (set_result f v) k w = (w, throw InvalidStateError).
Proof.
  intros H. unfold bind, set_result. destruct (future_state w f); try reflexivity.
  contradiction.
Qed.

Lemma bind_future_cancelled {B} (f : nat) (k : bool -> M B) (w : World) :
  bind (future_cancelled f) k w = k (is_cancelled (future_state w f)) w.
Proof. reflexivity. Qed.

(** *** Facts: deleting the collected indices *)

Lemma del_indices_app {A} (a b : list nat) (l : list A) :
  del_indices (a ++ b) l = rbind (del_indices a l) (del_indices b).
Proof.
  revert l. induction a as [|i a IH]; intros l; simpl.
  - reflexivity.
  - unfold list_delitem. destruct (i <? length l)%nat; simpl; [apply IH | reflexivity].
Qed.

Lemma delete_middle {A} (pre : list A) (x : A) (post : list A) :
  list_delitem (length pre) (pre ++ x :: post) = ok (pre ++ post).
Proof.
  unfold list_delitem.
  assert (H : (length pre <? length (pre ++ x :: post))%nat = true).
  { apply Nat.ltb_lt. rewrite length_app. simpl. lia. }
  rewrite H. f_equal. clear H.
  induction pre as [|p pre IH]; simpl; [reflexivity | f_equal; exact IH].
Qed.

(** Deleting, from the highest down, the positions of the items of [l]
    that satisfy [P] leaves the items that do not, in their order; what
    comes before and after [l] stays. *)
Lemma del_indices_where {A} (P : A -> bool) (l : list A) :
  forall pre post,
    del_indices (rev (indices_where P l (length pre))) (pre ++ l ++ post)
    = ok (pre ++ List.filter (fun x => negb (P x)) l ++ post).
Proof.
  induction l as [|x rest IH]; intros pre post; simpl.
  - reflexivity.
  - rewrite rev_app_distr, del_indices_app.
    specialize (IH (pre ++ [x]) post).
    rewrite length_app in IH. simpl in IH.
    replace (length pre + 1)%nat with (S (length pre)) in IH by lia.
    rewrite <- !app_assoc in IH. simpl in IH. rewrite IH. simpl.
    destruct (P x); simpl.
    + rewrite delete_middle. reflexivity.
    + reflexivity.
Qed.

(** *** Facts: the waiters of the socket *)

Lemma settle_entry_other (event : string) (data : json) (w : World)
    (entry : EventListener) (f : nat) :
  f <> el_future entry ->
  future_state (settle_entry event data w entry) f = future_state w f.
Proof.
  intros Hf. unfold settle_entry, future_state.
  destruct (awaits event entry); [| reflexivity].
  destruct (el_predicate entry data) as [e|[|]]; simpl;
    [| destruct (entry_value data entry); simpl |];
    try reflexivity; apply lookup_total_insert_ne; congruence.
Qed.

Lemma dispatch_loop_spec (event : string) (data : json) (w0 : World)
    (entries : list EventListener) :
  forall index removed w,
    NoDup (map el_future entries) ->
    (forall entry, entry ∈ entries ->
                   future_state w (el_future entry) = future_state w0 (el_future entry)) ->
    (forall entry, entry ∈ entries -> entry_usable w0 event data entry) ->
    dispatch_loop event data entries index removed w
    = (foldl (settle_entry event data) w entries,
       ok (removed ++ indices_where (entry_pruned w0 event data) entries index)).
Proof.
  induction entries as [|entry rest IH]; intros index removed w Hnodup Hsame Husable.
  - simpl. rewrite app_nil_r. reflexivity.
  - apply NoDup_cons in Hnodup as [Hfresh Hnodup].
    assert (Hnext : forall w',
      (forall f, f <> el_future entry -> future_state w' f = future_state w f) ->
      forall entry', entry' ∈ rest ->
                     future_state w' (el_future entry') = future_state w0 (el_future entry')).
    { intros w' Hw' entry' Hin. rewrite Hw'.
      - apply Hsame. right. exact Hin.
      - intros Heq. apply Hfresh. rewrite <- Heq.
        apply list_elem_of_In, in_map, list_elem_of_In, Hin. }
    assert (Husable' : forall entry', entry' ∈ rest -> entry_usable w0 event data entry').
    { intros entry' Hin. apply Husable. right. exact Hin. }
    pose proof (Hsame entry ltac:(left)) as Hstate.
    pose proof (Husable entry ltac:(left)) as Hentry.
    cbn [dispatch_loop foldl indices_where].
    unfold entry_pruned at 1, settle_entry at 2, awaits.
    destruct (String.eqb (el_event entry) event) eqn:Hev; cbn [negb andb].
    + apply String.eqb_eq in Hev.
      rewrite bind_future_cancelled, bind_modify, Hstate.
      destruct (Hentry Hev) as [[Hp Hvalue] | [Hc Hfalse]].
      * rewrite Hp. cbn [is_cancelled orb].
        destruct (el_predicate entry data) as [e|[|]] eqn:Hpred.
        { rewrite bind_set_exception by (rewrite <- Hp; exact Hstate).
          rewrite IH; [rewrite <- app_assoc; reflexivity | exact Hnodup | | exact Husable'].
          apply Hnext. intros f Hf. unfold future_state. simpl.
          apply lookup_total_insert_ne. congruence. }
        { destruct (Hvalue eq_refl) as [v Hv].
          unfold entry_value in Hv |- *. rewrite Hv, bind_lift_ok.
          rewrite bind_set_result by (rewrite <- Hp; exact Hstate).
          rewrite IH; [rewrite <- app_assoc; reflexivity | exact Hnodup | | exact Husable'].
          apply Hnext. intros f Hf. unfold future_state. simpl.
          apply lookup_total_insert_ne. congruence. }
        { rewrite IH; [reflexivity | exact Hnodup | | exact Husable'].
          apply Hnext. intros f Hf. reflexivity. }
      * rewrite Hc, Hfalse. cbn [is_cancelled orb].
        rewrite IH; [rewrite <- app_assoc; reflexivity | exact Hnodup | | exact Husable'].
        apply Hnext. intros f Hf. reflexivity.
    + rewrite IH; [reflexivity | exact Hnodup | | exact Husable'].
      apply Hnext. intros f Hf. reflexivity.
Qed.

Lemma settle_entry_same (event : string) (data : json) (w : World) (entry : EventListener) :
  future_state (settle_entry event data w entry) (el_future entry)
  = entry_outcome event data entry (future_state w (el_future entry)).
Proof.
  unfold settle_entry, entry_outcome, future_state.
  destruct (awaits event entry); [| reflexivity].
  destruct (el_predicate entry data) as [e|[|]]; simpl;
    [| destruct (entry_value data entry); simpl |];
    try reflexivity; apply lookup_total_insert_eq.
Qed.

Lemma settle_entry_frame (event : string) (data : json) (w : World) (entry : EventListener) :
  let w' := settle_entry event data w entry in
  conn w' = conn w /\ ws w' = ws w /\ events w' = events w /\ tasks w' = tasks w
  /\ effects w'
     = effects w ++ (if awaits event entry then [PredicateCalled (el_future entry)] else []).
Proof.
  unfold settle_entry.
  destruct (awaits event entry); simpl.
  - destruct (el_predicate entry data) as [e|[|]]; simpl;
      [| destruct (entry_value data entry); simpl |]; repeat split; reflexivity.
  - rewrite app_nil_r. repeat split; reflexivity.
Qed.

Lemma settled_world (event : string) (data : json) (entries : list EventListener) :
  forall w,
    NoDup (map el_future entries) ->
    let w' := foldl (settle_entry event data) w entries in
    conn w' = conn w /\ ws w' = ws w /\ events w' = events w /\ tasks w' = tasks w
    /\ effects w'
       = effects w ++ map PredicateCalled (map el_future (List.filter (awaits event) entries))
    /\ (forall f, f ∉ map el_future entries -> future_state w' f = future_state w f)
    /\ (forall entry, entry ∈ entries ->
          future_state w' (el_future entry)
          = entry_outcome event data entry (future_state w (el_future entry))).
Proof.
  induction entries as [|entry rest IH]; intros w Hnodup; simpl.
  - rewrite app_nil_r. repeat split; try reflexivity.
    intros entry Hin. inversion Hin.
  - apply NoDup_cons in Hnodup as [Hfresh Hnodup].
    destruct (IH (settle_entry event data w entry) Hnodup)
      as (Hconn & Hws & Hev & Htasks & Heff & Hother & Hsame).
    destruct (settle_entry_frame event data w entry) as (Hc1 & Hw1 & He1 & Ht1 & Hf1).
    split; [congruence |]. split; [congruence |]. split; [congruence |].
    split; [congruence |]. split; [| split].
    + rewrite Heff, Hf1.
      destruct (awaits event entry); simpl.
      * rewrite <- app_assoc. reflexivity.
      * rewrite app_nil_r. reflexivity.
    + intros f Hf. apply not_elem_of_cons in Hf as [Hne Hf].
      rewrite Hother by exact Hf. apply settle_entry_other. exact Hne.
    + intros entry' Hin. apply elem_of_cons in Hin as [->|Hin].
      * rewrite Hother by exact Hfresh. apply settle_entry_same.
      * rewrite Hsame by exact Hin. f_equal. apply settle_entry_other.
        intros Heq. apply Hfresh. rewrite <- Heq.
        apply list_elem_of_In, in_map, list_elem_of_In, Hin.
Qed.

Lemma dispatch_listeners_ready (event : string) (data : json) (w : World) :
  waiters_ready event data w ->
  dispatch_listeners event data w
  = (with_ws (set_dispatch_listeners
                (List.filter (fun entry => negb (entry_pruned w event data entry))
                             (_dispatch_listeners (ws w))))
             (foldl (settle_entry event data) w (_dispatch_listeners (ws w))),
     ok tt).
Proof.
  intros (Hnodup & Husable).
  unfold dispatch_listeners. rewrite bind_gets.
  unfold bind at 1.
  rewrite (dispatch_loop_spec event data w _ 0 [] w Hnodup); [| reflexivity | exact Husable].
  cbn [app].
  destruct (settled_world event data _ w Hnodup) as (_ & Hws & _).
  rewrite bind_gets, Hws.
  unfold bind at 1. unfold lift.
  pose proof (del_indices_where (entry_pruned w event data) (_dispatch_listeners (ws w))
                [] []) as Hdel.
  cbn [app length] in Hdel. rewrite !app_nil_r in Hdel.
  rewrite Hdel. reflexivity.
Qed.

Lemma filter_map_comm {A B} (P : B -> bool) (f : A -> B) (l : list A) :
  List.filter P (map f l) = map f (List.filter (fun x => P (f x)) l).
Proof.
  induction l as [|x rest IH]; simpl; [reflexivity |].
  destruct (P (f x)); simpl; rewrite IH; reflexivity.
Qed.

Lemma filter_filter_and {A} (P Q : A -> bool) (l : list A) :
  List.filter P (List.filter Q l) = List.filter (fun x => Q x && P x) l.
Proof.
  induction l as [|x rest IH]; simpl; [reflexivity |].
  destruct (Q x); simpl; [destruct (P x); simpl |]; rewrite IH; reflexivity.
Qed.

(** C2, as amended. On a dispatch of [event] with [data], the waiters
    holding distinct futures and each waiter for [event] being either
    pending (with a result function that returns) or cancelled with a
    false predicate: the dispatch returns normally; the predicates of
    the pending waiters for [event] are called in registration order; a
    pending waiter has its future finished by the dispatch exactly when
    its event is [event] and its predicate is true, with [data] or with
    its result function applied to [data]; the finished waiters leave the
    list; a waiter for another event, or one whose predicate is false and
    whose future is not cancelled, keeps its future as it was and stays in
    the list; a cancelled waiter for [event] leaves the list. *)
Theorem dispatch_resolves_matching (event : string) (data : json) (w : World) :
  waiters_ready event data w ->
  let entries := _dispatch_listeners (ws w) in
  let w' := fst (dispatch_listeners event data w) in
  snd (dispatch_listeners event data w) = ok tt
  /\ (exists called,
        effects w' = effects w ++ map PredicateCalled called
        /\ pending_among w called
           = map el_future
               (List.filter (fun entry => awaits event entry
                                          && is_pending (future_state w (el_future entry)))
                            entries))
  /\ _dispatch_listeners (ws w')
     = List.filter (fun entry => negb (entry_pruned w event data entry)) entries
  /\ (forall entry, entry ∈ entries ->
        (el_event entry = event -> el_predicate entry data = ok true ->
           exists v, entry_value data entry = ok v
                     /\ future_state w' (el_future entry) = Finished v
                     /\ entry ∉ _dispatch_listeners (ws w'))
        /\ (el_event entry <> event
            \/ (el_predicate entry data = ok false
                /\ future_state w (el_future entry) <> Cancelled) ->
              future_state w' (el_future entry) = future_state w (el_future entry)
              /\ entry ∈ _dispatch_listeners (ws w'))
        /\ (el_event entry = event -> future_state w (el_future entry) = Cancelled ->
              future_state w' (el_future entry) = Cancelled
              /\ entry ∉ _dispatch_listeners (ws w'))
        /\ (future_state w (el_future entry) = Pending ->
              (exists v, future_state w' (el_future entry) = Finished v)
              <-> (el_event entry = event /\ el_predicate entry data = ok true)))
  /\ (forall f, f ∉ map el_future entries -> future_state w' f = future_state w f).
Proof.
  intros Hready entries w'. subst entries w'.
  rewrite (dispatch_listeners_ready event data w Hready).
  destruct Hready as (Hnodup & Husable).
  destruct (settled_world event data _ w Hnodup)
    as (_ & _ & _ & _ & Heff & Hother & Hsame).
  cbn [fst snd].
  split; [reflexivity |]. split; [| split; [reflexivity | split; [| exact Hother]]].
  { exists (map el_future (List.filter (awaits event) (_dispatch_listeners (ws w)))).
    split; [exact Heff |].
    unfold pending_among. rewrite filter_map_comm, filter_filter_and. reflexivity. }
  intros entry Hin.
  assert (Hstate : forall f,
    future_state (with_ws (set_dispatch_listeners
        (List.filter (fun entry => negb (entry_pruned w event data entry))
                     (_dispatch_listeners (ws w))))
        (foldl (settle_entry event data) w (_dispatch_listeners (ws w)))) f
    = future_state (foldl (settle_entry event data) w (_dispatch_listeners (ws w))) f)
    by reflexivity.
  rewrite Hstate, (Hsame entry Hin). cbn [ws with_ws _dispatch_listeners set_dispatch_listeners].
  pose proof (Husable entry Hin) as Hentry.
  unfold entry_outcome, awaits.
  split; [| split; [| split]].
  - intros Hev Hpred.
    destruct (Hentry Hev) as [[Hp Hvalue] | [_ Hfalse]]; [| congruence].
    destruct (Hvalue Hpred) as [v Hv].
    exists v. apply String.eqb_eq in Hev. rewrite Hev, Hpred, Hv.
    split; [reflexivity |]. split; [reflexivity |].
    intros Hkept. apply list_elem_of_In, filter_In in Hkept as [_ Hkept].
    unfold entry_pruned, awaits in Hkept. rewrite Hev, Hpred, orb_true_r in Hkept.
    discriminate.
  - intros Hcase. split.
    + destruct Hcase as [Hne | [Hfalse _]].
      * apply String.eqb_neq in Hne. rewrite Hne. reflexivity.
      * rewrite Hfalse. destruct (String.eqb (el_event entry) event); reflexivity.
    + apply list_elem_of_In, filter_In. split; [apply list_elem_of_In, Hin |].
      unfold entry_pruned, awaits. destruct Hcase as [Hne | [Hfalse Hnc]].
      * apply String.eqb_neq in Hne. rewrite Hne. reflexivity.
      * rewrite Hfalse.
        destruct (future_state w (el_future entry)); try contradiction;
          rewrite andb_false_r; reflexivity.
  - intros Hev Hc.
    destruct (Hentry Hev) as [[Hp _] | [_ Hfalse]]; [congruence |].
    apply String.eqb_eq in Hev. rewrite Hev, Hfalse, Hc.
    split; [reflexivity |].
    intros Hkept. apply list_elem_of_In, filter_In in Hkept as [_ Hkept].
    unfold entry_pruned, awaits in Hkept. rewrite Hev, Hc in Hkept. discriminate.
  - intros Hp. rewrite Hp.
    destruct (String.eqb (el_event entry) event) eqn:Hev.
    + apply String.eqb_eq in Hev.
      destruct (Hentry Hev) as [[_ Hvalue] | [Hc _]]; [| congruence].
      destruct (el_predicate entry data) as [e|[|]] eqn:Hpred.
      * split; [intros [v Hv]; discriminate | intros [_ Hc]; discriminate].
      * destruct (Hvalue eq_refl) as [v Hv].
        rewrite Hv. split; [intros _; split; [exact Hev | reflexivity] | eauto].
      * split; [intros [v Hv]; discriminate | intros [_ Hc]; discriminate].
    + apply String.eqb_neq in Hev.
      split; [intros [v Hv]; discriminate | intros [Hc _]; contradiction].
Qed.

(** *** Facts: the chunk waiters of the cache *)

Lemma fail_listener_other (argument : Server) (w : World) (l : Listener) (f : nat) :
  f <> l_future l -> future_state (fail_listener argument w l) f = future_state w f.
Proof.
  intros Hf. unfold fail_listener.
  destruct (is_cancelled (future_state w (l_future l))); [reflexivity |].
  destruct (l_predicate l argument); simpl; [| reflexivity].
  unfold future_state. simpl. apply lookup_total_insert_ne. congruence.
Qed.

Lemma process_loop_scan (argument : Server) (result : json) (w0 : World)
    (before : list Listener) :
  forall (rest : list Listener) i removed w,
    NoDup (map l_future (before ++ rest)) ->
    (forall l, l ∈ before ++ rest -> future_state w (l_future l) = future_state w0 (l_future l)) ->
    (forall l, l ∈ before -> open_future (future_state w0 (l_future l))) ->
    (forall l, l ∈ before -> passes w0 argument l = false) ->
    process_loop chunk argument result (before ++ rest) i removed w
    = process_loop chunk argument result rest (i + length before)
        (removed ++ indices_where (dropped w0 argument) before i)
        (foldl (fail_listener argument) w before).
Proof.
  induction before as [|l before IH]; intros rest i removed w Hnodup Hsame Hopen Hfail.
  - simpl. rewrite app_nil_r, Nat.add_0_r. reflexivity.
  - simpl in Hnodup. apply NoDup_cons in Hnodup as [Hfresh Hnodup].
    assert (Hnext : forall w',
      (forall f, f <> l_future l -> future_state w' f = future_state w f) ->
      forall l', l' ∈ before ++ rest ->
                 future_state w' (l_future l') = future_state w0 (l_future l')).
    { intros w' Hw' l' Hin. rewrite Hw'.
      - apply Hsame. right. exact Hin.
      - intros Heq. apply Hfresh. rewrite <- Heq.
        apply list_elem_of_In, in_map, list_elem_of_In, Hin. }
    pose proof (Hsame l ltac:(left)) as Hl.
    pose proof (Hopen l ltac:(left)) as Hol.
    pose proof (Hfail l ltac:(left)) as Hfl.
    assert (Hopen' : forall l', l' ∈ before -> open_future (future_state w0 (l_future l'))).
    { intros l' Hin. apply Hopen. right. exact Hin. }
    assert (Hfail' : forall l', l' ∈ before -> passes w0 argument l' = false).
    { intros l' Hin. apply Hfail. right. exact Hin. }
    replace (i + length (l :: before))%nat with (S i + length before)%nat by (simpl; lia).
    cbn [app process_loop foldl indices_where].
    destruct (l_type l). cbn [ListenerType_eqb negb].
    rewrite bind_future_cancelled.
    unfold fail_listener at 2. unfold dropped at 1. unfold passes in Hfl.
    rewrite Hl. destruct Hol as [Hp | Hc].
    + rewrite Hp in *. cbn [is_cancelled negb andb orb] in *.
      rewrite bind_modify.
      destruct (l_predicate l argument) as [e|[|]] eqn:Hpred; try discriminate.
      * rewrite bind_set_exception by exact Hl.
        rewrite IH; [rewrite <- app_assoc; reflexivity | exact Hnodup | | exact Hopen' | exact Hfail'].
        apply Hnext. intros f Hf. unfold future_state. simpl.
        apply lookup_total_insert_ne. congruence.
      * rewrite IH; [reflexivity | exact Hnodup | | exact Hopen' | exact Hfail'].
        apply Hnext. intros f Hf. reflexivity.
    + rewrite Hc in *. cbn [is_cancelled negb andb orb] in *.
      rewrite IH; [rewrite <- app_assoc; reflexivity | exact Hnodup | | exact Hopen' | exact Hfail'].
      apply Hnext. intros f Hf. reflexivity.
Qed.

Lemma fail_listener_frame (argument : Server) (w : World) (l : Listener) :
  let w' := fail_listener argument w l in
  conn w' = conn w /\ ws w' = ws w
  /\ effects w'
     = effects w ++ (if not_cancelled w l then [PredicateCalled (l_future l)] else [])
  /\ (forall f v, future_state w' f = Finished v -> future_state w f = Finished v).
Proof.
  unfold fail_listener, not_cancelled.
  destruct (is_cancelled (future_state w (l_future l))); simpl.
  - rewrite app_nil_r. repeat split; auto.
  - destruct (l_predicate l argument) as [e|b]; simpl; repeat split; auto.
    intros f v. unfold future_state. simpl.
    destruct (decide (f = l_future l)) as [->|Hne].
    + rewrite lookup_total_insert_eq. discriminate.
    + rewrite lookup_total_insert_ne by congruence. auto.
Qed.

Lemma failed_world (argument : Server) (before : list Listener) :
  forall w,
    NoDup (map l_future before) ->
    let w' := foldl (fail_listener argument) w before in
    conn w' = conn w /\ ws w' = ws w
    /\ effects w'
       = effects w ++ map PredicateCalled (map l_future (List.filter (not_cancelled w) before))
    /\ (forall f, f ∉ map l_future before -> future_state w' f = future_state w f)
    /\ (forall f v, future_state w' f = Finished v -> future_state w f = Finished v).
Proof.
  induction before as [|l before IH]; intros w Hnodup; simpl.
  - rewrite app_nil_r. repeat split; auto.
  - apply NoDup_cons in Hnodup as [Hfresh Hnodup].
    destruct (IH (fail_listener argument w l) Hnodup) as (Hconn & Hws & Heff & Hother & Hfin).
    destruct (fail_listener_frame argument w l) as (Hc1 & Hw1 & He1 & Hf1).
    split; [congruence |]. split; [congruence |]. split; [| split].
    + rewrite Heff, He1.
      assert (Hsame : List.filter (not_cancelled (fail_listener argument w l)) before
                      = List.filter (not_cancelled w) before).
      { apply filter_ext_in. intros l' Hin. unfold not_cancelled.
        rewrite fail_listener_other; [reflexivity |].
        intros Heq. apply Hfresh. rewrite <- Heq.
        apply list_elem_of_In, in_map, Hin. }
      rewrite Hsame. destruct (not_cancelled w l); simpl.
      * rewrite <- app_assoc. reflexivity.
      * rewrite app_nil_r. reflexivity.
    + intros f Hf. apply not_elem_of_cons in Hf as [Hne Hf].
      rewrite Hother by exact Hf. apply fail_listener_other. exact Hne.
    + intros f v Hv. apply Hf1, Hfin, Hv.
Qed.

Lemma process_listeners_hit (argument : Server) (result : json) (w : World)
    (before : list Listener) (hit : Listener) (after : list Listener) :
  listeners_ready w ->
  _listeners (conn w) = before ++ hit :: after ->
  (forall l, l ∈ before -> passes w argument l = false) ->
  passes w argument hit = true ->
  process_listeners chunk argument result w
  = (with_conn (set_listeners
                  (List.filter (fun l => negb (dropped w argument l)) before ++ after))
               (finish_listener result (foldl (fail_listener argument) w before) hit),
     ok tt).
Proof.
  intros [Hnodup Hopen] Hls Hfail Hpass.
  rewrite Hls in Hnodup, Hopen.
  assert (Hnodup_before : NoDup (map l_future before)).
  { rewrite map_app in Hnodup. apply NoDup_app in Hnodup as [H _]. exact H. }
  destruct (failed_world argument before w Hnodup_before)
    as (Hconn & _ & _ & Hother & _).
  assert (Hhit_fresh : l_future hit ∉ map l_future before).
  { rewrite map_app in Hnodup. apply NoDup_app in Hnodup as (_ & Hdisj & _).
    intros Hin. apply (Hdisj _ Hin). simpl. left. }
  unfold process_listeners. rewrite bind_gets, Hls.
  unfold bind at 1.
  rewrite (process_loop_scan argument result w before (hit :: after) 0 [] w Hnodup);
    [| reflexivity | intros l Hin; apply Hopen, elem_of_app; left; exact Hin | exact Hfail].
  cbn [process_loop app Nat.add].
  destruct (l_type hit) eqn:Htype. cbn [ListenerType_eqb negb].
  rewrite bind_future_cancelled.
  unfold passes in Hpass. apply andb_true_iff in Hpass as [Hnc Hpred].
  rewrite (Hother _ Hhit_fresh).
  destruct (is_cancelled (future_state w (l_future hit))) eqn:Hc; [discriminate |].
  rewrite bind_modify.
  destruct (l_predicate hit argument) as [e|[|]]; try discriminate.
  assert (Hpending : future_state w (l_future hit) = Pending).
  { destruct (Hopen hit) as [Hp|Hp]; [apply elem_of_app; right; left | exact Hp |].
    rewrite Hp in Hc. discriminate. }
  rewrite bind_set_result.
  2:{ change (future_state (foldl (fail_listener argument) w before) (l_future hit) = Pending).
      rewrite (Hother _ Hhit_fresh). exact Hpending. }
  cbn [ret fst snd].
  rewrite bind_gets. cbn [conn with_futures emit]. rewrite Hconn, Hls.
  unfold bind at 1. unfold lift.
  rewrite rev_app_distr. cbn [rev app del_indices].
  rewrite delete_middle. cbn [rbind].
  pose proof (del_indices_where (dropped w argument) before [] after) as Hdel.
  cbn [app length] in Hdel.
  rewrite Hdel. reflexivity.
Qed.

Lemma process_listeners_miss (argument : Server) (result : json) (w : World) :
  listeners_ready w ->
  (forall l, l ∈ _listeners (conn w) -> passes w argument l = false) ->
  process_listeners chunk argument result w
  = (with_conn (set_listeners
                  (List.filter (fun l => negb (dropped w argument l)) (_listeners (conn w))))
               (foldl (fail_listener argument) w (_listeners (conn w))),
     ok tt).
Proof.
  intros [Hnodup Hopen] Hfail.
  destruct (failed_world argument _ w Hnodup) as (Hconn & _).
  unfold process_listeners. rewrite bind_gets.
  unfold bind at 1.
  pose proof (process_loop_scan argument result w (_listeners (conn w)) [] 0 [] w) as Hscan.
  rewrite app_nil_r in Hscan. rewrite Hscan; [| exact Hnodup | reflexivity | exact Hopen | exact Hfail].
  cbn [process_loop ret fst snd app].
  rewrite bind_gets, Hconn.
  unfold bind at 1. unfold lift.
  pose proof (del_indices_where (dropped w argument) (_listeners (conn w)) [] []) as Hdel.
  cbn [app length] in Hdel. rewrite !app_nil_r in Hdel. rewrite Hdel. reflexivity.
Qed.

Lemma first_true_split {A} (P : A -> bool) (l : list A) :
  (forall x, x ∈ l -> P x = false)
  \/ exists before hit after,
       l = before ++ hit :: after
       /\ (forall x, x ∈ before -> P x = false)
       /\ P hit = true.
Proof.
  induction l as [|x rest IH].
  - left. intros x Hx. inversion Hx.
  - destruct (P x) eqn:Hx.
    + right. exists [], x, rest. split; [reflexivity |]. split; [| exact Hx].
      intros y Hy. inversion Hy.
    + destruct IH as [Hall | (before & hit & after & -> & Hbefore & Hhit)].
      * left. intros y Hy. apply elem_of_cons in Hy as [->|Hy]; auto.
      * right. exists (x :: before), hit, after. split; [reflexivity |].
        split; [| exact Hhit].
        intros y Hy. apply elem_of_cons in Hy as [->|Hy]; auto.
Qed.

Lemma finish_listener_state (result : json) (w : World) (l : Listener) (f : nat) :
  future_state (finish_listener result w l) f
  = if decide (f = l_future l) then Finished result else future_state w f.
Proof.
  unfold finish_listener, future_state. simpl.
  destruct (decide (f = l_future l)) as [->|Hne].
  - apply lookup_total_insert_eq.
  - apply lookup_total_insert_ne. congruence.
Qed.

(** C10. One call of [process_listeners] for the chunk type, on
    listeners that are well kept (distinct futures, each pending or
    cancelled), sets a result on at most one future. The scan stops at the
    first listener that is not cancelled and whose predicate is true: it
    gets the result and leaves the list, the cancelled ones before it and
    those whose predicate raised leave too, the predicates of those after
    it are not called and they stay as they were. So of several pending
    waiters of one server, whose predicates are all true on the server of
    a chunk, the chunk resolves the first; the others stay pending and
    registered for the chunks to come. *)
Theorem chunk_signal_resolves_one (argument : Server) (result : json) (w : World) :
  listeners_ready w ->
  let ls := _listeners (conn w) in
  let w' := fst (process_listeners chunk argument result w) in
  snd (process_listeners chunk argument result w) = ok tt
  /\ (forall f g, newly_finished w w' f -> newly_finished w w' g -> f = g)
  /\ (forall before hit after,
        ls = before ++ hit :: after ->
        (forall l, l ∈ before -> passes w argument l = false) ->
        passes w argument hit = true ->
        future_state w' (l_future hit) = Finished result
        /\ _listeners (conn w')
           = List.filter (fun l => negb (dropped w argument l)) before ++ after
        /\ (forall l, l ∈ after -> future_state w' (l_future l) = future_state w (l_future l))
        /\ effects w'
           = effects w
             ++ map PredicateCalled
                  (map l_future (List.filter (not_cancelled w) before) ++ [l_future hit]))
  /\ (forall before waiter others after,
        ls = before ++ waiter :: others ++ after ->
        (forall l, l ∈ before -> passes w argument l = false) ->
        (forall l, l ∈ waiter :: others ->
                   future_state w (l_future l) = Pending
                   /\ l_predicate l argument = ok true) ->
        future_state w' (l_future waiter) = Finished result
        /\ (l_future waiter ∉ map l_future (_listeners (conn w')))
        /\ (forall l, l ∈ others ->
              future_state w' (l_future l) = Pending
              /\ l ∈ _listeners (conn w'))).
Proof.
  intros Hready ls w'. subst ls w'.
  pose proof Hready as [Hnodup Hopen].
  assert (Hhit : forall before hit after,
    _listeners (conn w) = before ++ hit :: after ->
    (forall l, l ∈ before -> passes w argument l = false) ->
    passes w argument hit = true ->
    let w' := fst (process_listeners chunk argument result w) in
    snd (process_listeners chunk argument result w) = ok tt
    /\ future_state w' (l_future hit) = Finished result
    /\ _listeners (conn w')
       = List.filter (fun l => negb (dropped w argument l)) before ++ after
    /\ (forall f, f ∉ map l_future (before ++ [hit]) -> future_state w' f = future_state w f)
    /\ (forall f v, future_state w' f = Finished v ->
                    f = l_future hit \/ future_state w f = Finished v)
    /\ effects w'
       = effects w
         ++ map PredicateCalled
              (map l_future (List.filter (not_cancelled w) before) ++ [l_future hit])).
  { intros before hit after Hls Hfail Hpass.
    rewrite (process_listeners_hit argument result w before hit after Hready Hls Hfail Hpass).
    cbn [fst snd].
    assert (Hnodup_before : NoDup (map l_future before)).
    { rewrite Hls, map_app in Hnodup. apply NoDup_app in Hnodup as [H _]. exact H. }
    destruct (failed_world argument before w Hnodup_before)
      as (_ & _ & Heff & Hother & Hfin).
    split; [reflexivity |].
    assert (Hstate : forall f,
      future_state (with_conn (set_listeners
          (List.filter (fun l => negb (dropped w argument l)) before ++ after))
          (finish_listener result (foldl (fail_listener argument) w before) hit)) f
      = if decide (f = l_future hit) then Finished result
        else future_state (foldl (fail_listener argument) w before) f).
    { intros f. rewrite <- finish_listener_state. reflexivity. }
    split; [| split; [reflexivity | split; [| split]]].
    - rewrite Hstate. rewrite decide_True by reflexivity. reflexivity.
    - intros f Hf. rewrite Hstate. rewrite map_app in Hf.
      apply not_elem_of_app in Hf as [Hf1 Hf2].
      rewrite decide_False by (intros ->; apply Hf2; left).
      apply Hother, Hf1.
    - intros f v. rewrite Hstate. destruct (decide (f = l_future hit)); [left; assumption |].
      intros Hv. right. apply Hfin, Hv.
    - cbn [effects with_conn finish_listener with_futures emit].
      rewrite Heff, map_app, <- app_assoc. reflexivity. }
  assert (Hafter : forall before hit after l,
    _listeners (conn w) = before ++ hit :: after -> l ∈ after ->
    l_future l ∉ map l_future (before ++ [hit])).
  { intros before hit after l Hls Hin Hmem.
    rewrite Hls in Hnodup.
    replace (before ++ hit :: after) with ((before ++ [hit]) ++ after) in Hnodup
      by (rewrite <- app_assoc; reflexivity).
    rewrite map_app in Hnodup. apply NoDup_app in Hnodup as (_ & Hdisj & _).
    apply (Hdisj _ Hmem). apply list_elem_of_In, in_map, list_elem_of_In, Hin. }
  split; [| split; [| split]].
  - destruct (first_true_split (passes w argument) (_listeners (conn w)))
      as [Hall | (before & hit & after & Hls & Hfail & Hpass)].
    + rewrite (process_listeners_miss argument result w Hready Hall). reflexivity.
    + apply (Hhit before hit after Hls Hfail Hpass).
  - intros f g [Hf1 Hf0] [Hg1 Hg0].
    destruct (first_true_split (passes w argument) (_listeners (conn w)))
      as [Hall | (before & hit & after & Hls & Hfail & Hpass)].
    + rewrite (process_listeners_miss argument result w Hready Hall) in Hf1.
      cbn [fst] in Hf1.
      destruct (failed_world argument _ w Hnodup) as (_ & _ & _ & _ & Hfin).
      change (finished (future_state (foldl (fail_listener argument) w (_listeners (conn w))) f)
              = true) in Hf1.
      destruct (future_state (foldl (fail_listener argument) w (_listeners (conn w))) f)
        eqn:Hs; try discriminate.
      apply Hfin in Hs. rewrite Hs in Hf0. discriminate.
    + destruct (Hhit before hit after Hls Hfail Hpass) as (_ & _ & _ & _ & Hfin & _).
      assert (Hone : forall h,
        finished (future_state (fst (process_listeners chunk argument result w)) h) = true ->
        finished (future_state w h) = false -> h = l_future hit).
      { intros h H1 H0.
        destruct (future_state (fst (process_listeners chunk argument result w)) h)
          eqn:Hs; try discriminate.
        destruct (Hfin h _ Hs) as [-> | Hold]; [reflexivity |].
        rewrite Hold in H0. discriminate. }
      rewrite (Hone f Hf1 Hf0), (Hone g Hg1 Hg0). reflexivity.
  - intros before hit after Hls Hfail Hpass.
    destruct (Hhit before hit after Hls Hfail Hpass) as (_ & Hres & Hkept & Hother & _ & Heff).
    split; [exact Hres |]. split; [exact Hkept |]. split; [| exact Heff].
    intros l Hin. apply Hother. apply (Hafter before hit after l Hls Hin).
  - intros before waiter others after Hls Hfail Hwaiters.
    assert (Hpass : passes w argument waiter = true).
    { destruct (Hwaiters waiter ltac:(left)) as [Hp Hpred].
      unfold passes. rewrite Hp, Hpred. reflexivity. }
    destruct (Hhit before waiter (others ++ after) Hls Hfail Hpass)
      as (_ & Hres & Hkept & Hother & _ & _).
    split; [exact Hres |]. split.
    + rewrite Hkept. intros Hmem.
      rewrite Hls in Hnodup.
      apply list_elem_of_In, in_map_iff in Hmem as (l & Heq & Hin).
      apply in_app_iff in Hin as [Hin | Hin].
      * apply filter_In in Hin as [Hin _].
        rewrite map_app in Hnodup. apply NoDup_app in Hnodup as (_ & Hdisj & _).
        apply (Hdisj (l_future l)).
        { apply list_elem_of_In, in_map, Hin. }
        { rewrite Heq. simpl. left. }
      * rewrite map_app in Hnodup. apply NoDup_app in Hnodup as (_ & _ & Hnd).
        simpl in Hnd. apply NoDup_cons in Hnd as [Hfresh _].
        apply Hfresh. rewrite <- Heq. apply list_elem_of_In, in_map, Hin.
    + intros l Hin. split.
      * rewrite Hother.
        { apply (Hwaiters l). right. exact Hin. }
        apply (Hafter before waiter (others ++ after) l Hls).
        apply elem_of_app. left. exact Hin.
      * rewrite Hkept. apply elem_of_app. right. apply elem_of_app. left. exact Hin.
Qed.

(** *** Facts: a cancelled waiter of the socket *)

(** The loop of [received_message] has no [continue] after it notes a
    cancelled future: the predicate is called all the same, and when it
    is true [set_result] raises on the cancelled future, before anything
    is removed and before the waiters that follow are looked at. *)
Lemma cancelled_waiter_raises (event : string) (data : json) (w : World)
    (entry : EventListener) (rest : list EventListener) (v : json) :
  _dispatch_listeners (ws w) = entry :: rest ->
  el_event entry = event ->
  future_state w (el_future entry) = Cancelled ->
  el_predicate entry data = ok true ->
  entry_value data entry = ok v ->
  dispatch_listeners event data w
  = (emit (PredicateCalled (el_future entry)) w, throw InvalidStateError).
Proof.
  intros Hls Hev Hc Hpred Hv.
  unfold dispatch_listeners. rewrite bind_gets, Hls.
  unfold bind at 1. cbn [dispatch_loop].
  apply String.eqb_eq in Hev. rewrite Hev. cbn [negb].
  rewrite bind_future_cancelled, Hc. cbn [is_cancelled].
  rewrite bind_modify, Hpred.
  unfold entry_value in Hv. rewrite Hv, bind_lift_ok.
  rewrite bind_set_result_done; [reflexivity |].
  change (future_state w (el_future entry) <> Pending). rewrite Hc. discriminate.
Qed.

(** *** Facts: the ready-settle and its member chunks *)

Lemma receive_chunk_eq (guild_id : json) (w : World) :
  receive_chunk guild_id w = (chunk_registered guild_id w, ok (next_future w)).
Proof. reflexivity. Qed.



















(** *** Facts: the invariants of the two registries *)

(** [receive_chunk] keeps the listeners well kept. *)
Lemma receive_chunk_wf (guild_id : json) (w : World) :
  listeners_wf w -> listeners_wf (fst (receive_chunk guild_id w)).
Proof.
  intros [[Hnodup Hopen] Hbound]. rewrite receive_chunk_eq. cbn [fst].
  unfold listeners_wf, listeners_ready, chunk_registered.
  cbn [conn with_conn _listeners set_listeners next_future].
  split; [split |].
  - rewrite map_app. apply NoDup_app. split; [exact Hnodup |]. split.
    + intros f Hf Hin. simpl in Hin. apply list_elem_of_singleton in Hin. subst f.
      apply list_elem_of_In, in_map_iff in Hf as (l & Heq & Hl).
      apply list_elem_of_In, Hbound in Hl. simpl in Heq. lia.
    + simpl. apply NoDup_singleton.
  - intros l Hin. apply elem_of_app in Hin as [Hin | Hin].
    + unfold future_state. simpl.
      rewrite lookup_total_insert_ne by (apply Hbound in Hin; lia).
      apply Hopen, Hin.
    + apply list_elem_of_singleton in Hin. subst l. left.
      unfold future_state. simpl. apply lookup_total_insert_eq.
  - intros l Hin. apply elem_of_app in Hin as [Hin | Hin].
    + apply Hbound in Hin. lia.
    + apply list_elem_of_singleton in Hin. subst l. simpl. lia.
Qed.

(** Cancelling a handle keeps the listeners well kept. *)
Lemma cancel_wf (f : nat) (w : World) : listeners_wf w -> listeners_wf (cancel f w).
Proof.
  intros [[Hnodup Hopen] Hbound]. unfold cancel.
  destruct (future_state w f) eqn:Hf; try (split; [split |]; assumption).
  split; [split |]; try assumption.
  intros l Hin. unfold future_state. simpl.
  destruct (decide (l_future l = f)) as [->|Hne].
  - rewrite lookup_total_insert_eq. right. reflexivity.
  - rewrite lookup_total_insert_ne by congruence. apply Hopen, Hin.
Qed.

(** [wait_for] appends a waiter with a new, pending future. *)
Lemma wait_for_registers (event : string) (predicate : json -> result bool)
    (transform : option (json -> result json)) (w : World) :
  let w' := fst (wait_for event predicate transform w) in
  snd (wait_for event predicate transform w) = ok (next_future w)
  /\ _dispatch_listeners (ws w')
     = _dispatch_listeners (ws w)
       ++ [mkEventListener predicate event transform (next_future w)]
  /\ future_state w' (next_future w) = Pending
  /\ next_future w' = S (next_future w)
  /\ (forall f, f <> next_future w -> future_state w' f = future_state w f).
Proof.
  unfold wait_for, new_future, future_state. cbn.
  split; [reflexivity |]. split; [reflexivity |].
  split; [apply lookup_total_insert_eq |]. split; [reflexivity |].
  intros f Hf. apply lookup_total_insert_ne. congruence.
Qed.

Lemma NoDup_map_filter {A B} (f : A -> B) (P : A -> bool) (l : list A) :
  NoDup (map f l) -> NoDup (map f (List.filter P l)).
Proof.
  induction l as [|x rest IH]; intros Hnd; simpl; [constructor |].
  apply NoDup_cons in Hnd as [Hfresh Hnd].
  destruct (P x); simpl; [| apply IH, Hnd].
  apply NoDup_cons. split; [| apply IH, Hnd].
  intros Hin. apply Hfresh.
  apply list_elem_of_In, in_map_iff in Hin as (y & Heq & Hy).
  apply filter_In in Hy as [Hy _].
  rewrite <- Heq. apply list_elem_of_In, in_map, Hy.
Qed.

(** A listener that the scan goes past and keeps has its future as it
    was. *)
Lemma failed_world_kept (argument : Server) (before : list Listener) :
  forall w,
    NoDup (map l_future before) ->
    next_future (foldl (fail_listener argument) w before) = next_future w
    /\ (forall l, l ∈ before -> dropped w argument l = false ->
          future_state (foldl (fail_listener argument) w before) (l_future l)
          = future_state w (l_future l)).
Proof.
  induction before as [|x rest IH]; intros w Hnodup; simpl.
  - split; [reflexivity |]. intros l Hin. inversion Hin.
  - apply NoDup_cons in Hnodup as [Hfresh Hnodup].
    destruct (IH (fail_listener argument w x) Hnodup) as [Hnext Hkept].
    assert (Hother : forall l, l ∈ rest ->
      future_state (fail_listener argument w x) (l_future l) = future_state w (l_future l)).
    { intros l Hin. apply fail_listener_other. intros Heq. apply Hfresh.
      rewrite <- Heq. apply list_elem_of_In, in_map, list_elem_of_In, Hin. }
    split.
    + rewrite Hnext. unfold fail_listener.
      destruct (is_cancelled (future_state w (l_future x))); [reflexivity |].
      destruct (l_predicate x argument); reflexivity.
    + intros l Hin Hdrop. apply elem_of_cons in Hin as [->|Hin].
      * destruct (failed_world argument rest (fail_listener argument w x) Hnodup)
          as (_ & _ & _ & Hout & _).
        rewrite (Hout _ Hfresh).
        unfold dropped in Hdrop. apply orb_false_iff in Hdrop as [Hc Hpred].
        unfold fail_listener. rewrite Hc.
        destruct (l_predicate x argument); [discriminate | reflexivity].
      * rewrite Hkept; [apply Hother, Hin | exact Hin |].
        unfold dropped in *. rewrite (Hother l Hin). exact Hdrop.
Qed.

(** [process_listeners] keeps the listeners well kept. *)
Lemma process_listeners_wf (argument : Server) (result : json) (w : World) :
  listeners_wf w ->
  listeners_wf (fst (process_listeners chunk argument result w)).
Proof.
  intros [Hready Hbound]. pose proof Hready as [Hnodup Hopen].
  destruct (first_true_split (passes w argument) (_listeners (conn w)))
    as [Hall | (before & hit & after & Hls & Hfail & Hpass)].
  - rewrite (process_listeners_miss argument result w Hready Hall). cbn [fst].
    destruct (failed_world_kept argument _ w Hnodup) as [Hnext Hkept].
    unfold listeners_wf, listeners_ready.
    cbn [conn with_conn _listeners set_listeners next_future].
    split; [split |].
    + apply NoDup_map_filter, Hnodup.
    + intros l Hin. apply list_elem_of_In, filter_In in Hin as [Hin Hkeep].
      apply negb_true_iff in Hkeep.
      change (open_future (future_state (foldl (fail_listener argument) w (_listeners (conn w)))
                             (l_future l))).
      rewrite Hkept; [apply Hopen | | exact Hkeep]; apply list_elem_of_In, Hin.
    + intros l Hin. apply list_elem_of_In, filter_In in Hin as [Hin _].
      change (l_future l < next_future (foldl (fail_listener argument) w (_listeners (conn w))))%nat.
      rewrite Hnext. apply Hbound, list_elem_of_In, Hin.
  - rewrite (process_listeners_hit argument result w before hit after Hready Hls Hfail Hpass).
    cbn [fst]. rewrite Hls in Hnodup, Hopen, Hbound.
    assert (Hnd_before : NoDup (map l_future before)).
    { rewrite map_app in Hnodup. apply NoDup_app in Hnodup as [H _]. exact H. }
    destruct (failed_world_kept argument before w Hnd_before) as [Hnext Hkept].
    destruct (failed_world argument before w Hnd_before) as (_ & _ & _ & Hout & _).
    assert (Hstate : forall f,
      future_state (with_conn (set_listeners
          (List.filter (fun l => negb (dropped w argument l)) before ++ after))
          (finish_listener result (foldl (fail_listener argument) w before) hit)) f
      = if decide (f = l_future hit) then Finished result
        else future_state (foldl (fail_listener argument) w before) f).
    { intros f. rewrite <- finish_listener_state. reflexivity. }
    rewrite map_app in Hnodup. simpl in Hnodup.
    apply NoDup_app in Hnodup as (_ & Hdisj & Hnd_tail).
    apply NoDup_cons in Hnd_tail as [Hhit_after Hnd_after].
    unfold listeners_wf, listeners_ready.
    cbn [conn with_conn _listeners set_listeners].
    split; [split |].
    + rewrite map_app. apply NoDup_app. split; [apply NoDup_map_filter, Hnd_before |].
      split; [| exact Hnd_after].
      intros f Hf Hin. apply (Hdisj f).
      * apply list_elem_of_In, in_map_iff in Hf as (l & Heq & Hl).
        apply filter_In in Hl as [Hl _]. rewrite <- Heq.
        apply list_elem_of_In, in_map, Hl.
      * right. exact Hin.
    + intros l Hin. rewrite Hstate.
      apply elem_of_app in Hin as [Hin | Hin].
      * apply list_elem_of_In, filter_In in Hin as [Hin Hkeep].
        apply negb_true_iff in Hkeep.
        rewrite decide_False.
        2:{ intros Heq. apply (Hdisj (l_future l)).
            - apply list_elem_of_In, in_map, Hin.
            - rewrite Heq. left. }
        rewrite Hkept; [| apply list_elem_of_In, Hin | exact Hkeep].
        apply Hopen, elem_of_app. left. apply list_elem_of_In, Hin.
      * rewrite decide_False.
        2:{ intros Heq. apply Hhit_after. rewrite <- Heq.
            apply list_elem_of_In, in_map, list_elem_of_In, Hin. }
        rewrite Hout.
        2:{ intros Hmem. apply (Hdisj _ Hmem). right.
            apply list_elem_of_In, in_map, list_elem_of_In, Hin. }
        apply Hopen, elem_of_app. right. right. exact Hin.
    + intros l Hin.
      change (l_future l < next_future (foldl (fail_listener argument) w before))%nat.
      rewrite Hnext. apply Hbound.
      apply elem_of_app in Hin as [Hin | Hin].
      * apply list_elem_of_In, filter_In in Hin as [Hin _].
        apply elem_of_app. left. apply list_elem_of_In, Hin.
      * apply elem_of_app. right. right. exact Hin.
Qed.

(** *** Facts: opcodes other than DISPATCH, and frames that are not well formed *)

Lemma before_tests_frame (fields : list (string * json)) (w : World) :
  ws (before_tests fields w) = ws w
  /\ futures (before_tests fields w) = futures w
  /\ events (before_tests fields w) = events w
  /\ tasks (before_tests fields w) = tasks w
  /\ effects (before_tests fields w)
     = effects w ++ [Dispatch "socket_raw_receive" [ArgJson (JDict fields)];
                     Dispatch "socket_response" [ArgJson (JDict fields)]]
  /\ conn (before_tests fields w)
     = match assoc "s" fields with
       | Some s => set_sequence s (conn w)
       | None => conn w
       end.
Proof.
  unfold before_tests.
  destruct (assoc "s" fields); cbn; rewrite <- app_assoc; repeat split; reflexivity.
Qed.

(** A frame whose opcode is neither DISPATCH nor INVALIDATE_SESSION
    reaches no handler and no waiter: the cache (the sequence stored from
    the frame apart), the waiters of the socket, every future, event and
    task are as before. On RECONNECT the keep-alive is stopped, the
    socket is closed and the reconnect request is raised; any other
    opcode, a missing one included, is logged as unhandled and the call
    returns. *)
Theorem other_opcode_frames (fields : list (string * json)) (w : World) :
  let op := default JNull (assoc "op" fields) in
  let w0 := before_tests fields w in
  let w' := fst (received_message (JDict fields) w) in
  py_eq_int op DISPATCH = false ->
  py_eq_int op INVALIDATE_SESSION = false ->
  conn w' = conn w0
  /\ _dispatch_listeners (ws w') = _dispatch_listeners (ws w)
  /\ futures w' = futures w
  /\ events w' = events w
  /\ tasks w' = tasks w
  /\ (py_eq_int op RECONNECT = true ->
        snd (received_message (JDict fields) w) = throw ReconnectWebSocket
        /\ _keep_alive (ws w')
           = (fun k => mkKeepAlive (interval_ms k) true) <$> _keep_alive (ws w)
        /\ effects w' = effects w0 ++ [Logged "Receivede RECONNECT opcode."; SocketClosed])
  /\ (py_eq_int op RECONNECT = false ->
        snd (received_message (JDict fields) w) = ok tt
        /\ ws w' = ws w
        /\ effects w' = effects w0 ++ [Logged "Unhandled op"]).
Proof.
  intros op w0 w' Hd Hi. subst w'. rewrite received_message_tests.
  fold op. fold w0.
  destruct (before_tests_frame fields w) as (Hws & Hfut & Hev & Htasks & _).
  fold w0 in Hws, Hfut, Hev, Htasks.
  unfold handle_op. rewrite Hi, Hd. cbn [negb].
  destruct (py_eq_int op RECONNECT) eqn:Hr.
  - unfold close, log_info, bind, modify, raise. cbn.
    rewrite Hws, Hfut, Hev, Htasks.
    split; [reflexivity |]. split.
    { destruct (_keep_alive (ws w)); reflexivity. }
    split; [reflexivity |]. split; [reflexivity |]. split; [reflexivity |].
    split; [| discriminate].
    intros _. split; [reflexivity |]. split.
    + destruct (_keep_alive (ws w)) eqn:E; cbn; rewrite ?E; reflexivity.
    + rewrite <- app_assoc. reflexivity.
  - unfold log_info, modify. cbn.
    rewrite Hws, Hfut, Hev, Htasks.
    split; [reflexivity |]. split; [reflexivity |]. split; [reflexivity |].
    split; [reflexivity |]. split; [reflexivity |]. split; [discriminate |].
    intros _. repeat split; reflexivity.
Qed.

Lemma py_item_not_dict (x : json) (k : string) :
  (forall fields, x <> JDict fields) -> py_item x k = throw TypeError.
Proof. intros H. destruct x; try reflexivity. exfalso. apply (H fields). reflexivity. Qed.

(** A frame that is not an object raises [AttributeError] at
    [msg.get('op')], after the two raw socket notifications and before
    anything is stored; a DISPATCH frame whose event name is missing or is
    not a string raises [AttributeError] at [event.lower()], after the
    sequence of the frame is stored, and neither a handler nor a waiter
    runs. *)
Theorem frames_without_shape :
  (forall (msg : json) (w : World),
      (forall fields, msg <> JDict fields) ->
      received_message msg w
      = (emit (Dispatch "socket_response" [ArgJson msg])
           (emit (Dispatch "socket_raw_receive" [ArgJson msg]) w),
         throw AttributeError))
  /\ (forall (fields : list (string * json)) (w : World),
      assoc "op" fields = Some (JInt DISPATCH) ->
      (forall name, assoc "t" fields <> Some (JStr name)) ->
      received_message (JDict fields) w = (before_tests fields w, throw AttributeError)).
Proof.
  split.
  - intros msg w Hshape.
    destruct msg; try reflexivity. exfalso. apply (Hshape fields). reflexivity.
  - intros fields w Hop Ht. rewrite received_message_dispatch by exact Hop.
    unfold handle_dispatch. unfold bind at 1. unfold lift, py_get.
    destruct (assoc "t" fields) as [[| | |name| |]|] eqn:E; try reflexivity.
    exfalso. apply (Ht name). reflexivity.
Qed.

(** A READY frame that lacks the sequence, the session id or a numeric
    heartbeat interval raises ([KeyError] for a missing key, [TypeError]
    when the payload is not an object or the interval not a number) after
    [clear()] has run: the client is left with an empty cache, no
    keep-alive is started, [parse_ready] does not run and no waiter is
    looked at. *)
Theorem incomplete_ready_wipes_cache (fields : list (string * json)) (w : World) :
  assoc "op" fields = Some (JInt DISPATCH) ->
  assoc "t" fields = Some (JStr "READY") ->
  ready_complete fields = false ->
  let w' := fst (received_message (JDict fields) w) in
  (exists e, snd (received_message (JDict fields) w) = throw e
             /\ (e = TypeError \/ exists key, e = KeyError key))
  /\ user (conn w') = None
  /\ _servers (conn w') = []
  /\ _voice_clients (conn w') = []
  /\ _private_channels (conn w') = []
  /\ _private_channels_by_user (conn w') = []
  /\ messages (conn w') = mkDeque (max_messages (conn w)) []
  /\ _ready_state (conn w') = _ready_state (conn w)
  /\ ws w' = ws w
  /\ futures w' = futures w
  /\ tasks w' = tasks w
  /\ effects w' = effects (before_tests fields w).
Proof.
  intros Hop Ht Hbad w'. subst w'.
  rewrite received_message_dispatch by exact Hop.
  rewrite handle_dispatch_ready by exact Ht.
  destruct (before_tests_frame fields w) as (Hws & Hfut & _ & Htasks & _ & Hconn).
  assert (Hcap : max_messages (conn (before_tests fields w)) = max_messages (conn w)).
  { rewrite Hconn. destruct (assoc "s" fields); reflexivity. }
  assert (Hrs : _ready_state (conn (before_tests fields w)) = _ready_state (conn w)).
  { rewrite Hconn. destruct (assoc "s" fields); reflexivity. }
  revert Hws Hfut Htasks Hcap Hrs. generalize (before_tests fields w) as w0.
  intros w0 Hws Hfut Htasks Hcap Hrs.
  unfold ready_complete in Hbad.
  unfold ready_reset, start_keep_alive, clear, bind, modify, lift. cbn [fst snd].
  cbn [py_item].
  destruct (assoc "s" fields) as [s|] eqn:Hs; cbn [fst snd].
  2:{ split; [exists (KeyError "s"); split; [reflexivity | right; eauto] |].
      cbn. rewrite Hcap. repeat split; assumption || reflexivity. }
  assert (Hin : bool_decide (is_Some (Some s)) = true) by (apply bool_decide_eq_true; eauto).
  rewrite Hin in Hbad. cbn [andb] in Hbad.
  destruct (py_item (default JNull (assoc "d" fields)) "session_id") as [e|sid] eqn:Hsid.
  { split; [| cbn; rewrite Hcap; repeat split; assumption || reflexivity].
    exists e. split; [reflexivity |].
    unfold py_item in Hsid. destruct (default JNull (assoc "d" fields)); try (left; congruence).
    destruct (assoc "session_id" fields0); [discriminate |].
    right. exists "session_id". congruence. }
  cbn [fst snd].
  destruct (py_item (default JNull (assoc "d" fields)) "heartbeat_interval") as [e|beat] eqn:Hbeat.
  { split; [| cbn; rewrite Hcap; repeat split; assumption || reflexivity].
    exists e. split; [reflexivity |].
    unfold py_item in Hbeat. destruct (default JNull (assoc "d" fields)); try (left; congruence).
    destruct (assoc "heartbeat_interval" fields0); [discriminate |].
    right. exists "heartbeat_interval". congruence. }
  cbn [rbind] in Hbad. cbn [fst snd].
  destruct (py_dividend beat) as [e|ms] eqn:Hms; [| discriminate].
  split; [| cbn; rewrite Hcap; repeat split; assumption || reflexivity].
  exists e. split; [reflexivity |]. left.
  destruct beat; cbn in Hms; congruence.
Qed.

(** *** Facts: events the connection state has no handler for *)

Lemma dispatch_loop_keeps_rest (event : string) (data : json) (entries : list EventListener) :
  forall index removed,
    keeps (fun w => (conn w, ws w, events w, tasks w))
          (dispatch_loop event data entries index removed).
Proof.
  induction entries as [|entry rest IH]; intros index removed; simpl.
  - keeps_auto.
  - unfold future_cancelled. keeps_auto; try apply IH.
Qed.

Lemma dispatch_listeners_keeps_rest (event : string) (data : json) :
  keeps (fun w => (conn w, _keep_alive (ws w), events w, tasks w))
        (dispatch_listeners event data).
Proof.
  unfold dispatch_listeners. keeps_auto.
  apply (keeps_map (fun w => (conn w, ws w, events w, tasks w))
                   (fun p => (p.1.1.1, _keep_alive p.1.1.2, p.1.2, p.2))).
  apply dispatch_loop_keeps_rest.
Qed.

Lemma extends_ret {A} (a : A) : extends (ret a).
Proof. intros w. exists []. rewrite app_nil_r. reflexivity. Qed.

Lemma extends_lift {A} (r : result A) : extends (lift r).
Proof. intros w. exists []. rewrite app_nil_r. reflexivity. Qed.

Lemma extends_gets {A} (f : World -> A) : extends (gets f).
Proof. intros w. exists []. rewrite app_nil_r. reflexivity. Qed.

Lemma extends_modify (f : World -> World) :
  (forall w, effects (f w) = effects w) -> extends (modify f).
Proof. intros H w. exists []. rewrite app_nil_r. apply H. Qed.

Lemma extends_emit (e : Effect) : extends (modify (emit e)).
Proof. intros w. exists [e]. reflexivity. Qed.

Lemma extends_bind {A B} (m : M A) (k : A -> M B) :
  extends m -> (forall a, extends (k a)) -> extends (bind m k).
Proof.
  intros Hm Hk w. unfold bind. destruct (Hm w) as [r1 H1].
  destruct (m w) as [w1 [e|a]]; simpl in *.
  - exists r1. exact H1.
  - destruct (Hk a w1) as [r2 H2]. exists (r1 ++ r2). rewrite H2, H1, app_assoc. reflexivity.
Qed.

Lemma extends_set_result (f : nat) (v : json) : extends (set_result f v).
Proof.
  intros w. exists []. rewrite app_nil_r. unfold set_result.
  destruct (future_state w f); reflexivity.
Qed.

Lemma extends_set_exception (f : nat) (e : exn) : extends (set_exception f e).
Proof.
  intros w. exists []. rewrite app_nil_r. unfold set_exception.
  destruct (future_state w f); reflexivity.
Qed.

Ltac extends_step :=
  first
    [ apply extends_ret | apply extends_lift | apply extends_gets
    | apply extends_set_result | apply extends_set_exception
    | apply extends_emit
    | apply extends_modify; intros; reflexivity
    | apply extends_bind; [|intros]
    | match goal with
      | |- extends (match ?x with _ => _ end) => destruct x
      end ].

Ltac extends_auto := repeat extends_step.

Lemma dispatch_loop_extends (event : string) (data : json) (entries : list EventListener) :
  forall index removed, extends (dispatch_loop event data entries index removed).
Proof.
  induction entries as [|entry rest IH]; intros index removed; simpl.
  - extends_auto.
  - unfold future_cancelled. extends_auto; try apply IH.
Qed.

Lemma dispatch_listeners_extends (event : string) (data : json) :
  extends (dispatch_listeners event data).
Proof. unfold dispatch_listeners. extends_auto. apply dispatch_loop_extends. Qed.

Lemma waiters_ready_same (event : string) (data : json) (w1 w2 : World) :
  ws w1 = ws w2 -> futures w1 = futures w2 ->
  waiters_ready event data w1 -> waiters_ready event data w2.
Proof.
  intros Hws Hfut [Hnodup Husable]. unfold waiters_ready, entry_usable, future_state in *.
  rewrite <- Hws, <- Hfut. split; assumption.
Qed.

Lemma entry_pruned_same (event : string) (data : json) (w1 w2 : World) (entry : EventListener) :
  futures w1 = futures w2 -> entry_pruned w1 event data entry = entry_pruned w2 event data entry.
Proof. intros H. unfold entry_pruned, future_state. rewrite H. reflexivity. Qed.

Lemma unparsed_is_not_ready (name : string) :
  getattr_parser (String.append "parse_" (str_lower name)) = None ->
  py_eq_str (JStr name) "READY" = false.
Proof.
  intros Hnone. unfold py_eq_str.
  destruct (String.eqb name "READY") eqn:E; [| reflexivity].
  apply String.eqb_eq in E. subst name. discriminate Hnone.
Qed.

(** A DISPATCH frame whose event has no [parse_*] method in the
    connection state (an event the library does not know, or one it only
    waits for, as VOICE_SERVER_UPDATE) is logged as unhandled and then
    handed to the loop over the waiters, as any other event is; it
    changes nothing in the cache beyond the stored sequence and starts no
    keep-alive and no task. The waiters are served under the condition
    that the loop needs for any event: if no two waiters share a future
    and every waiter for the event is pending (with a result function
    that returns), or cancelled with a predicate that is false, then the
    call returns, the waiters taken out are those for the event that are
    cancelled or whose predicate is true or raises, and every pending
    waiter for the event whose predicate is true has its future finished
    with the payload, or with what its result function makes of it.
    Without the condition (a cancelled waiter whose predicate is true)
    the loop can raise before it serves the waiters behind. *)
Theorem unparsed_event_reaches_waiters (fields : list (string * json)) (name : string)
    (w : World) :
  assoc "op" fields = Some (JInt DISPATCH) ->
  assoc "t" fields = Some (JStr name) ->
  getattr_parser (String.append "parse_" (str_lower name)) = None ->
  name <> "RESUMED" ->
  let data := default JNull (assoc "d" fields) in
  let w' := fst (received_message (JDict fields) w) in
  received_message (JDict fields) w
  = dispatch_listeners name data (emit (Logged "Unhandled event") (before_tests fields w))
  /\ conn w' = conn (before_tests fields w)
  /\ _keep_alive (ws w') = _keep_alive (ws w)
  /\ events w' = events w
  /\ tasks w' = tasks w
  /\ (waiters_ready name data w ->
        snd (received_message (JDict fields) w) = ok tt
        /\ _dispatch_listeners (ws w')
           = List.filter (fun entry => negb (entry_pruned w name data entry))
                         (_dispatch_listeners (ws w))
        /\ (forall entry, entry ∈ _dispatch_listeners (ws w) ->
              el_event entry = name ->
              future_state w (el_future entry) = Pending ->
              el_predicate entry data = ok true ->
              exists v, entry_value data entry = ok v
                        /\ future_state w' (el_future entry) = Finished v)).
Proof.
  intros Hop Ht Hnone Hres data w'. subst w'.
  destruct (before_tests_frame fields w) as (Hws & Hfut & Hev & Htasks & _ & _).
  assert (Heq : received_message (JDict fields) w
                = dispatch_listeners name data
                    (emit (Logged "Unhandled event") (before_tests fields w))).
  { rewrite received_message_dispatch by exact Hop.
    unfold handle_dispatch. unfold bind at 1. unfold lift, py_get. rewrite Ht.
    change (default JNull (Some (JStr name))) with (JStr name).
    rewrite (unparsed_is_not_ready name Hnone).
    assert (Hr : py_eq_str (JStr name) "RESUMED" = false).
    { unfold py_eq_str. apply String.eqb_neq. exact Hres. }
    rewrite Hr. cbn [orb]. rewrite !bind_ret.
    unfold call_parser, py_lower. rewrite bind_bind, bind_lift_ok. cbv zeta.
    rewrite Hnone. unfold log_info. rewrite bind_modify. reflexivity. }
  rewrite Heq.
  set (w1 := emit (Logged "Unhandled event") (before_tests fields w)).
  pose proof (dispatch_listeners_keeps_rest name data w1) as Hkeep.
  injection Hkeep as Hc Hk He Hta.
  split; [reflexivity |]. split; [exact Hc |]. split; [rewrite Hk; cbn; rewrite Hws; reflexivity |].
  split; [rewrite He; exact Hev |]. split; [rewrite Hta; exact Htasks |].
  intros Hready.
  assert (Hready1 : waiters_ready name data w1).
  { apply (waiters_ready_same name data w); [symmetry; exact Hws | symmetry; exact Hfut | exact Hready]. }
  rewrite (dispatch_listeners_ready name data w1 Hready1).
  destruct Hready1 as (Hnodup & Husable).
  destruct (settled_world name data _ w1 Hnodup) as (_ & _ & _ & _ & _ & _ & Hsame).
  cbn [fst snd ws with_ws _dispatch_listeners set_dispatch_listeners].
  split; [reflexivity |]. split.
  - change (ws w1) with (ws (before_tests fields w)). rewrite Hws.
    apply filter_ext. intros entry. f_equal. apply entry_pruned_same. exact Hfut.
  - intros entry Hin Hevent Hpending Hpred.
    change (ws w1) with (ws (before_tests fields w)) in Hsame, Husable.
    rewrite Hws in Hsame, Husable.
    specialize (Hsame entry Hin). specialize (Husable entry Hin Hevent).
    destruct Husable as [[_ Hvalue] | [_ Hfalse]]; [| congruence].
    destruct (Hvalue Hpred) as [v Hv]. exists v. split; [exact Hv |].
    change (future_state (with_ws _ ?x) ?f) with (future_state x f).
    change (ws w1) with (ws (before_tests fields w)). rewrite Hws.
    rewrite Hsame. unfold entry_outcome, awaits.
    apply String.eqb_eq in Hevent. rewrite Hevent, Hpred, Hv. reflexivity.
Qed.

Lemma start_keep_alive_eq (data : json) (w : World) :
  start_keep_alive data w
  = match rbind (py_item data "heartbeat_interval") py_dividend with
    | inr ms =>
        (emit (KeepAliveStarted ms)
           (with_ws (set_keep_alive (Some (mkKeepAlive ms false))) w), ok tt)
    | inl e => (w, throw e)
    end.
Proof.
  unfold start_keep_alive, bind, lift, modify.
  destruct (py_item data "heartbeat_interval") as [e|beat]; [reflexivity |].
  cbn [rbind]. destruct (py_dividend beat); reflexivity.
Qed.

(** A DISPATCH frame named RESUMED starts a keep-alive with the
    heartbeat interval of its payload and leaves the whole cache, the
    session id included, as it was (the sequence stored from the frame
    apart); it has no handler of its own and goes on to its waiters. When
    the payload has no numeric heartbeat interval the frame raises before
    anything is changed. *)
Theorem resumed_frame (fields : list (string * json)) (w : World) :
  assoc "op" fields = Some (JInt DISPATCH) ->
  assoc "t" fields = Some (JStr "RESUMED") ->
  let data := default JNull (assoc "d" fields) in
  let w0 := before_tests fields w in
  let w' := fst (received_message (JDict fields) w) in
  (forall ms, rbind (py_item data "heartbeat_interval") py_dividend = ok ms ->
      conn w' = conn w0
      /\ _keep_alive (ws w') = Some (mkKeepAlive ms false)
      /\ tasks w' = tasks w
      /\ exists rest,
           effects w'
           = effects w0 ++ [KeepAliveStarted ms; Logged "Unhandled event"] ++ rest)
  /\ (forall e, rbind (py_item data "heartbeat_interval") py_dividend = throw e ->
      received_message (JDict fields) w = (w0, throw e)).
Proof.
  intros Hop Ht data w0 w'. subst w'.
  destruct (before_tests_frame fields w) as (_ & _ & _ & Htasks & _ & _).
  rewrite received_message_dispatch by exact Hop. fold data. fold w0. fold w0 in Htasks.
  assert (Hrun : handle_dispatch (JDict fields) data w0
                 = match rbind (py_item data "heartbeat_interval") py_dividend with
                   | inr ms =>
                       dispatch_listeners "RESUMED" data
                         (emit (Logged "Unhandled event")
                            (emit (KeepAliveStarted ms)
                               (with_ws (set_keep_alive (Some (mkKeepAlive ms false))) w0)))
                   | inl e => (w0, throw e)
                   end).
  { unfold handle_dispatch. unfold bind at 1. unfold lift, py_get. rewrite Ht.
    change (default JNull (Some (JStr "RESUMED"))) with (JStr "RESUMED").
    change (py_eq_str (JStr "RESUMED") "READY") with false.
    change (py_eq_str (JStr "RESUMED") "RESUMED") with true. cbn [orb fst snd].
    rewrite bind_ret. unfold bind at 1. rewrite start_keep_alive_eq.
    destruct (rbind (py_item data "heartbeat_interval") py_dividend) as [e|ms];
      [reflexivity |].
    unfold call_parser, py_lower. rewrite bind_bind, bind_lift_ok. cbv zeta.
    change (getattr_parser (String.append "parse_" (str_lower "RESUMED")))
      with (@None (json -> M unit)).
    unfold log_info. rewrite bind_modify. reflexivity. }
  rewrite Hrun. split.
  - intros ms Hms. rewrite Hms.
    match goal with |- context [dispatch_listeners "RESUMED" data ?x] => set (w1 := x) end.
    pose proof (dispatch_listeners_keeps_rest "RESUMED" data w1) as Hkeep.
    injection Hkeep as Hc Hk _ Hta.
    destruct (dispatch_listeners_extends "RESUMED" data w1) as [rest Hrest].
    split; [exact Hc |]. split; [exact Hk |]. split; [rewrite Hta; exact Htasks |].
    exists rest. rewrite Hrest. subst w1. cbn. rewrite <- !app_assoc. reflexivity.
  - intros e He. rewrite He. reflexivity.
Qed.

(** *** Facts: Python dicts keyed by decoded values *)

Lemma py_eq_refl_hashable (k : json) : hashable k = true -> py_eq k k = true.
Proof.
  destruct k; simpl; try discriminate; intros _.
  - reflexivity.
  - destruct b; reflexivity.
  - apply Z.eqb_refl.
  - apply String.eqb_refl.
Qed.

Lemma py_eq_hashable_l (a b : json) :
  hashable b = true -> py_eq a b = true -> hashable a = true.
Proof. destruct a, b; simpl; try discriminate; reflexivity. Qed.

(** Two keys that are equal find the same entries. *)
Lemma py_eq_trans_l (a b c : json) :
  hashable b = true -> py_eq a b = true -> py_eq a c = py_eq b c.
Proof.
  destruct a as [|x|x|x|x|x], b as [|y|y|y|y|y]; simpl; try discriminate; intros _ Hab;
    destruct c as [|z|z|z|z|z]; simpl; try reflexivity.
  - apply Bool.eqb_prop in Hab. subst. reflexivity.
  - apply Bool.eqb_prop in Hab. subst. reflexivity.
  - apply Z.eqb_eq in Hab. subst y. destruct x, z; reflexivity.
  - apply Z.eqb_eq in Hab. subst y. reflexivity.
  - apply Z.eqb_eq in Hab. subst x. destruct y, z; reflexivity.
  - apply Z.eqb_eq in Hab. subst x. reflexivity.
  - apply Z.eqb_eq in Hab. subst. reflexivity.
  - apply Z.eqb_eq in Hab. subst. reflexivity.
  - apply String.eqb_eq in Hab. subst. reflexivity.
Qed.

Lemma dict_replace_find {V} (k : json) (v : V) (d d' : pydict V) :
  dict_replace k v d = Some d' ->
  List.find (fun kv => py_eq (fst kv) k) d' = option_map (fun kv => (fst kv, v))
                                                (List.find (fun kv => py_eq (fst kv) k) d)
  /\ is_Some (List.find (fun kv => py_eq (fst kv) k) d).
Proof.
  revert d'. induction d as [|[k0 v0] rest IH]; intros d'; simpl; [discriminate |].
  destruct (py_eq k0 k) eqn:E.
  - intros [= <-]. simpl. rewrite E. split; [reflexivity | eauto].
  - destruct (dict_replace k v rest) as [r|] eqn:Er; simpl; [| discriminate].
    intros [= <-]. simpl. rewrite E. apply IH. reflexivity.
Qed.

Lemma dict_replace_none {V} (k : json) (v : V) (d : pydict V) :
  dict_replace k v d = None -> List.find (fun kv => py_eq (fst kv) k) d = None.
Proof.
  induction d as [|[k0 v0] rest IH]; simpl; [reflexivity |].
  destruct (py_eq k0 k); [discriminate |].
  destruct (dict_replace k v rest); simpl; [discriminate |]. intros _. apply IH. reflexivity.
Qed.

Lemma dict_replace_other {V} (k k' : json) (v : V) (d d' : pydict V) :
  hashable k = true -> py_eq k k' = false ->
  dict_replace k v d = Some d' ->
  snd <$> List.find (fun kv => py_eq (fst kv) k') d'
  = snd <$> List.find (fun kv => py_eq (fst kv) k') d.
Proof.
  intros Hk Hne. revert d'. induction d as [|[k0 v0] rest IH]; intros d'; simpl; [discriminate |].
  destruct (py_eq k0 k) eqn:E.
  - intros [= <-]. simpl.
    rewrite (py_eq_trans_l k0 k k' Hk E), Hne. reflexivity.
  - destruct (dict_replace k v rest) as [r|] eqn:Er; simpl; [| discriminate].
    intros [= <-]. simpl. destruct (py_eq k0 k'); [reflexivity |]. apply IH. reflexivity.
Qed.

Lemma find_app_none {A} (P : A -> bool) (l1 l2 : list A) :
  List.find P l1 = None -> List.find P (l1 ++ l2) = List.find P l2.
Proof.
  induction l1 as [|x rest IH]; simpl; [reflexivity |].
  destruct (P x); [discriminate | exact IH].
Qed.

Lemma find_app_some {A} (P : A -> bool) (l1 l2 : list A) :
  is_Some (List.find P l1) -> List.find P (l1 ++ l2) = List.find P l1.
Proof.
  induction l1 as [|x rest IH]; simpl; [intros [? H]; discriminate |].
  destruct (P x); [reflexivity | exact IH].
Qed.

(** A key just assigned is found with its value. *)
Lemma dict_get_setitem_eq {V} (k : json) (v : V) (d d' : pydict V) :
  dict_setitem k v d = ok d' -> dict_get k d' = ok (Some v).
Proof.
  unfold dict_setitem, dict_get. destruct (hashable k) eqn:Hk; [| discriminate].
  intros [= <-]. f_equal.
  destruct (dict_replace k v d) as [r|] eqn:Er; unfold default; cbn [from_option id].
  - destruct (dict_replace_find k v d r Er) as [Hfind [kv Hsome]].
    rewrite Hfind, Hsome. reflexivity.
  - rewrite find_app_none by (apply (dict_replace_none k v), Er).
    simpl. rewrite (py_eq_refl_hashable k Hk). reflexivity.
Qed.

(** Assigning a key leaves what the other keys find. *)
Lemma dict_get_setitem_ne {V} (k k' : json) (v : V) (d d' : pydict V) :
  dict_setitem k v d = ok d' -> py_eq k k' = false -> dict_get k' d' = dict_get k' d.
Proof.
  unfold dict_setitem, dict_get. destruct (hashable k) eqn:Hk; [| discriminate].
  intros [= <-] Hne. destruct (hashable k'); [| reflexivity]. f_equal.
  destruct (dict_replace k v d) as [r|] eqn:Er; unfold default; cbn [from_option id].
  - apply (dict_replace_other k k' v d r Hk Hne Er).
  - destruct (List.find (fun kv => py_eq (fst kv) k') d) as [kv|] eqn:Ef.
    + rewrite find_app_some by (rewrite Ef; eauto). rewrite Ef. reflexivity.
    + rewrite find_app_none by exact Ef. simpl. rewrite Hne. reflexivity.
Qed.

Lemma find_filter_none {V} (k : json) (d : pydict V) :
  List.find (fun kv => py_eq (fst kv) k)
            (List.filter (fun kv : json * V => negb (py_eq (fst kv) k)) d) = None.
Proof.
  induction d as [|[k0 v0] rest IH]; simpl; [reflexivity |].
  destruct (py_eq k0 k) eqn:E; simpl; [exact IH |]. rewrite E. exact IH.
Qed.

Lemma find_filter_other {V} (k k' : json) (d : pydict V) :
  hashable k = true -> py_eq k k' = false ->
  List.find (fun kv => py_eq (fst kv) k')
            (List.filter (fun kv : json * V => negb (py_eq (fst kv) k)) d)
  = List.find (fun kv => py_eq (fst kv) k') d.
Proof.
  intros Hk Hne. induction d as [|[k0 v0] rest IH]; simpl; [reflexivity |].
  destruct (py_eq k0 k) eqn:E; simpl.
  - rewrite (py_eq_trans_l k0 k k' Hk E), Hne. exact IH.
  - destruct (py_eq k0 k'); [reflexivity | exact IH].
Qed.

Lemma dict_pop_ok {V} (k : json) (d d' : pydict V) :
  dict_pop k d = ok d' ->
  d' = List.filter (fun kv => negb (py_eq (fst kv) k)) d /\ (d = [] \/ hashable k = true).
Proof.
  unfold dict_pop. destruct d as [|kv rest].
  - intros H. inversion H. split; [reflexivity | left; reflexivity].
  - destruct (hashable k); [| discriminate].
    intros H. inversion H. split; [reflexivity | right; reflexivity].
Qed.

(** A key that was popped is no longer found. *)
Lemma dict_get_pop_eq {V} (k : json) (d d' : pydict V) :
  hashable k = true -> dict_pop k d = ok d' -> dict_get k d' = ok None.
Proof.
  intros Hk Hpop. apply dict_pop_ok in Hpop as [-> _].
  unfold dict_get. rewrite Hk, find_filter_none. reflexivity.
Qed.

(** Popping a key leaves what the other keys find. *)
Lemma dict_get_pop_ne {V} (k k' : json) (d d' : pydict V) :
  dict_pop k d = ok d' -> py_eq k k' = false -> dict_get k' d' = dict_get k' d.
Proof.
  intros Hpop Hne. apply dict_pop_ok in Hpop as [-> [-> | Hk]]; [reflexivity |].
  unfold dict_get. destruct (hashable k'); [| reflexivity].
  rewrite find_filter_other by assumption. reflexivity.
Qed.

(** Popping never raises [KeyError]: with a hashable key it returns. *)
Lemma dict_pop_hashable {V} (k : json) (d : pydict V) :
  hashable k = true -> exists d', dict_pop k d = ok d'.
Proof. intros Hk. unfold dict_pop. rewrite Hk. destruct d; eauto. Qed.

Lemma dict_setitem_hashable {V} (k : json) (v : V) (d : pydict V) :
  hashable k = true -> exists d', dict_setitem k v d = ok d'.
Proof. intros Hk. unfold dict_setitem. rewrite Hk. eauto. Qed.

Lemma dict_setitem_key {V} (k : json) (v : V) (d d' : pydict V) :
  dict_setitem k v d = ok d' -> hashable k = true.
Proof. unfold dict_setitem. destruct (hashable k); [reflexivity | discriminate]. Qed.

Lemma find_none_replace {V} (k : json) (v : V) (d : pydict V) :
  List.find (fun kv => py_eq (fst kv) k) d = None -> dict_replace k v d = None.
Proof.
  induction d as [|[k0 v0] rest IH]; simpl; [reflexivity |].
  destruct (py_eq k0 k); [discriminate |]. intros H. rewrite (IH H). reflexivity.
Qed.

Lemma find_none_filter {V} (k : json) (d : pydict V) :
  List.find (fun kv => py_eq (fst kv) k) d = None ->
  List.filter (fun kv : json * V => negb (py_eq (fst kv) k)) d = d.
Proof.
  induction d as [|[k0 v0] rest IH]; simpl; [reflexivity |].
  destruct (py_eq k0 k); [discriminate |]. intros H. simpl. rewrite (IH H). reflexivity.
Qed.

(** A key that was absent, set and then popped: the dict is as before. *)
Lemma dict_pop_setitem_absent {V} (k : json) (v : V) (d d1 d2 : pydict V) :
  dict_get k d = ok None ->
  dict_setitem k v d = ok d1 -> dict_pop k d1 = ok d2 -> d2 = d.
Proof.
  intros Hget Hset Hpop.
  pose proof (dict_setitem_key k v d d1 Hset) as Hk.
  unfold dict_get in Hget. rewrite Hk in Hget.
  assert (Hnone : List.find (fun kv => py_eq (fst kv) k) d = None).
  { destruct (List.find (fun kv => py_eq (fst kv) k) d); [discriminate | reflexivity]. }
  unfold dict_setitem in Hset. rewrite Hk, (find_none_replace k v d Hnone) in Hset.
  injection Hset as <-.
  apply dict_pop_ok in Hpop as [-> _].
  rewrite List.filter_app, (find_none_filter k d Hnone). cbn [List.filter fst].
  rewrite (py_eq_refl_hashable k Hk). cbn. apply app_nil_r.
Qed.

(** *** Facts: the registries of the cache *)

(** The voice clients of the cache are looked up as they were
    registered: a client added under a server id is found under it, and
    no longer once it is removed; when the id was not registered before,
    the removal gives back the world there was before the client was
    added; the other server ids find what they found before; removing an
    id that is not registered returns and changes nothing that is found;
    and none of this touches the rest of the world. *)
Theorem voice_client_registry (guild_id : json) (voice : VoiceHandle) (w : World) :
  hashable guild_id = true ->
  let added := fst (_add_voice_client guild_id voice w) in
  let removed := fst (_remove_voice_client guild_id added) in
  snd (_add_voice_client guild_id voice w) = ok tt
  /\ _get_voice_client guild_id added = (added, ok (Some voice))
  /\ snd (_remove_voice_client guild_id added) = ok tt
  /\ _get_voice_client guild_id removed = (removed, ok None)
  /\ (snd (_get_voice_client guild_id w) = ok None -> removed = w)
  /\ snd (_remove_voice_client guild_id w) = ok tt
  /\ (forall other, py_eq guild_id other = false ->
        snd (_get_voice_client other added) = snd (_get_voice_client other w)
        /\ snd (_get_voice_client other removed) = snd (_get_voice_client other w)
        /\ snd (_get_voice_client other (fst (_remove_voice_client guild_id w)))
           = snd (_get_voice_client other w))
  /\ set_voice_clients (_voice_clients (conn w)) (conn removed) = conn w
  /\ (ws removed, futures removed, events removed, tasks removed, effects removed)
     = (ws w, futures w, events w, tasks w, effects w).
Proof.
  intros Hk added removed.
  destruct (dict_setitem_hashable guild_id voice (_voice_clients (conn w)) Hk) as [d1 Hd1].
  assert (Hadd : _add_voice_client guild_id voice w = (with_conn (set_voice_clients d1) w, ok tt)).
  { unfold _add_voice_client. rewrite bind_gets. unfold bind, lift. rewrite Hd1. reflexivity. }
  destruct (dict_pop_hashable guild_id d1 Hk) as [d2 Hd2].
  assert (Hrem : _remove_voice_client guild_id (with_conn (set_voice_clients d1) w)
                 = (with_conn (set_voice_clients d2) (with_conn (set_voice_clients d1) w), ok tt)).
  { unfold _remove_voice_client. rewrite bind_gets. unfold bind, lift.
    cbn [conn with_conn _voice_clients set_voice_clients]. rewrite Hd2. reflexivity. }
  destruct (dict_pop_hashable guild_id (_voice_clients (conn w)) Hk) as [d3 Hd3].
  assert (Hrem0 : _remove_voice_client guild_id w = (with_conn (set_voice_clients d3) w, ok tt)).
  { unfold _remove_voice_client. rewrite bind_gets. unfold bind, lift. rewrite Hd3. reflexivity. }
  subst removed added. rewrite Hadd. cbn [fst snd]. rewrite Hrem, Hrem0. cbn [fst snd].
  unfold _get_voice_client. rewrite !bind_gets. unfold lift.
  cbn [conn with_conn _voice_clients set_voice_clients fst snd].
  rewrite (dict_get_setitem_eq guild_id voice _ d1 Hd1).
  rewrite (dict_get_pop_eq guild_id d1 d2 Hk Hd2).
  split; [reflexivity |]. split; [reflexivity |]. split; [reflexivity |].
  split; [reflexivity |]. split.
  { intros Habsent.
    rewrite (dict_pop_setitem_absent guild_id voice _ d1 d2 Habsent Hd1 Hd2).
    destruct w as [[] ? ? ? ? ? ? ?]. reflexivity. }
  split; [reflexivity |]. split.
  - intros other Hne. rewrite !bind_gets. unfold lift.
    cbn [conn with_conn _voice_clients set_voice_clients fst snd].
    rewrite (dict_get_pop_ne guild_id other d1 d2 Hd2 Hne).
    rewrite (dict_get_setitem_ne guild_id other voice _ d1 Hd1 Hne).
    rewrite (dict_get_pop_ne guild_id other _ d3 Hd3 Hne).
    repeat split; reflexivity.
  - split; [destruct w as [[] ? ? ? ? ? ? ?]; reflexivity | reflexivity].
Qed.

(** A private channel is registered in both indices: once added it is
    found under its id and under the id of its user, and once removed
    under neither; the other ids find in either index what they found
    before the channel was added. *)
Theorem private_channel_indices (channel : PrivateChannel) (w : World) :
  hashable (channel_id channel) = true ->
  hashable (user_id (channel_user channel)) = true ->
  let added := fst (_add_private_channel channel w) in
  let removed := fst (_remove_private_channel channel added) in
  snd (_add_private_channel channel w) = ok tt
  /\ snd (_get_private_channel (channel_id channel) added) = ok (Some channel)
  /\ snd (_get_private_channel_by_user (user_id (channel_user channel)) added)
     = ok (Some channel)
  /\ snd (_remove_private_channel channel added) = ok tt
  /\ snd (_get_private_channel (channel_id channel) removed) = ok None
  /\ snd (_get_private_channel_by_user (user_id (channel_user channel)) removed) = ok None
  /\ (forall other, py_eq (channel_id channel) other = false ->
        snd (_get_private_channel other added) = snd (_get_private_channel other w)
        /\ snd (_get_private_channel other removed) = snd (_get_private_channel other w))
  /\ (forall other, py_eq (user_id (channel_user channel)) other = false ->
        snd (_get_private_channel_by_user other added)
        = snd (_get_private_channel_by_user other w)
        /\ snd (_get_private_channel_by_user other removed)
           = snd (_get_private_channel_by_user other w)).
Proof.
  intros Hc Hu added removed.
  destruct (dict_setitem_hashable (channel_id channel) channel (_private_channels (conn w)) Hc)
    as [d1 Hd1].
  destruct (dict_setitem_hashable (user_id (channel_user channel)) channel
              (_private_channels_by_user (conn w)) Hu) as [u1 Hu1].
  assert (Hadd : _add_private_channel channel w
                 = (with_conn (set_private_channels d1 u1) w, ok tt)).
  { unfold _add_private_channel. rewrite bind_gets. unfold bind at 1. unfold lift at 1.
    rewrite Hd1. rewrite bind_modify, bind_gets. unfold bind at 1. unfold lift at 1.
    cbn [conn with_conn _private_channels_by_user set_private_channels]. rewrite Hu1.
    reflexivity. }
  destruct (dict_pop_hashable (channel_id channel) d1 Hc) as [d2 Hd2].
  destruct (dict_pop_hashable (user_id (channel_user channel)) u1 Hu) as [u2 Hu2].
  assert (Hrem : _remove_private_channel channel (with_conn (set_private_channels d1 u1) w)
                 = (with_conn (set_private_channels d2 u2) w, ok tt)).
  { unfold _remove_private_channel. rewrite bind_gets. unfold bind at 1. unfold lift at 1.
    cbn [conn with_conn _private_channels set_private_channels]. rewrite Hd2.
    rewrite bind_modify, bind_gets. unfold bind at 1. unfold lift at 1.
    cbn [conn with_conn _private_channels_by_user set_private_channels]. rewrite Hu2.
    reflexivity. }
  subst removed added. rewrite Hadd. cbn [fst snd]. rewrite Hrem. cbn [fst snd].
  unfold _get_private_channel, _get_private_channel_by_user. rewrite !bind_gets. unfold lift.
  cbn [conn with_conn _private_channels _private_channels_by_user set_private_channels fst snd].
  rewrite (dict_get_setitem_eq _ channel _ d1 Hd1), (dict_get_setitem_eq _ channel _ u1 Hu1).
  rewrite (dict_get_pop_eq _ d1 d2 Hc Hd2), (dict_get_pop_eq _ u1 u2 Hu Hu2).
  repeat (split; [reflexivity |]). split.
  - intros other Hne. rewrite !bind_gets. unfold lift.
    cbn [conn with_conn _private_channels _private_channels_by_user set_private_channels
         fst snd].
    rewrite (dict_get_pop_ne _ other d1 d2 Hd2 Hne).
    rewrite (dict_get_setitem_ne _ other channel _ d1 Hd1 Hne). split; reflexivity.
  - intros other Hne. rewrite !bind_gets. unfold lift.
    cbn [conn with_conn _private_channels _private_channels_by_user set_private_channels
         fst snd].
    rewrite (dict_get_pop_ne _ other u1 u2 Hu2 Hne).
    rewrite (dict_get_setitem_ne _ other channel _ u1 Hu1 Hne). split; reflexivity.
Qed.

(** *** Facts: channels by id *)

Lemma find_channel_spec (id : json) (cached : list Server) :
  match find_channel id cached with
  | Some channel => exists server, server ∈ cached /\ server_get_channel server id = Some channel
  | None => forall server, server ∈ cached -> server_get_channel server id = None
  end.
Proof.
  induction cached as [|server rest IH]; simpl.
  - intros server Hin. inversion Hin.
  - destruct (server_get_channel server id) as [channel|] eqn:E.
    + exists server. split; [left | exact E].
    + destruct (find_channel id rest) as [channel|].
      * destruct IH as (s & Hs & Hc). exists s. split; [right; exact Hs | exact Hc].
      * intros s Hs. apply elem_of_cons in Hs as [-> | Hs]; [exact E | apply IH, Hs].
Qed.

(** [get_channel] changes nothing. For [None] it returns [None]; a
    channel of a server is returned only if a cached server has a channel
    of that id; a private channel is returned only if no cached server
    has one, and it is then the one registered under that id; and when
    no cached server has such a channel the result is what the private
    channels give, [None] for an id that is not registered and
    [TypeError] for an id that cannot be hashed. *)
Theorem get_channel_lookup (id : json) (w : World) :
  fst (get_channel id w) = w
  /\ (id = JNull -> snd (get_channel id w) = ok None)
  /\ (forall channel, snd (get_channel id w) = ok (Some (ServerChannel channel)) ->
        exists server, server ∈ dict_values (_servers (conn w))
                       /\ server_get_channel server id = Some channel)
  /\ (forall pm, snd (get_channel id w) = ok (Some (DirectChannel pm)) ->
        (forall server, server ∈ dict_values (_servers (conn w)) ->
                        server_get_channel server id = None)
        /\ dict_get id (_private_channels (conn w)) = ok (Some pm))
  /\ (id <> JNull ->
      (forall server, server ∈ dict_values (_servers (conn w)) ->
                      server_get_channel server id = None) ->
      snd (get_channel id w)
      = rbind (dict_get id (_private_channels (conn w))) (fun pm => ok (DirectChannel <$> pm))).
Proof.
  assert (Hrun : id <> JNull ->
    get_channel id w
    = match find_channel id (dict_values (_servers (conn w))) with
      | Some channel => (w, ok (Some (ServerChannel channel)))
      | None => (w, rbind (dict_get id (_private_channels (conn w)))
                          (fun pm => ok (DirectChannel <$> pm)))
      end).
  { intros Hid. unfold get_channel.
    assert (Hbody : forall (k : M (option AnyChannel)),
              match id with JNull => ret None | _ => k end = k).
    { intros k. destruct id; try reflexivity. contradiction. }
    rewrite Hbody. unfold ConnectionState_servers. rewrite bind_gets.
    destruct (find_channel id (dict_values (_servers (conn w)))); [reflexivity |].
    unfold _get_private_channel. rewrite bind_bind, bind_gets. unfold bind, lift.
    destruct (dict_get id (_private_channels (conn w))); reflexivity. }
  pose proof (find_channel_spec id (dict_values (_servers (conn w)))) as Hfind.
  destruct id as [| | | | |] eqn:Hid;
    [repeat split; try reflexivity; try discriminate; contradiction | | | | |];
    (rewrite Hrun by discriminate;
     destruct (find_channel _ (dict_values (_servers (conn w)))) as [channel|];
     [ destruct Hfind as (server & Hin & Hc);
       split; [reflexivity |]; split; [discriminate |]; split;
       [ intros c [= <-]; eauto |];
       split; [discriminate |];
       intros _ Hnone; rewrite (Hnone server Hin) in Hc; discriminate
     | split; [reflexivity |]; split; [discriminate |]; split;
       [ cbn [snd]; destruct (dict_get _ (_private_channels (conn w))) as [e|[pm|]];
         discriminate |];
       split; [| intros _ _; reflexivity];
       cbn [snd]; intros pm Hpm; split; [exact Hfind |];
       destruct (dict_get _ (_private_channels (conn w))) as [e|[pm'|]];
       try discriminate; injection Hpm as <-; reflexivity ]).
Qed.

(** *** Facts: the message cache *)

Lemma deque_append_bounded (m : Message) (d : Deque) :
  Z.of_nat (length (items d)) <= maxlen d ->
  Z.of_nat (length (items (deque_append m d))) <= maxlen d
  /\ items (deque_append m d)
     = if Z.of_nat (length (items d)) <? maxlen d then items d ++ [m]
       else drop 1 (items d ++ [m]).
Proof.
  intros Hlen. unfold deque_append. cbn [items maxlen].
  rewrite length_app. cbn [length].
  destruct (Z.ltb_spec (maxlen d) (Z.of_nat (length (items d) + 1))) as [Hfull|Hroom].
  - destruct (Z.ltb_spec (Z.of_nat (length (items d))) (maxlen d)) as [Hlt|_]; [lia |].
    rewrite length_drop, length_app. cbn [length]. split; [lia | reflexivity].
  - destruct (Z.ltb_spec (Z.of_nat (length (items d))) (maxlen d)) as [_|Hge]; [| lia].
    rewrite length_app. cbn [length]. split; [lia | reflexivity].
Qed.

Lemma preserves_ret {A} (I : World -> Prop) (a : A) : preserves I (ret a).
Proof. intros w H. exact H. Qed.

Lemma preserves_lift {A} (I : World -> Prop) (r : result A) : preserves I (lift r).
Proof. intros w H. exact H. Qed.

Lemma preserves_gets {A} (I : World -> Prop) (f : World -> A) : preserves I (gets f).
Proof. intros w H. exact H. Qed.

Lemma preserves_modify (I : World -> Prop) (f : World -> World) :
  (forall w, I w -> I (f w)) -> preserves I (modify f).
Proof. intros H w Hw. apply H, Hw. Qed.

(** The message cache is within its capacity, which is [n]. *)
Lemma get_channel_keeps (id : json) : keeps (fun w => w) (get_channel id).
Proof.
  unfold get_channel, ConnectionState_servers, _get_private_channel.
  destruct id; keeps_auto.
Qed.

Lemma parse_message_create_bounded (data : json) (n : Z) :
  preserves (fun w => cache_bounded (conn w) /\ max_messages (conn w) = n)
            (parse_message_create data).
Proof.
  unfold parse_message_create.
  apply preserves_bind; [apply preserves_lift | intros id].
  apply preserves_bind.
  { intros w H. rewrite (get_channel_keeps id w). exact H. }
  intros channel. apply preserves_bind; [apply preserves_lift | intros message].
  apply preserves_bind; [apply preserves_modify; intros w H; exact H | intros _].
  apply preserves_modify. intros w [[Hmax Hlen] Hn].
  unfold cache_bounded. cbn [conn with_conn messages set_messages max_messages].
  destruct (deque_append_bounded message (messages (conn w)) Hlen) as [Hb _].
  split; [split; [exact Hmax | exact Hb] | exact Hn].
Qed.

Lemma parse_message_delete_bounded (data : json) (n : Z) :
  preserves (fun w => cache_bounded (conn w) /\ max_messages (conn w) = n)
            (parse_message_delete data).
Proof.
  unfold parse_message_delete, _get_message.
  apply preserves_bind; [apply preserves_lift | intros id].
  apply preserves_bind; [apply preserves_gets | intros [i|]]; [| apply preserves_ret].
  apply preserves_bind; [apply preserves_gets | intros [message|]]; [| apply preserves_ret].
  apply preserves_bind; [apply preserves_modify; intros w H; exact H | intros _].
  apply preserves_modify. intros w [[Hmax Hlen] Hn].
  unfold cache_bounded. cbn [conn with_conn messages set_messages max_messages maxlen items].
  split; [split; [exact Hmax |] | exact Hn].
  rewrite delete_take_drop, length_app, length_take, length_drop. lia.
Qed.

Lemma store_message_bounded (i : nat) (m : Message) (n : Z) :
  preserves (fun w => cache_bounded (conn w) /\ max_messages (conn w) = n) (store_message i m).
Proof.
  apply preserves_modify. intros w [[Hmax Hlen] Hn].
  unfold cache_bounded. cbn [conn with_conn messages set_messages max_messages maxlen items].
  rewrite length_insert. split; [split; assumption | exact Hn].
Qed.

Lemma parse_message_update_bounded (data : json) (n : Z) :
  preserves (fun w => cache_bounded (conn w) /\ max_messages (conn w) = n)
            (parse_message_update data).
Proof.
  unfold parse_message_update, _get_message.
  apply preserves_bind; [apply preserves_lift | intros id].
  apply preserves_bind; [apply preserves_gets | intros [i|]]; [| apply preserves_ret].
  apply preserves_bind; [apply preserves_gets | intros [message|]]; [| apply preserves_ret].
  apply preserves_bind; [| intros updated; apply preserves_modify; intros w H; exact H].
  destruct (negb (py_contains data "content")).
  - apply preserves_bind; [apply preserves_lift | intros embeds].
    apply preserves_bind; [apply store_message_bounded | intros _; apply preserves_ret].
  - destruct (Message_update message data) as [m raised].
    apply preserves_bind; [apply store_message_bounded | intros _].
    apply preserves_bind; [apply preserves_lift | intros _; apply preserves_ret].
Qed.

Lemma handle_message_events_bounded (events : list MessageEvent) (n : Z) :
  forall w,
    cache_bounded (conn w) /\ max_messages (conn w) = n ->
    cache_bounded (conn (handle_message_events events w))
    /\ max_messages (conn (handle_message_events events w)) = n.
Proof.
  unfold handle_message_events.
  induction events as [|event rest IH]; intros w H; [exact H |].
  cbn [foldl]. apply IH.
  destruct event as [data|data|data]; cbn [parse_message_event].
  - apply parse_message_create_bounded, H.
  - apply parse_message_update_bounded, H.
  - apply parse_message_delete_bounded, H.
Qed.

(** The capacity that [Client.__init__] settles is never below 100: a
    missing value, [None], a boolean and an integer below 100 give 5000,
    an integer from 100 on is kept, and a string, a list or a dict raises
    [TypeError] at the comparison; the connection state made with it has
    an empty cache whose message deque has that capacity. *)
Theorem client_capacity_floor :
  (forall option_value n, Client_max_messages option_value = ok n -> 100 <= n)
  /\ (forall n, 100 <= n -> Client_max_messages (JInt n) = ok n)
  /\ (forall n, n < 100 -> Client_max_messages (JInt n) = ok 5000)
  /\ Client_max_messages JNull = ok 5000
  /\ (forall s, Client_max_messages (JStr s) = throw TypeError)
  /\ (forall option_value c,
        Client_connection option_value = ok c ->
        Client_max_messages option_value = ok (max_messages c)
        /\ cache_of c = (None, JNull, JNull, [], [], [], [], mkDeque (max_messages c) [])
        /\ _listeners c = []).
Proof.
  split; [| split; [| split; [| split; [reflexivity | split; [reflexivity |]]]]].
  - intros v n. destruct v; simpl; try discriminate; intros [= <-]; try lia.
    destruct (Z.ltb_spec z 100); lia.
  - intros n Hn. simpl. destruct (Z.ltb_spec n 100); [lia | reflexivity].
  - intros n Hn. simpl. destruct (Z.ltb_spec n 100); [reflexivity | lia].
  - intros v c. unfold Client_connection.
    destruct (Client_max_messages v) as [e|n]; [discriminate |].
    cbn [rbind]. intros [= <-]. repeat split; reflexivity.
Qed.

(** Whatever capacity was asked for, the message cache of a client never
    holds more messages than the capacity settled at construction, which
    is 100 or more: after any run of message-create, message-update and
    message-delete events on a cache within its capacity, whether their
    handlers return or raise, the cache is within the same capacity. *)
Theorem message_cache_never_overflows (option_value : json) (c : ConnectionState) :
  Client_connection option_value = ok c ->
  100 <= max_messages c
  /\ cache_bounded c
  /\ forall (w : World) (events : list MessageEvent),
       cache_bounded (conn w) ->
       max_messages (conn w) = max_messages c ->
       let w' := handle_message_events events w in
       max_messages (conn w') = max_messages c
       /\ maxlen (messages (conn w')) = max_messages c
       /\ Z.of_nat (length (items (messages (conn w')))) <= max_messages c.
Proof.
  intros Hc. unfold Client_connection in Hc.
  destruct (Client_max_messages option_value) as [e|n] eqn:Hn; [discriminate |].
  cbn [rbind] in Hc. injection Hc as <-.
  assert (Hfloor : 100 <= n).
  { destruct option_value; simpl in Hn; try discriminate; injection Hn as <-; try lia.
    destruct (Z.ltb_spec z 100); lia. }
  split; [exact Hfloor |]. split.
  { unfold cache_bounded. cbn. split; [reflexivity | lia]. }
  intros w events Hb Hcap w'.
  destruct (handle_message_events_bounded events n w (conj Hb Hcap)) as [[Hmax Hlen] Hn'].
  fold w' in Hmax, Hlen, Hn'. cbn [max_messages ConnectionState_init clear_state].
  split; [exact Hn' |]. split; [rewrite Hmax; exact Hn' |]. rewrite <- Hn', <- Hmax. exact Hlen.
Qed.

Lemma parse_message_create_eq (data : json) (w : World) :
  parse_message_create data w
  = match py_get data "channel_id" with
    | inl e => (w, throw e)
    | inr id =>
        match snd (get_channel id w) with
        | inl e => (w, throw e)
        | inr channel =>
            match Message_new channel data with
            | inl e => (w, throw e)
            | inr message =>
                (with_conn (fun c => set_messages (deque_append message (messages c)) c)
                   (emit (Dispatch "message" [ArgMessage message]) w), ok tt)
            end
        end
    end.
Proof.
  unfold parse_message_create.
  destruct (py_get data "channel_id") as [e|id]; [reflexivity |].
  rewrite bind_lift_ok. unfold bind at 1.
  pose proof (get_channel_keeps id w) as Hkeep. cbv beta in Hkeep.
  destruct (get_channel id w) as [w1 [e|channel]]; cbn [fst snd] in *; subst w1;
    [reflexivity |].
  destruct (Message_new channel data) as [e|message]; reflexivity.
Qed.

(** A message-create event stores nothing when it raises, that is when
    the payload is not an object, when the channel id cannot be hashed or
    when the message cannot be built. Otherwise the message built from
    the channel found and the payload is announced once and then
    appended: it is the newest message of the cache, and when the cache
    was full the oldest one is dropped to make room. Nothing else
    changes. *)
Theorem message_create_appends (data : json) (w : World) :
  cache_bounded (conn w) ->
  let w' := fst (parse_message_create data w) in
  cache_bounded (conn w')
  /\ (forall e, snd (parse_message_create data w) = throw e -> w' = w)
  /\ (snd (parse_message_create data w) = ok tt ->
      exists id channel message,
        py_get data "channel_id" = ok id
        /\ snd (get_channel id w) = ok channel
        /\ Message_new channel data = ok message
        /\ effects w' = effects w ++ [Dispatch "message" [ArgMessage message]]
        /\ items (messages (conn w'))
           = (if Z.of_nat (length (items (messages (conn w)))) <? max_messages (conn w)
              then items (messages (conn w)) ++ [message]
              else drop 1 (items (messages (conn w)) ++ [message]))
        /\ (0 < max_messages (conn w) -> last (items (messages (conn w'))) = Some message)
        /\ cache_bounded (conn w')
        /\ set_messages (messages (conn w)) (conn w') = conn w
        /\ (ws w', futures w', events w', tasks w') = (ws w, futures w, events w, tasks w)).
Proof.
  intros [Hmax Hlen] w'. subst w'.
  split; [apply (parse_message_create_bounded data (max_messages (conn w)) w);
          split; [split; assumption | reflexivity] |].
  rewrite parse_message_create_eq.
  destruct (py_get data "channel_id") as [e|id] eqn:Hid.
  { split; [reflexivity | discriminate]. }
  destruct (snd (get_channel id w)) as [e|channel] eqn:Hget.
  { split; [reflexivity | discriminate]. }
  destruct (Message_new channel data) as [e|message] eqn:Hnew.
  { split; [reflexivity | discriminate]. }
  cbn [fst snd].
  split; [discriminate |]. intros _.
  exists id, channel, message.
  destruct (deque_append_bounded message (messages (conn w)) Hlen) as [Hb Hitems].
  split; [reflexivity |]. split; [exact Hget |]. split; [exact Hnew |].
  split; [reflexivity |].
  cbn [conn with_conn emit messages set_messages].
  split; [rewrite Hitems, Hmax; reflexivity |]. split.
  { intros Hpos. rewrite Hitems.
    destruct (Z.ltb_spec (Z.of_nat (length (items (messages (conn w)))))
                         (maxlen (messages (conn w)))) as [_|Hfull].
    - apply last_snoc.
    - destruct (items (messages (conn w))) as [|x rest] eqn:E; [simpl in Hfull; lia |].
      cbn [app drop]. apply last_snoc. }
  split; [split; [exact Hmax | exact Hb] |].
  split; [destruct w as [[] ? ? ? ? ? ? ?]; reflexivity | reflexivity].
Qed.

(** A message-delete event for a cached message announces the message
    and takes it, and it alone, out of the cache, the others keeping
    their order; a message-delete or message-update event for an id that
    is not cached changes nothing and announces nothing. *)
Theorem message_delete_removes (fields : list (string * json)) (w : World) :
  let id := default JNull (assoc "id" fields) in
  let found := utils_find (fun m => message_has_id m id) (items (messages (conn w))) in
  (forall i message,
      found = Some i ->
      items (messages (conn w)) !! i = Some message ->
      let w' := fst (parse_message_delete (JDict fields) w) in
      snd (parse_message_delete (JDict fields) w) = ok tt
      /\ effects w' = effects w ++ [Dispatch "message_delete" [ArgMessage message]]
      /\ items (messages (conn w'))
         = take i (items (messages (conn w))) ++ drop (S i) (items (messages (conn w)))
      /\ S (length (items (messages (conn w')))) = length (items (messages (conn w)))
      /\ maxlen (messages (conn w')) = maxlen (messages (conn w)))
  /\ (found = None ->
      parse_message_delete (JDict fields) w = (w, ok tt)
      /\ parse_message_update (JDict fields) w = (w, ok tt)).
Proof.
  intros id found. split.
  - intros i message Hfound Hat w'. subst w'.
    unfold parse_message_delete, _get_message. cbn [py_get]. rewrite bind_lift_ok, bind_gets.
    fold id. fold found. rewrite Hfound. rewrite bind_gets, Hat.
    unfold dispatch. rewrite bind_modify. unfold modify.
    cbn [fst snd conn with_conn emit messages set_messages items maxlen effects].
    split; [reflexivity |]. split; [reflexivity |]. split; [apply delete_take_drop |].
    split; [| reflexivity].
    rewrite length_delete by (rewrite Hat; eauto).
    apply lookup_lt_Some in Hat. lia.
  - intros Hnone. split.
    + unfold parse_message_delete, _get_message. cbn [py_get].
      rewrite bind_lift_ok, bind_gets.
      fold id. fold found. rewrite Hnone. reflexivity.
    + unfold parse_message_update, _get_message. cbn [py_get].
      rewrite bind_lift_ok, bind_gets.
      fold id. fold found. rewrite Hnone. reflexivity.
Qed.

(** *** Facts: sending, and the keep-alive thread *)

Lemma send_as_json_eq (closed : option Z) (data : json) (w : World) :
  send_as_json closed data w
  = match closed with
    | None => (emit (SendAsJson data) w, ok tt)
    | Some code => if fatal closed then (w, throw (ConnectionClosed code)) else (w, ok tt)
    end.
Proof.
  unfold send_as_json, fatal. destruct closed as [code|]; [| reflexivity].
  destruct (negb (_can_handle_close code)); reflexivity.
Qed.

Lemma run_turn_running (closed : option Z) (k : KeepAliveHandler) (w : World) :
  _keep_alive (ws w) = Some k -> stopped k = false ->
  run_turn closed w
  = (if fatal closed
     then with_ws (set_keep_alive (Some (mkKeepAlive (interval_ms k) true))) w
     else if is_open closed then emit (SendAsJson (heartbeat (sequence (conn w)))) w else w,
     ok true).
Proof.
  intros Hk Hs. unfold run_turn. rewrite bind_gets, Hk, Hs.
  unfold get_payload. rewrite bind_gets. unfold bind at 1.
  rewrite send_as_json_eq. unfold heartbeat.
  destruct closed as [code|]; cbn [is_open]; [| reflexivity].
  destruct (fatal (Some code)); [| reflexivity].
  unfold stop, modify, with_ws, ret. cbn. rewrite Hk. reflexivity.
Qed.

Lemma run_turn_stopped (closed : option Z) (w : World) :
  ~ running w -> run_turn closed w = (w, ok false).
Proof.
  intros Hnot. unfold run_turn. rewrite bind_gets.
  destruct (_keep_alive (ws w)) as [k|] eqn:Hk; [| reflexivity].
  destruct (stopped k) eqn:Hs; [reflexivity |].
  exfalso. apply Hnot. exists k. split; assumption.
Qed.

Lemma run_stopped (beats : list (option Z)) (w : World) :
  ~ running w -> run beats w = (w, ok tt).
Proof.
  intros Hnot. destruct beats as [|closed rest]; [reflexivity |].
  cbn [run]. unfold bind. rewrite (run_turn_stopped closed w Hnot). reflexivity.
Qed.

Lemma run_running (beats : list (option Z)) (k : KeepAliveHandler) :
  forall w,
    _keep_alive (ws w) = Some k -> stopped k = false ->
    run beats w
    = (with_ws (set_keep_alive (Some (mkKeepAlive (interval_ms k) (existsb fatal beats))))
         (foldl (fun w _ => emit (SendAsJson (heartbeat (sequence (conn w)))) w) w
                (List.filter is_open (beats_before_fatal beats))),
       ok tt).
Proof.
  induction beats as [|closed rest IH]; intros w Hk Hs.
  - cbn. destruct w as [c [l a] f nf e ne t eff]. cbn in *. subst a.
    destruct k as [ms st]. cbn in Hs. subst st. reflexivity.
  - cbn [run]. unfold bind. rewrite (run_turn_running closed k w Hk Hs).
    cbn [existsb beats_before_fatal].
    destruct (fatal closed) eqn:Hf.
    + cbn [orb List.filter foldl].
      rewrite run_stopped; [reflexivity |].
      intros (k' & Hk' & Hs'). cbn in Hk'. injection Hk' as <-. discriminate Hs'.
    + cbn [orb List.filter]. destruct (is_open closed); cbn [foldl].
      * rewrite IH; [reflexivity | exact Hk | exact Hs].
      * rewrite IH; [reflexivity | exact Hk | exact Hs].
Qed.

(** While it runs, the keep-alive sends at every beat at which the
    socket is open a heartbeat that carries the stored sequence; a beat
    at which the socket is closed with a code that can be handled sends
    nothing and the thread goes on; at the first beat at which the socket
    is closed with any other code the handler stops itself, and no later
    beat sends anything. The thread touches nothing but the trace and its
    own stop flag. *)
Theorem keep_alive_beats_until_fatal (beats : list (option Z)) (k : KeepAliveHandler)
    (w : World) :
  _keep_alive (ws w) = Some k ->
  stopped k = false ->
  let w' := fst (run beats w) in
  snd (run beats w) = ok tt
  /\ effects w'
     = effects w
       ++ map (fun _ => SendAsJson (heartbeat (sequence (conn w))))
              (List.filter is_open (beats_before_fatal beats))
  /\ _keep_alive (ws w') = Some (mkKeepAlive (interval_ms k) (existsb fatal beats))
  /\ conn w' = conn w
  /\ _dispatch_listeners (ws w') = _dispatch_listeners (ws w)
  /\ futures w' = futures w
  /\ tasks w' = tasks w.
Proof.
  intros Hk Hs w'. subst w'. rewrite (run_running beats k w Hk Hs). cbn [fst snd].
  assert (Hfold : forall l w0,
    let w1 := foldl (fun w (_ : option Z) => emit (SendAsJson (heartbeat (sequence (conn w)))) w)
                    w0 l in
    effects w1 = effects w0 ++ map (fun _ => SendAsJson (heartbeat (sequence (conn w0)))) l
    /\ conn w1 = conn w0 /\ ws w1 = ws w0 /\ futures w1 = futures w0 /\ tasks w1 = tasks w0).
  { induction l as [|x l IH]; intros w0; cbn.
    - rewrite app_nil_r. repeat split; reflexivity.
    - destruct (IH (emit (SendAsJson (heartbeat (sequence (conn w0)))) w0))
        as (He & Hc & Hw & Hf & Ht).
      cbn in *. rewrite He, Hc, Hw, Hf, Ht, <- app_assoc. repeat split; reflexivity. }
  destruct (Hfold (List.filter is_open (beats_before_fatal beats)) w)
    as (He & Hc & Hw & Hf & Ht).
  cbn in *. rewrite He, Hc, Hw, Hf, Ht. repeat split; reflexivity.
Qed.

Lemma close_not_running (w : World) : ~ running (fst (close w)).
Proof.
  unfold close, bind, modify. cbn [fst].
  intros (k & Hk & Hs). cbn in Hk.
  destruct (_keep_alive (ws w)) as [k0|] eqn:E; cbn in Hk; rewrite ?E in Hk;
    [injection Hk as <-; discriminate Hs | discriminate Hk].
Qed.

(** Once the socket is closed by the client, or by a RECONNECT frame,
    the keep-alive is stopped for good: whatever the beats that follow,
    the thread sends nothing and changes nothing. The same holds as long
    as no keep-alive was started. *)
Theorem closed_socket_sends_no_heartbeat (beats : list (option Z)) (w : World) :
  run beats (fst (close w)) = (fst (close w), ok tt)
  /\ effects (fst (close w)) = effects w ++ [SocketClosed]
  /\ (forall fields,
        py_eq_int (default JNull (assoc "op" fields)) RECONNECT = true ->
        let w1 := fst (received_message (JDict fields) w) in
        run beats w1 = (w1, ok tt))
  /\ (_keep_alive (ws w) = None -> run beats w = (w, ok tt)).
Proof.
  split; [apply run_stopped, close_not_running |]. split.
  { unfold close, bind, modify. reflexivity. }
  split.
  - intros fields Hop w1. subst w1. apply run_stopped.
    rewrite received_message_tests. unfold handle_op. rewrite Hop.
    unfold log_info. rewrite bind_modify.
    intros (k & Hk & Hs). unfold bind at 1 in Hk.
    set (w0 := emit (Logged "Receivede RECONNECT opcode.") (before_tests fields w)) in *.
    pose proof (close_not_running w0) as Hnot.
    destruct (close w0) as [w2 [e|[]]] eqn:Hclose; cbn [fst snd] in *.
    + apply Hnot. exists k. split; assumption.
    + apply Hnot. exists k. split; assumption.
  - intros Hnone. apply run_stopped. intros (k & Hk & _). congruence.
Qed.

Lemma invalidate_clears_sequence (fields : list (string * json)) (w : World) :
  py_eq_int (default JNull (assoc "op" fields)) INVALIDATE_SESSION = true ->
  stored_sequence (fst (received_message (JDict fields) w)) = JNull.
Proof.
  intros Hop. rewrite received_message_tests. unfold handle_op.
  assert (Hr : py_eq_int (default JNull (assoc "op" fields)) RECONNECT = false).
  { destruct (default JNull (assoc "op" fields)) as [|b|z| | |]; try discriminate Hop.
    - destruct b; discriminate Hop.
    - simpl in *. apply Z.eqb_eq in Hop. subst z. reflexivity. }
  rewrite Hr, Hop. reflexivity.
Qed.

(** The heartbeat sent after a frame carries the sequence of that
    frame: when a frame has a top-level [s] and leaves the keep-alive
    running, the next beat on the open socket sends the HEARTBEAT opcode
    with that [s], and with [None] when the frame was an
    INVALIDATE_SESSION. The [parse_*] handlers that work on the absent
    classes are taken not to assign [sequence]. *)
Theorem heartbeat_carries_last_sequence (fields : list (string * json)) (s : json)
    (w : World) :
  (forall parser data, keeps stored_sequence (parse_absent parser data)) ->
  assoc "s" fields = Some s ->
  let invalidated := py_eq_int (default JNull (assoc "op" fields)) INVALIDATE_SESSION in
  let w' := fst (received_message (JDict fields) w) in
  running w' ->
  run_turn None w'
  = (emit (SendAsJson (JDict [("op", JInt 1); ("d", if invalidated then JNull else s)])) w',
     ok true).
Proof.
  intros Habsent Hs invalidated w' (k & Hk & Hstopped).
  rewrite (run_turn_running None k w' Hk Hstopped). cbn [fatal is_open].
  unfold heartbeat. repeat f_equal. subst w'.
  destruct invalidated eqn:Hinv; subst invalidated.
  - apply (invalidate_clears_sequence fields w Hinv).
  - apply (received_message_stores_sequence fields s w Habsent Hs Hinv).
Qed.

(** *** Facts: the voice state *)

Lemma forget_on_leave (guild_id channel : json) (w1 : World) :
  hashable guild_id = true ->
  let tail := match channel with
              | JNull => _remove_voice_client guild_id
              | _ => ret tt
              end w1 in
  snd tail = ok tt
  /\ effects (fst tail) = effects w1
  /\ (channel <> JNull -> conn (fst tail) = conn w1)
  /\ (channel = JNull ->
      snd (_get_voice_client guild_id (fst tail)) = ok None
      /\ forall other, py_eq guild_id other = false ->
           snd (_get_voice_client other (fst tail)) = snd (_get_voice_client other w1)).
Proof.
  intros Hk tail. subst tail.
  destruct (dict_pop_hashable guild_id (_voice_clients (conn w1)) Hk) as [d Hd].
  assert (Hrem : _remove_voice_client guild_id w1 = (with_conn (set_voice_clients d) w1, ok tt)).
  { unfold _remove_voice_client. rewrite bind_gets. unfold bind, lift. rewrite Hd. reflexivity. }
  destruct channel;
    try (cbn [fst snd ret]; split; [reflexivity |]; split; [reflexivity |];
         split; [reflexivity | discriminate]).
  rewrite Hrem. cbn [fst snd effects with_conn].
  split; [reflexivity |]. split; [reflexivity |]. split; [contradiction |].
  intros _. unfold _get_voice_client. split.
  - rewrite bind_gets. unfold lift. cbn [snd conn with_conn _voice_clients set_voice_clients].
    apply (dict_get_pop_eq guild_id _ d Hk Hd).
  - intros other Hne. rewrite !bind_gets. unfold lift.
    cbn [snd conn with_conn _voice_clients set_voice_clients].
    rewrite (dict_get_pop_ne guild_id other _ d Hd Hne). reflexivity.
Qed.

Lemma voice_state_eq (closed : option Z) (guild_id channel : json)
    (self_mute self_deaf : bool) (w : World) :
  voice_state closed guild_id channel self_mute self_deaf w
  = let payload :=
      JDict [("op", JInt VOICE_STATE);
             ("d", JDict [("guild_id", guild_id); ("channel_id", channel);
                          ("self_mute", JBool self_mute); ("self_deaf", JBool self_deaf)])] in
    let tail := match channel with
                | JNull => _remove_voice_client guild_id
                | _ => ret tt
                end in
    match closed with
    | None => tail (emit (SendAsJson payload) w)
    | Some code => if fatal closed then (w, throw (ConnectionClosed code)) else tail w
    end.
Proof.
  unfold voice_state. unfold bind at 1. rewrite send_as_json_eq.
  destruct closed as [code|]; [| reflexivity].
  destruct (fatal (Some code)); reflexivity.
Qed.

(** [voice_state] raises when the socket is closed with a code that
    cannot be handled, and then the voice clients are as before, also
    when the client was leaving. Otherwise it returns: the frame is sent
    if the socket is open and silently dropped if it is closed with a
    code that can be handled; with a channel the cache is not touched,
    and with [None] for the channel the voice client of that server is
    forgotten, the voice clients of the other servers staying. *)
Theorem leaving_voice_forgets_client (closed : option Z) (guild_id channel : json)
    (self_mute self_deaf : bool) (w : World) :
  hashable guild_id = true ->
  let run := voice_state closed guild_id channel self_mute self_deaf w in
  let payload :=
    JDict [("op", JInt 4);
           ("d", JDict [("guild_id", guild_id); ("channel_id", channel);
                        ("self_mute", JBool self_mute); ("self_deaf", JBool self_deaf)])] in
  (forall code, closed = Some code -> fatal closed = true ->
      run = (w, throw (ConnectionClosed code)))
  /\ (fatal closed = false ->
      snd run = ok tt
      /\ effects (fst run) = effects w ++ (if is_open closed then [SendAsJson payload] else [])
      /\ (channel <> JNull -> conn (fst run) = conn w)
      /\ (channel = JNull ->
          snd (_get_voice_client guild_id (fst run)) = ok None
          /\ forall other, py_eq guild_id other = false ->
               snd (_get_voice_client other (fst run)) = snd (_get_voice_client other w))).
Proof.
  intros Hk run payload. subst run. rewrite voice_state_eq. cbv zeta.
  fold payload. split.
  - intros code -> Hf. rewrite Hf. reflexivity.
  - intros Hf. destruct closed as [code|]; [rewrite Hf |]; cbn [is_open].
    + destruct (forget_on_leave guild_id channel w Hk) as (Hres & Heff & Hkeep & Hleave).
      rewrite app_nil_r. repeat split; try assumption; apply Hleave; assumption.
    + destruct (forget_on_leave guild_id channel (emit (SendAsJson payload) w) Hk)
        as (Hres & Heff & Hkeep & Hleave).
      split; [exact Hres |]. split; [exact Heff |]. split; [exact Hkeep |].
      intros Hnone. destruct (Hleave Hnone) as [Hgone Hothers].
      split; [exact Hgone |]. intros other Hne.
      etransitivity; [apply (Hothers other Hne) | reflexivity].
Qed.

(** *** Facts: the message waiters of the client *)

Lemma settle_waiter_other (message : Message) (c : Client) (entry : MessageWaiter) (f : nat) :
  f <> waiter_future entry ->
  message_future (settle_waiter message c entry) f = message_future c f.
Proof.
  intros Hf. unfold settle_waiter.
  destruct (waiter_cancelled c entry); [reflexivity |].
  destruct (condition entry message) as [e|[|]]; try reflexivity;
    unfold message_future; simpl; apply lookup_total_insert_ne; congruence.
Qed.

Lemma handle_message_loop_spec (message : Message) (c0 : Client)
    (entries : list MessageWaiter) :
  forall i removed c,
    NoDup (map waiter_future entries) ->
    (forall entry, entry ∈ entries ->
        message_future c (waiter_future entry) = message_future c0 (waiter_future entry)) ->
    (forall entry, entry ∈ entries ->
        message_future c0 (waiter_future entry) = MessagePending
        \/ message_future c0 (waiter_future entry) = MessageCancelled) ->
    handle_message_loop message entries i removed c
    = (foldl (settle_waiter message) c entries,
       ok (removed ++ indices_where (waiter_taken c0 message) entries i)).
Proof.
  induction entries as [|entry rest IH]; intros i removed c Hnodup Hsame Hopen.
  - simpl. rewrite app_nil_r. reflexivity.
  - apply NoDup_cons in Hnodup as [Hfresh Hnodup].
    assert (Hnext : forall c',
      (forall f, f <> waiter_future entry -> message_future c' f = message_future c f) ->
      forall entry', entry' ∈ rest ->
        message_future c' (waiter_future entry') = message_future c0 (waiter_future entry')).
    { intros c' Hc' entry' Hin. rewrite Hc'.
      - apply Hsame. right. exact Hin.
      - intros Heq. apply Hfresh. rewrite <- Heq.
        apply list_elem_of_In, in_map, list_elem_of_In, Hin. }
    assert (Hopen' : forall entry', entry' ∈ rest ->
        message_future c0 (waiter_future entry') = MessagePending
        \/ message_future c0 (waiter_future entry') = MessageCancelled).
    { intros entry' Hin. apply Hopen. right. exact Hin. }
    pose proof (Hsame entry ltac:(left)) as Hstate.
    cbn [handle_message_loop foldl indices_where].
    unfold waiter_taken at 1, settle_waiter at 2, waiter_cancelled.
    rewrite Hstate.
    destruct (Hopen entry ltac:(left)) as [Hp | Hc]; [rewrite Hp | rewrite Hc]; cbn [orb].
    + destruct (condition entry message) as [e|[|]].
      * rewrite IH; [rewrite <- app_assoc; reflexivity | exact Hnodup | | exact Hopen'].
        apply Hnext. intros f Hf. unfold message_future. simpl.
        apply lookup_total_insert_ne. congruence.
      * rewrite IH; [rewrite <- app_assoc; reflexivity | exact Hnodup | | exact Hopen'].
        apply Hnext. intros f Hf. unfold message_future. simpl.
        apply lookup_total_insert_ne. congruence.
      * rewrite IH; [reflexivity | exact Hnodup | | exact Hopen'].
        apply Hnext. intros f Hf. reflexivity.
    + rewrite IH; [rewrite <- app_assoc; reflexivity | exact Hnodup | | exact Hopen'].
      apply Hnext. intros f Hf. reflexivity.
Qed.

Lemma settled_waiters (message : Message) (entries : list MessageWaiter) :
  forall c,
    NoDup (map waiter_future entries) ->
    let c' := foldl (settle_waiter message) c entries in
    client_listeners c' = client_listeners c
    /\ next_message_future c' = next_message_future c
    /\ conditions_called c'
       = conditions_called c
         ++ map waiter_future (List.filter (fun entry => negb (waiter_cancelled c entry)) entries)
    /\ (forall f, f ∉ map waiter_future entries -> message_future c' f = message_future c f)
    /\ (forall entry, entry ∈ entries ->
          message_future c' (waiter_future entry)
          = if waiter_cancelled c entry then message_future c (waiter_future entry)
            else match condition entry message with
                 | inl e => MessageExcepted e
                 | inr true => MessageFinished message
                 | inr false => message_future c (waiter_future entry)
                 end).
Proof.
  induction entries as [|entry rest IH]; intros c Hnodup; simpl.
  - rewrite app_nil_r. repeat split; try reflexivity. intros entry Hin. inversion Hin.
  - apply NoDup_cons in Hnodup as [Hfresh Hnodup].
    destruct (IH (settle_waiter message c entry) Hnodup) as (Hl & Hn & Hcalls & Hother & Hsame).
    assert (Hstep : client_listeners (settle_waiter message c entry) = client_listeners c
                    /\ next_message_future (settle_waiter message c entry)
                       = next_message_future c
                    /\ conditions_called (settle_waiter message c entry)
                       = conditions_called c
                         ++ (if waiter_cancelled c entry then [] else [waiter_future entry])).
    { unfold settle_waiter. destruct (waiter_cancelled c entry).
      - rewrite app_nil_r. repeat split; reflexivity.
      - destruct (condition entry message) as [e|[|]]; repeat split; reflexivity. }
    destruct Hstep as (Hl1 & Hn1 & Hc1).
    assert (Hcancel : forall entry', entry' ∈ rest ->
              waiter_cancelled (settle_waiter message c entry) entry'
              = waiter_cancelled c entry').
    { intros entry' Hin. unfold waiter_cancelled. rewrite settle_waiter_other; [reflexivity |].
      intros Heq. apply Hfresh. rewrite <- Heq.
      apply list_elem_of_In, in_map, list_elem_of_In, Hin. }
    split; [congruence |]. split; [congruence |]. split; [| split].
    + rewrite Hcalls, Hc1.
      rewrite (filter_ext_in (fun e => negb (waiter_cancelled (settle_waiter message c entry) e))
                 (fun e => negb (waiter_cancelled c e)) rest).
      * destruct (waiter_cancelled c entry); simpl.
        -- rewrite app_nil_r. reflexivity.
        -- rewrite <- app_assoc. reflexivity.
      * intros e He. rewrite Hcancel; [reflexivity | apply list_elem_of_In, He].
    + intros f Hf. apply not_elem_of_cons in Hf as [Hne Hf].
      rewrite Hother by exact Hf. apply settle_waiter_other. exact Hne.
    + intros entry' Hin. apply elem_of_cons in Hin as [-> | Hin].
      * rewrite Hother by exact Hfresh. unfold settle_waiter.
        destruct (waiter_cancelled c entry) eqn:Hc; [reflexivity |].
        destruct (condition entry message) as [e|[|]]; try reflexivity;
          unfold message_future; simpl; apply lookup_total_insert_eq.
      * rewrite (Hsame entry' Hin), (Hcancel entry' Hin).
        rewrite settle_waiter_other; [reflexivity |].
        intros Heq. apply Hfresh. rewrite <- Heq.
        apply list_elem_of_In, in_map, list_elem_of_In, Hin.
Qed.

Lemma handle_message_ready (message : Message) (c : Client) :
  message_waiters_ready c ->
  handle_message message c
  = (set_client_listeners
       (List.filter (fun entry => negb (waiter_taken c message entry)) (client_listeners c))
       (foldl (settle_waiter message) c (client_listeners c)),
     ok tt).
Proof.
  intros [Hnodup Hopen]. unfold handle_message.
  rewrite (handle_message_loop_spec message c _ 0 [] c Hnodup); [| reflexivity | exact Hopen].
  cbn [app].
  destruct (settled_waiters message _ c Hnodup) as (Hl & _).
  rewrite Hl.
  pose proof (del_indices_where (waiter_taken c message) (client_listeners c) [] []) as Hdel.
  cbn [app length] in Hdel. rewrite !app_nil_r in Hdel.
  rewrite Hdel. reflexivity.
Qed.

(** [handle_message] serves every waiter of [wait_for_message], the
    waiters being well kept. A waiter whose future is cancelled, as it is
    once its wait has timed out, is dropped without its condition being
    called and without its future being touched, and the waiters after
    it are served as if it were not there. The conditions of the other
    waiters are called in registration order; every waiter whose
    condition is true has its future finished with the message, every
    waiter whose condition raises has its future failed with the
    exception, and both leave the list; a waiter whose condition is false
    stays, its future pending. *)
Theorem message_waiters_served (message : Message) (c : Client) :
  message_waiters_ready c ->
  let c' := fst (handle_message message c) in
  let live := List.filter (fun entry => negb (waiter_cancelled c entry)) (client_listeners c) in
  snd (handle_message message c) = ok tt
  /\ conditions_called c' = conditions_called c ++ map waiter_future live
  /\ client_listeners c'
     = List.filter (fun entry => match condition entry message with
                                 | inr false => true
                                 | _ => false
                                 end) live
  /\ (forall entry, entry ∈ client_listeners c ->
        (message_future c (waiter_future entry) = MessageCancelled ->
           message_future c' (waiter_future entry) = MessageCancelled
           /\ entry ∉ client_listeners c')
        /\ (message_future c (waiter_future entry) = MessagePending ->
            match condition entry message with
            | inr true =>
                message_future c' (waiter_future entry) = MessageFinished message
                /\ entry ∉ client_listeners c'
            | inl e =>
                message_future c' (waiter_future entry) = MessageExcepted e
                /\ entry ∉ client_listeners c'
            | inr false =>
                message_future c' (waiter_future entry) = MessagePending
                /\ entry ∈ client_listeners c'
            end))
  /\ (forall f, f ∉ map waiter_future (client_listeners c) ->
        message_future c' f = message_future c f).
Proof.
  intros Hready c' live. subst c' live.
  rewrite (handle_message_ready message c Hready).
  destruct Hready as [Hnodup Hopen].
  destruct (settled_waiters message _ c Hnodup) as (_ & _ & Hcalls & Hother & Hsame).
  cbn [fst snd].
  assert (Hkept : List.filter (fun entry => negb (waiter_taken c message entry))
                              (client_listeners c)
                  = List.filter (fun entry => match condition entry message with
                                              | inr false => true
                                              | _ => false
                                              end)
                      (List.filter (fun entry => negb (waiter_cancelled c entry))
                                   (client_listeners c))).
  { rewrite filter_filter_and. apply filter_ext. intros entry. unfold waiter_taken.
    destruct (waiter_cancelled c entry); [reflexivity |].
    destruct (condition entry message) as [e|[|]]; reflexivity. }
  split; [reflexivity |]. split; [exact Hcalls |]. split; [exact Hkept |].
  split; [| exact Hother].
  intros entry Hin.
  change (message_future (set_client_listeners ?l ?x) ?f) with (message_future x f).
  cbn [client_listeners set_client_listeners].
  rewrite (Hsame entry Hin).
  assert (Hmember : entry ∈ List.filter (fun entry => negb (waiter_taken c message entry))
                                        (client_listeners c)
                    <-> waiter_taken c message entry = false).
  { rewrite list_elem_of_In, filter_In, <- list_elem_of_In, negb_true_iff.
    split; [intros [_ H]; exact H | intros H; split; [exact Hin | exact H]]. }
  unfold waiter_taken, waiter_cancelled in Hmember |- *.
  split.
  - intros Hc. rewrite Hc in Hmember |- *. split; [reflexivity |].
    rewrite Hmember. discriminate.
  - intros Hp. rewrite Hp in Hmember |- *. cbn [orb] in Hmember.
    destruct (condition entry message) as [e|[|]]; (split; [reflexivity |]);
      rewrite Hmember; [discriminate | discriminate | reflexivity].
Qed.

Lemma wait_for_message_wf (predicate : Message -> result bool) (c : Client) :
  message_waiters_wf c -> message_waiters_wf (fst (wait_for_message predicate c)).
Proof.
  intros [[Hnodup Hopen] Hbound]. unfold wait_for_message, message_waiters_wf,
    message_waiters_ready, message_future. cbn [fst client_listeners message_futures
    next_message_future].
  split; [split |].
  - rewrite map_app. apply NoDup_app. split; [exact Hnodup |]. split.
    + intros f Hf Hin. simpl in Hin. apply list_elem_of_singleton in Hin. subst f.
      apply list_elem_of_In, in_map_iff in Hf as (entry & Heq & Hentry).
      apply list_elem_of_In in Hentry. specialize (Hbound entry Hentry). lia.
    + simpl. apply NoDup_singleton.
  - intros entry Hin. apply elem_of_app in Hin as [Hin | Hin].
    + rewrite lookup_total_insert_ne by (specialize (Hbound entry Hin); lia).
      apply Hopen, Hin.
    + apply list_elem_of_singleton in Hin. subst entry. simpl.
      rewrite lookup_total_insert_eq. left. reflexivity.
  - intros entry Hin. apply elem_of_app in Hin as [Hin | Hin].
    + specialize (Hbound entry Hin). lia.
    + apply list_elem_of_singleton in Hin. subst entry. simpl. lia.
Qed.

Lemma wait_timed_out_wf (f : nat) (c : Client) :
  message_waiters_wf c -> message_waiters_wf (wait_timed_out f c).
Proof.
  intros [[Hnodup Hopen] Hbound]. unfold wait_timed_out.
  destruct (message_future c f) eqn:Hf; try (split; [split |]; assumption).
  unfold message_waiters_wf, message_waiters_ready, message_future, set_message_future.
  cbn [client_listeners message_futures next_message_future].
  split; [split |]; [exact Hnodup | | exact Hbound].
  intros entry Hin. destruct (decide (waiter_future entry = f)) as [-> | Hne].
  - rewrite lookup_total_insert_eq. right. reflexivity.
  - rewrite lookup_total_insert_ne by congruence. apply Hopen, Hin.
Qed.

Lemma handle_message_wf (message : Message) (c : Client) :
  message_waiters_wf c -> message_waiters_wf (fst (handle_message message c)).
Proof.
  intros [Hready Hbound]. rewrite (handle_message_ready message c Hready).
  destruct Hready as [Hnodup Hopen].
  destruct (settled_waiters message _ c Hnodup) as (_ & Hnext & _ & _ & Hsame).
  cbn [fst]. unfold message_waiters_wf, message_waiters_ready.
  cbn [client_listeners set_client_listeners next_message_future].
  change (message_future (set_client_listeners ?l ?x)) with (message_future x).
  split; [split |].
  - apply NoDup_map_filter, Hnodup.
  - intros entry Hin. apply list_elem_of_In, filter_In in Hin as [Hin Hkept].
    apply list_elem_of_In in Hin. rewrite (Hsame entry Hin).
    apply negb_true_iff in Hkept. unfold waiter_taken in Hkept.
    apply orb_false_iff in Hkept as [Hc Hcond]. rewrite Hc.
    destruct (condition entry message) as [e|[|]]; try discriminate.
    apply Hopen, Hin.
  - intros entry Hin. apply list_elem_of_In, filter_In in Hin as [Hin _].
    rewrite Hnext. apply Hbound, list_elem_of_In, Hin.
Qed.

Lemma waiter_steps_wf (steps : list WaiterStep) :
  forall c, message_waiters_wf c ->
            message_waiters_wf (foldl (fun c step => waiter_step step c) c steps).
Proof.
  induction steps as [|step rest IH]; intros c H; [exact H |].
  cbn [foldl]. apply IH. destruct step; cbn [waiter_step].
  - apply wait_for_message_wf, H.
  - apply wait_timed_out_wf, H.
  - apply handle_message_wf, H.
Qed.

(** The message waiters of a client stay well kept: starting with no
    waiter, through any run of registrations by [wait_for_message], of
    waits that time out and of messages handled, no two waiters share a
    future, every waiter in the list has a future that is pending or
    cancelled, and [handle_message] returns without raising. A wait that
    has just been registered is pending and in the list, and once it has
    timed out the next message drops it. *)
Theorem message_waiters_stay_ready (steps : list WaiterStep) :
  let c := foldl (fun c step => waiter_step step c) (mkClient [] ∅ 0 []) steps in
  message_waiters_ready c
  /\ (forall message, snd (handle_message message c) = ok tt)
  /\ (forall predicate message,
        let registered := wait_for_message predicate c in
        let f := snd registered in
        message_future (fst registered) f = MessagePending
        /\ mkMessageWaiter predicate f ∈ client_listeners (fst registered)
        /\ mkMessageWaiter predicate f
           ∉ client_listeners (fst (handle_message message (wait_timed_out f (fst registered))))).
Proof.
  intros c.
  assert (Hwf : message_waiters_wf c).
  { subst c. apply waiter_steps_wf.
    split; [split |]; cbn; [constructor | |]; intros entry Hin; inversion Hin. }
  split; [exact (proj1 Hwf) |]. split.
  - intros message. rewrite (handle_message_ready message c (proj1 Hwf)). reflexivity.
  - intros predicate message registered f.
    pose proof (wait_for_message_wf predicate c Hwf) as Hreg. fold registered in Hreg.
    assert (Hpending : message_future (fst registered) f = MessagePending).
    { subst f registered. unfold wait_for_message, message_future. cbn.
      apply lookup_total_insert_eq. }
    assert (Hin : mkMessageWaiter predicate f ∈ client_listeners (fst registered)).
    { subst f registered. unfold wait_for_message. cbn. apply elem_of_app. right. left. }
    split; [exact Hpending |]. split; [exact Hin |].
    pose proof (wait_timed_out_wf f (fst registered) Hreg) as Hout.
    rewrite (handle_message_ready message _ (proj1 Hout)). cbn [fst client_listeners
      set_client_listeners].
    intros Hkept. apply list_elem_of_In, filter_In in Hkept as [_ Hkept].
    apply negb_true_iff in Hkept. unfold waiter_taken in Hkept.
    apply orb_false_iff in Hkept as [Hc _].
    unfold waiter_cancelled, wait_timed_out in Hc. rewrite Hpending in Hc.
    unfold message_future, set_message_future in Hc. cbn in Hc.
    rewrite lookup_total_insert_eq in Hc. discriminate.
Qed.

(** *** Facts: closing the client, and the loop of [connect] *)

Lemma remove_voice_client_hashable (k : json) (w : World) :
  hashable k = true ->
  _remove_voice_client k w
  = (with_conn (set_voice_clients
                  (List.filter (fun kv => negb (py_eq (fst kv) k)) (_voice_clients (conn w)))) w,
     ok tt).
Proof.
  intros Hk. unfold _remove_voice_client. rewrite bind_gets. unfold bind, lift, dict_pop.
  rewrite Hk. destruct (_voice_clients (conn w)) eqn:E; reflexivity.
Qed.

Lemma disconnect_voices_ok (voices : list VoiceHandle) :
  (forall voice, hashable (voice_server_id voice) = true) ->
  forall w, snd (disconnect_voices voices w) = ok tt.
Proof.
  intros Hhash. induction voices as [|voice rest IH]; intros w; [reflexivity |].
  cbn [disconnect_voices]. unfold bind at 1. cbn [fst snd].
  unfold bind at 1. rewrite (remove_voice_client_hashable _ _ (Hhash voice)). apply IH.
Qed.

Lemma disconnect_voices_forgets (voices : list VoiceHandle) :
  (forall voice, hashable (voice_server_id voice) = true) ->
  disconnect_adds_nothing ->
  forall w,
    registered_by_server (_voice_clients (conn w)) ->
    forall k v,
      (k, v) ∈ _voice_clients (conn (fst (disconnect_voices voices w))) ->
      (k, v) ∈ _voice_clients (conn w) /\ v ∉ voices.
Proof.
  intros Hhash Hadds. induction voices as [|voice rest IH]; intros w Hreg k v Hin.
  - split; [exact Hin | intros H; inversion H].
  - cbn [disconnect_voices] in Hin. unfold bind at 1 in Hin. cbn [fst snd] in Hin.
    unfold bind at 1 in Hin.
    rewrite (remove_voice_client_hashable _ _ (Hhash voice)) in Hin.
    set (w1 := fst (voice_disconnect voice w)) in *.
    set (w2 := with_conn (set_voice_clients
                 (List.filter (fun kv => negb (py_eq (fst kv) (voice_server_id voice)))
                              (_voice_clients (conn w1)))) w1) in *.
    assert (Hsub : forall k' v', (k', v') ∈ _voice_clients (conn w2) ->
                     (k', v') ∈ _voice_clients (conn w)
                     /\ py_eq k' (voice_server_id voice) = false).
    { intros k' v' H. subst w2. cbn in H.
      apply list_elem_of_In, filter_In in H as [H Hne]. apply list_elem_of_In in H.
      split; [apply (Hadds voice w), H | apply negb_true_iff, Hne]. }
    assert (Hreg2 : registered_by_server (_voice_clients (conn w2))).
    { intros k' v' H. apply Hreg, Hsub, H. }
    destruct (IH w2 Hreg2 k v Hin) as [Hin2 Hrest].
    destruct (Hsub k v Hin2) as [Hin0 Hne].
    split; [exact Hin0 |].
    intros Hmem. apply elem_of_cons in Hmem as [-> | Hmem]; [| exact (Hrest Hmem)].
    rewrite (Hreg k voice Hin0) in Hne. discriminate.
Qed.

Lemma Client_close_open (ws_open0 : bool) (flags : ClientFlags) (w : World) :
  (forall voice, hashable (voice_server_id voice) = true) ->
  _closed flags = false ->
  Client_close ws_open0 flags w
  = (let w1 := fst (disconnect_voices (dict_values (_voice_clients (conn w))) w) in
     if ws_open0 then fst (close w1) else w1,
     ok (mkClientFlags true false false)).
Proof.
  intros Hhash Hopen. unfold Client_close. rewrite Hopen.
  unfold voice_clients. rewrite bind_gets. unfold bind at 1.
  pose proof (disconnect_voices_ok (dict_values (_voice_clients (conn w))) Hhash w) as Hok.
  destruct (disconnect_voices (dict_values (_voice_clients (conn w))) w) as [w1 r].
  cbn [fst snd] in *. subst r. destruct ws_open0; reflexivity.
Qed.

(** [Client.close] closes the client once: on a client that is not
    closed it returns with the client closed, not ready and its HTTP
    session closed, having stopped the keep-alive and closed the socket
    if the socket was open; on a closed client it does nothing, so a
    second call changes nothing. Every voice client being registered
    under the id of its server, and [disconnect] registering none, no
    voice client is left in the cache. The ids of the servers of the
    voice clients are taken to be hashable. *)
Theorem client_close_is_final (socket_open : bool) (flags : ClientFlags) (w : World) :
  (forall voice, hashable (voice_server_id voice) = true) ->
  let w' := fst (Client_close socket_open flags w) in
  (_closed flags = true -> Client_close socket_open flags w = (w, ok flags))
  /\ (_closed flags = false ->
      snd (Client_close socket_open flags w) = ok (mkClientFlags true false false)
      /\ (forall again, Client_close again (mkClientFlags true false false) w'
                        = (w', ok (mkClientFlags true false false)))
      /\ (socket_open = true ->
          ~ running w' /\ exists before, effects w' = before ++ [SocketClosed])
      /\ (socket_open = false ->
          w' = fst (disconnect_voices (dict_values (_voice_clients (conn w))) w))
      /\ (registered_by_server (_voice_clients (conn w)) ->
          disconnect_adds_nothing ->
          _voice_clients (conn w') = [])).
Proof.
  intros Hhash w'. split.
  - intros Hc. unfold Client_close. rewrite Hc. reflexivity.
  - intros Hopen. subst w'. rewrite (Client_close_open socket_open flags w Hhash Hopen).
    cbn [fst snd].
    set (w1 := fst (disconnect_voices (dict_values (_voice_clients (conn w))) w)).
    split; [reflexivity |]. split; [reflexivity |]. split; [| split].
    + intros ->. split; [apply close_not_running |].
      exists (effects w1). unfold close, bind, modify. reflexivity.
    + intros ->. reflexivity.
    + intros Hreg Hadds.
      assert (Hconn : conn (if socket_open then fst (close w1) else w1) = conn w1).
      { destruct socket_open; [| reflexivity]. unfold close, bind, modify. reflexivity. }
      rewrite Hconn.
      destruct (_voice_clients (conn w1)) as [|[k v] rest] eqn:E; [reflexivity |].
      exfalso.
      destruct (disconnect_voices_forgets (dict_values (_voice_clients (conn w)))
                  Hhash Hadds w Hreg k v) as [Hin Hnot].
      { fold w1. rewrite E. left. }
      apply Hnot. unfold dict_values.
      apply list_elem_of_In, in_map_iff. exists (k, v). split; [reflexivity |].
      apply list_elem_of_In, Hin.
Qed.

Lemma poll_event_closed_eq (code : Z) (w : World) :
  poll_event (Closed code) w
  = if _can_handle_close code
    then (emit (Logged "Websocket closed, attempting a reconnect.") w, throw ReconnectWebSocket)
    else (w, throw (ConnectionClosed code)).
Proof. unfold poll_event. destruct (_can_handle_close code); reflexivity. Qed.

Lemma from_client_socket (token : json) (a : Attempt) (w w' : World)
    (socket : DiscordWebSocket) :
  from_client token a w = (w', inr socket) ->
  socket = mkWebSocket [] None
  /\ conn w' = conn w /\ ws w' = ws w /\ futures w' = futures w /\ tasks w' = tasks w
  /\ exists sent,
       effects w'
       = effects w ++ [Logged "Created websocket connected to the gateway"] ++ sent
         ++ [Logged "sent the identify payload to create the websocket"]
       /\ (identify_closed a = None -> sent = [SendAsJson (identify_payload token)])
       /\ (identify_closed a <> None -> sent = []).
Proof.
  unfold from_client. destruct (get_gateway a) as [e|gateway]; [discriminate |].
  destruct (connect_raises a); [discriminate |].
  rewrite send_as_json_eq.
  destruct (identify_closed a) as [code|].
  - destruct (fatal (Some code)); [discriminate |].
    intros [= <- <-]. cbn. repeat split; try reflexivity.
    exists []. split; [rewrite <- app_assoc; reflexivity |].
    split; [discriminate | reflexivity].
  - intros [= <- <-]. cbn. repeat split; try reflexivity.
    exists [SendAsJson (identify_payload token)].
    split; [rewrite <- !app_assoc; reflexivity |].
    split; [reflexivity | contradiction].
Qed.

(** One turn of the loop of [connect], on a client that is not closed:
    a poll that returns leaves the loop running and the client as it
    was. A poll that asks for a reconnect (a RECONNECT frame, or the
    closure of the socket with a code that can be handled) makes a new
    socket: its waiters and its keep-alive are not those of the old
    socket, which are dropped, while the cache, the futures and the tasks
    are kept, and an IDENTIFY is sent; when the reconnection fails its
    exception is raised and the old socket stays. A poll that raises the
    connection-closed error closes the client and then raises it again
    unless the code is 1000, in which case the next turn returns. Any
    other exception of a poll is raised again and the client is not
    closed. *)
Theorem connect_turn_outcomes (token : json) (t : Turn) (flags : ClientFlags) (w : World) :
  (forall voice, hashable (voice_server_id voice) = true) ->
  _closed flags = false ->
  let polled_world := fst (poll_event (polled t) w) in
  let outcome := snd (poll_event (polled t) w) in
  let turn := connect_turn token t flags w in
  (outcome = ok tt -> turn = ((flags, polled_world), inr Looping))
  /\ (outcome = throw ReconnectWebSocket ->
      let attempt := from_client token (reconnection t)
                       (emit (Logged "Reconnecting the websocket.") polled_world) in
      (forall e, snd attempt = inl e ->
          turn = ((flags, fst attempt), inl e) /\ ws (fst attempt) = ws polled_world)
      /\ (forall socket, snd attempt = inr socket ->
          snd turn = inr Looping
          /\ fst (fst turn) = flags
          /\ ws (snd (fst turn)) = mkWebSocket [] None
          /\ conn (snd (fst turn)) = conn polled_world
          /\ futures (snd (fst turn)) = futures polled_world
          /\ tasks (snd (fst turn)) = tasks polled_world))
  /\ (forall code, outcome = throw (ConnectionClosed code) ->
      _closed (fst (fst turn)) = true
      /\ _is_ready (fst (fst turn)) = false
      /\ (code <> 1000 -> snd turn = inl (Raised (ConnectionClosed code)))
      /\ (code = 1000 ->
          snd turn = inr Looping
          /\ forall t', connect_turn token t' (fst (fst turn)) (snd (fst turn))
                        = (fst turn, inr Returned)))
  /\ (forall e, outcome = throw e -> e <> ReconnectWebSocket ->
      (forall code, e <> ConnectionClosed code) ->
      turn = ((flags, polled_world), inl (Raised e)))
  /\ (forall code, polled t = Closed code ->
      outcome = if _can_handle_close code then throw ReconnectWebSocket
                else throw (ConnectionClosed code)).
Proof.
  intros Hhash Hopen polled_world outcome turn.
  subst turn. unfold connect_turn. rewrite Hopen.
  subst polled_world outcome.
  destruct (poll_event (polled t) w) as [w1 r] eqn:Hpoll. cbn [fst snd].
  split; [| split; [| split; [| split]]].
  - intros ->. reflexivity.
  - intros ->. cbv zeta.
    destruct (from_client token (reconnection t)
                (emit (Logged "Reconnecting the websocket.") w1)) as [w2 [e|socket]] eqn:Hfc;
      cbn [fst snd].
    + split; [| discriminate]. intros e' [= <-]. split; [reflexivity |].
      unfold from_client in Hfc.
      destruct (get_gateway (reconnection t)); [injection Hfc as <- _; reflexivity |].
      destruct (connect_raises (reconnection t)); [injection Hfc as <- _; reflexivity |].
      rewrite send_as_json_eq in Hfc.
      destruct (identify_closed (reconnection t)) as [code|]; [| discriminate].
      destruct (fatal (Some code)); [| discriminate]. injection Hfc as <- _. reflexivity.
    + split; [discriminate |]. intros socket' [= <-].
      destruct (from_client_socket _ _ _ _ _ Hfc) as (-> & Hc & _ & Hf & Ht & _).
      cbn. repeat split; assumption.
  - intros code ->.
    rewrite (Client_close_open (ws_open t) flags w1 Hhash Hopen).
    destruct (Z.eqb_spec code 1000) as [-> | Hne]; cbn [negb fst snd _closed _is_ready].
    + split; [reflexivity |]. split; [reflexivity |]. split; [contradiction |].
      intros _. split; [reflexivity |]. intros t'. reflexivity.
    + split; [reflexivity |]. split; [reflexivity |]. split; [reflexivity | contradiction].
  - intros e -> Hr Hc.
    destruct e; try reflexivity; [contradiction | exfalso; apply (Hc code); reflexivity].
  - intros code Hp. rewrite Hp, poll_event_closed_eq in Hpoll.
    destruct (_can_handle_close code); injection Hpoll as _ <-; reflexivity.
Qed.

Lemma connect_loop_closed (token : json) (turns : list Turn) (flags : ClientFlags) (w : World) :
  _closed flags = true ->
  connect_loop token turns flags w = ((flags, w), inr Returned).
Proof.
  intros Hc. destruct turns as [|t rest]; cbn [connect_loop].
  - rewrite Hc. reflexivity.
  - unfold connect_turn. rewrite Hc. reflexivity.
Qed.

Lemma connect_loop_returned (token : json) (turns : list Turn) :
  (forall voice, hashable (voice_server_id voice) = true) ->
  forall flags w,
    _closed flags = false ->
    snd (connect_loop token turns flags w) = inr Returned ->
    _closed (fst (fst (connect_loop token turns flags w))) = true
    /\ exists t w0, t ∈ turns /\ snd (poll_event (polled t) w0) = throw (ConnectionClosed 1000).
Proof.
  intros Hhash. induction turns as [|t rest IH]; intros flags w Hopen.
  - cbn. rewrite Hopen. discriminate.
  - assert (Hrest : forall w',
      snd (connect_loop token rest flags w') = inr Returned ->
      _closed (fst (fst (connect_loop token rest flags w'))) = true
      /\ exists t0 w0, t0 ∈ t :: rest
                       /\ snd (poll_event (polled t0) w0) = throw (ConnectionClosed 1000)).
    { intros w' Hr. destruct (IH flags w' Hopen Hr) as [Hc (t0 & w0 & Hin & Hp)].
      split; [exact Hc |]. exists t0, w0. split; [right; exact Hin | exact Hp]. }
    cbn [connect_loop]. unfold connect_turn. rewrite Hopen.
    destruct (poll_event (polled t) w) as [w1 [e|[]]] eqn:Hpoll; [| apply Hrest].
    destruct e; try discriminate.
    + destruct (from_client token (reconnection t)
                  (emit (Logged "Reconnecting the websocket.") w1)) as [w2 [e|socket]];
        [discriminate | apply Hrest].
    + rewrite (Client_close_open (ws_open t) flags w1 Hhash Hopen).
      destruct (Z.eqb_spec code 1000) as [-> | Hne]; cbn [negb]; [| discriminate].
      cbn [fst snd]. rewrite connect_loop_closed by reflexivity. cbn [fst snd].
      intros _. split; [reflexivity |].
      exists t, w. split; [left |]. rewrite Hpoll. reflexivity.
Qed.

(** [connect] returns only once the client is closed, and by itself it
    closes the client only when a poll has raised the connection-closed
    error: if the call returns, some poll raised that error with the
    code 1000; a poll that raises it with another code, or any exception
    but the reconnect request, ends the call with that exception; and a
    first connection that fails ends the call before the loop, the
    client left as it was. *)
Theorem connect_returns_after_clean_close (token : json) (first : Attempt)
    (turns : list Turn) (flags : ClientFlags) (w : World) :
  (forall voice, hashable (voice_server_id voice) = true) ->
  _closed flags = false ->
  let run := connect token first turns flags w in
  (snd run = inr Returned ->
     _closed (fst (fst run)) = true
     /\ exists t w0, t ∈ turns /\ snd (poll_event (polled t) w0) = throw (ConnectionClosed 1000))
  /\ (forall e, snd (from_client token first w) = inl e ->
        snd run = inl e /\ fst (fst run) = flags /\ ws (snd (fst run)) = ws w)
  /\ (gateway_status first <> 200 -> run = ((flags, w), inl GatewayNotFound)).
Proof.
  intros Hhash Hopen run. subst run. unfold connect.
  destruct (from_client token first w) as [w1 [e|socket]] eqn:Hfc; cbn [fst snd];
    (split; [| split]).
  - discriminate.
  - intros e' [= <-]. split; [reflexivity |]. split; [reflexivity |].
    unfold from_client in Hfc.
    destruct (get_gateway first); [injection Hfc as <- _; reflexivity |].
    destruct (connect_raises first); [injection Hfc as <- _; reflexivity |].
    rewrite send_as_json_eq in Hfc.
    destruct (identify_closed first) as [code|]; [| discriminate].
    destruct (fatal (Some code)); [| discriminate]. injection Hfc as <- _. reflexivity.
  - intros Hstatus. unfold from_client, get_gateway in Hfc.
    apply Z.eqb_neq in Hstatus. rewrite Hstatus in Hfc. cbn in Hfc.
    injection Hfc as <- <-. reflexivity.
  - apply connect_loop_returned; assumption.
  - discriminate.
  - intros Hstatus. unfold from_client, get_gateway in Hfc.
    apply Z.eqb_neq in Hstatus. rewrite Hstatus in Hfc. cbn in Hfc. discriminate.
Qed.

(** *** Facts: the guilds of a READY payload *)

Lemma py_eq_trans_r (a b c : json) :
  hashable a = true -> py_eq a b = true -> py_eq c a = py_eq c b.
Proof.
  destruct a as [|x|x|x|x|x], b as [|y|y|y|y|y]; simpl; try discriminate; intros _ Hab;
    destruct c as [|z|z|z|z|z]; simpl; try reflexivity.
  - apply Bool.eqb_prop in Hab. subst. reflexivity.
  - apply Bool.eqb_prop in Hab. subst. reflexivity.
  - apply Z.eqb_eq in Hab. subst y. destruct x, z; reflexivity.
  - apply Z.eqb_eq in Hab. subst y. reflexivity.
  - apply Z.eqb_eq in Hab. subst x. destruct y, z; reflexivity.
  - apply Z.eqb_eq in Hab. subst x. reflexivity.
  - apply Z.eqb_eq in Hab. subst. reflexivity.
  - apply Z.eqb_eq in Hab. subst. reflexivity.
  - apply String.eqb_eq in Hab. subst. reflexivity.
Qed.

Lemma find_pointwise {A} (P Q : A -> bool) (l : list A) :
  (forall x, P x = Q x) -> List.find P l = List.find Q l.
Proof.
  intros Hext. induction l as [|x l IH]; [reflexivity |].
  cbn [List.find]. rewrite Hext, IH. reflexivity.
Qed.

Lemma dict_get_setitem_same {V} (k id : json) (v : V) (d d' : pydict V) :
  dict_setitem k v d = ok d' -> py_eq k id = true -> dict_get id d' = ok (Some v).
Proof.
  intros Hset Heq.
  pose proof (dict_setitem_key k v d d' Hset) as Hk.
  pose proof (dict_get_setitem_eq k v d d' Hset) as Hget.
  unfold dict_get in Hget |- *. rewrite Hk in Hget.
  assert (Hid : hashable id = true).
  { destruct k, id; simpl in Heq |- *; try discriminate; reflexivity. }
  rewrite Hid, <- Hget. f_equal. f_equal.
  apply find_pointwise. intros kv. symmetry. apply py_eq_trans_r; assumption.
Qed.

Lemma add_guilds_cons_eq (guild : json) (rest : list json) (w : World) :
  add_guilds (guild :: rest) w
  = match Server_new guild with
    | inl e => (w, throw e)
    | inr server =>
        match dict_setitem (server_id server) server (_servers (conn w)) with
        | inl e => (w, throw e)
        | inr d =>
            let w1 := with_conn (set_servers d) w in
            if server_large server then
              match _ready_state (conn w) with
              | None => (w1, throw AttributeError)
              | Some staged =>
                  add_guilds rest
                    (with_conn (set_ready_state
                                  (Some (mkReadyState (launch staged)
                                           (servers staged ++ [server])))) w1)
              end
            else add_guilds rest w1
        end
    end.
Proof.
  cbn [add_guilds]. unfold _add_server_from_data, _add_server, stage_server.
  unfold bind at 1 2. unfold lift at 1.
  destruct (Server_new guild) as [e|server]; [reflexivity |].
  unfold bind at 1 2. unfold gets at 1. unfold lift at 1.
  destruct (dict_setitem (server_id server) server (_servers (conn w))) as [e|d];
    [reflexivity |].
  cbv zeta. unfold bind, modify, ret, gets, raise. cbn [fst snd].
  destruct (server_large server); [| reflexivity].
  cbn [conn with_conn _ready_state set_servers].
  destruct (_ready_state (conn w)); reflexivity.
Qed.

Lemma dict_replace_elem {V} (k : json) (v : V) (d d' : pydict V) :
  dict_replace k v d = Some d' ->
  forall k' v', (k', v') ∈ d' -> (k', v') ∈ d \/ v' = v.
Proof.
  revert d'. induction d as [|[k0 v0] rest IH]; intros d' Hrep k' v' Hin; [discriminate |].
  cbn [dict_replace] in Hrep. destruct (py_eq k0 k).
  - injection Hrep as <-. apply elem_of_cons in Hin as [Heq | Hin].
    + injection Heq as -> ->. right. reflexivity.
    + left. apply elem_of_cons. right. exact Hin.
  - destruct (dict_replace k v rest) as [rest'|]; [| discriminate].
    injection Hrep as <-. apply elem_of_cons in Hin as [Heq | Hin].
    + left. rewrite Heq. apply elem_of_cons. left. reflexivity.
    + destruct (IH rest' eq_refl k' v' Hin) as [Hold | Hnew]; [| right; exact Hnew].
      left. apply elem_of_cons. right. exact Hold.
Qed.

(** What a dict holds after [d[k] = v] was there before, or is [v]. *)
Lemma dict_setitem_elem {V} (k : json) (v : V) (d d' : pydict V) :
  dict_setitem k v d = ok d' ->
  forall k' v', (k', v') ∈ d' -> (k', v') ∈ d \/ v' = v.
Proof.
  unfold dict_setitem. destruct (hashable k); [| discriminate].
  destruct (dict_replace k v d) as [d1|] eqn:Hrep; unfold default; cbn;
    intros [= <-] k' v' Hin.
  - apply (dict_replace_elem k v d d1 Hrep k' v' Hin).
  - apply elem_of_app in Hin as [Hin | Hin]; [left; exact Hin |].
    apply list_elem_of_singleton in Hin. injection Hin as -> ->. right. reflexivity.
Qed.

(** One more value set under its key: the last value with a key is the
    one a lookup finds. *)
Lemma lookup_last_step {V} (key : V -> json) (v : V) (made : list V) (d d' : pydict V)
    (id : json) (found : result (option V)) :
  dict_setitem (key v) v d = ok d' ->
  found = match List.find (fun x => py_eq (key x) id) (rev made) with
          | Some x => ok (Some x)
          | None => dict_get id d'
          end ->
  found = match List.find (fun x => py_eq (key x) id) (rev (v :: made)) with
          | Some x => ok (Some x)
          | None => dict_get id d
          end.
Proof.
  intros Hset ->. cbn [rev].
  destruct (List.find (fun x => py_eq (key x) id) (rev made)) as [x|] eqn:Hlast.
  - rewrite (find_app_some _ _ _ (mk_is_Some _ _ Hlast)), Hlast. reflexivity.
  - rewrite (find_app_none _ _ _ Hlast). cbn [List.find].
    destruct (py_eq (key v) id) eqn:Heq.
    + apply (dict_get_setitem_same _ _ _ _ _ Hset Heq).
    + apply (dict_get_setitem_ne _ _ _ _ _ Hset Heq).
Qed.

Lemma member_step {V} (k0 : json) (v : V) (made : list V) (d d' : pydict V)
    (k : json) (x : V) :
  dict_setitem k0 v d = ok d' ->
  (k, x) ∈ d' \/ x ∈ made -> (k, x) ∈ d \/ x ∈ v :: made.
Proof.
  intros Hset [Hin | Hin].
  - destruct (dict_setitem_elem _ _ _ _ Hset k x Hin) as [Hold | ->].
    + left. exact Hold.
    + right. apply elem_of_cons. left. reflexivity.
  - right. apply elem_of_cons. right. exact Hin.
Qed.

(** The guild loop of [parse_ready], when it runs through. *)
Lemma add_guilds_made (guilds : list json) (w : World) :
  snd (add_guilds guilds w) = ok tt ->
  exists made : list Server,
    Forall2 (fun guild server => Server_new guild = ok server) guilds made
    /\ (forall id, hashable id = true ->
          dict_get id (_servers (conn (fst (add_guilds guilds w))))
          = match List.find (fun server => py_eq (server_id server) id) (rev made) with
            | Some server => ok (Some server)
            | None => dict_get id (_servers (conn w))
            end)
    /\ (forall k server, (k, server) ∈ _servers (conn (fst (add_guilds guilds w))) ->
          (k, server) ∈ _servers (conn w) \/ server ∈ made)
    /\ match _ready_state (conn w) with
       | Some staged =>
           _ready_state (conn (fst (add_guilds guilds w)))
           = Some (mkReadyState (launch staged)
                     (servers staged ++ List.filter server_large made))
       | None => List.filter server_large made = []
                 /\ _ready_state (conn (fst (add_guilds guilds w))) = None
       end
    /\ beside_servers (fst (add_guilds guilds w)) = beside_servers w.
Proof.
  revert w. induction guilds as [|guild rest IH]; intros w Hok.
  - exists []. split; [constructor |]. split; [reflexivity |].
    split; [intros k server Hin; left; exact Hin |]. split; [| reflexivity].
    cbn. destruct (_ready_state (conn w)) as [[]|].
    + rewrite app_nil_r. reflexivity.
    + split; reflexivity.
  - revert Hok. rewrite add_guilds_cons_eq.
    destruct (Server_new guild) as [e|server] eqn:Hnew; [discriminate |].
    destruct (dict_setitem (server_id server) server (_servers (conn w))) as [e|d] eqn:Hset;
      [discriminate |].
    cbv zeta.
    destruct (server_large server) eqn:Hlarge.
    + destruct (_ready_state (conn w)) as [staged|] eqn:Hstaged; [| discriminate].
      intros Hok.
      destruct (IH _ Hok) as (made & Hmade & Hfind & Hin & Hready & Hrest).
      exists (server :: made). split; [constructor; assumption |].
      split; [| split; [| split]].
      * intros id Hid. apply (lookup_last_step server_id server made _ d id _ Hset).
        apply (Hfind id Hid).
      * intros k s Hs. apply (member_step _ server made _ d k s Hset). apply (Hin k s Hs).
      * cbn [conn with_conn _ready_state set_ready_state] in Hready.
        rewrite Hready. cbn [launch servers List.filter]. rewrite Hlarge, <- app_assoc.
        reflexivity.
      * rewrite Hrest. reflexivity.
    + intros Hok.
      destruct (IH _ Hok) as (made & Hmade & Hfind & Hin & Hready & Hrest).
      exists (server :: made). split; [constructor; assumption |].
      split; [| split; [| split]].
      * intros id Hid. apply (lookup_last_step server_id server made _ d id _ Hset).
        apply (Hfind id Hid).
      * intros k s Hs. apply (member_step _ server made _ d k s Hset). apply (Hin k s Hs).
      * cbn [conn with_conn _ready_state set_servers] in Hready.
        cbn [List.filter]. rewrite Hlarge. exact Hready.
      * rewrite Hrest. reflexivity.
Qed.

(** After the guild loop of [parse_ready] has run through, every guild of
    the payload has made a server; looking a server up by an id gives
    the server made from the last guild of the payload with that id, and
    for the other ids what was cached before; the servers staged for the
    member chunks are the large ones, once for each guild and in the order
    of the payload, after those staged before; and the loop touches
    nothing else. *)
Theorem ready_guilds_staged_and_found (guilds : list json) (w : World) :
  snd (add_guilds guilds w) = ok tt ->
  let w' := fst (add_guilds guilds w) in
  exists made : list Server,
    Forall2 (fun guild server => Server_new guild = ok server) guilds made
    /\ (forall id, hashable id = true ->
          snd (_get_server id w')
          = match List.find (fun server => py_eq (server_id server) id) (rev made) with
            | Some server => ok (Some server)
            | None => snd (_get_server id w)
            end)
    /\ match _ready_state (conn w) with
       | Some staged =>
           _ready_state (conn w')
           = Some (mkReadyState (launch staged)
                     (servers staged ++ List.filter server_large made))
       | None => List.filter server_large made = [] /\ _ready_state (conn w') = None
       end
    /\ beside_servers w' = beside_servers w.
Proof.
  intros Hok w'. subst w'.
  destruct (add_guilds_made guilds w Hok) as (made & Hmade & Hfind & _ & Hstaged & Hrest).
  exists made. split; [exact Hmade |]. split; [| split; [exact Hstaged | exact Hrest]].
  intros id Hid. unfold _get_server. rewrite !bind_gets. unfold lift. cbn [snd].
  apply Hfind, Hid.
Qed.

(** *** Facts: what READY stores *)

Lemma add_private_channels_cons_eq (pm : json) (rest : list json) (w : World) :
  add_private_channels (pm :: rest) w
  = match private_channel_of pm with
    | inl e => (w, throw e)
    | inr channel =>
        match dict_setitem (channel_id channel) channel (_private_channels (conn w)) with
        | inl e => (w, throw e)
        | inr d =>
            let w1 :=
              with_conn (fun c => set_private_channels d (_private_channels_by_user c) c) w in
            match dict_setitem (user_id (channel_user channel)) channel
                               (_private_channels_by_user (conn w)) with
            | inl e => (w1, throw e)
            | inr u =>
                add_private_channels rest
                  (with_conn (fun c => set_private_channels (_private_channels c) u c) w1)
            end
        end
    end.
Proof.
  cbn [add_private_channels].
  unfold private_channel_of, _add_private_channel, bind, lift, gets, modify, rbind.
  destruct (py_item pm "id") as [e|pm_id]; [reflexivity |].
  destruct (py_item pm "recipient") as [e|recipient]; [reflexivity |].
  destruct (User_new recipient) as [e|u]; [reflexivity |].
  destruct (PrivateChannel_new pm_id u) as [e|channel]; [reflexivity |].
  cbn [fst snd].
  destruct (dict_setitem (channel_id channel) channel (_private_channels (conn w)))
    as [e|d]; [reflexivity |].
  cbn [fst snd conn with_conn _private_channels_by_user set_private_channels].
  destruct (dict_setitem (user_id (channel_user channel)) channel
                         (_private_channels_by_user (conn w))) as [e|u']; reflexivity.
Qed.

(** The loop over the private channels of [parse_ready], when it runs
    through. *)
Lemma add_private_channels_made (pms : list json) (w : World) :
  snd (add_private_channels pms w) = ok tt ->
  exists channels : list PrivateChannel,
    Forall2 (fun pm channel => private_channel_of pm = ok channel) pms channels
    /\ (forall id, hashable id = true ->
          dict_get id (_private_channels (conn (fst (add_private_channels pms w))))
          = match List.find (fun channel => py_eq (channel_id channel) id) (rev channels) with
            | Some channel => ok (Some channel)
            | None => dict_get id (_private_channels (conn w))
            end)
    /\ (forall id, hashable id = true ->
          dict_get id (_private_channels_by_user (conn (fst (add_private_channels pms w))))
          = match List.find (fun channel => py_eq (user_id (channel_user channel)) id)
                            (rev channels) with
            | Some channel => ok (Some channel)
            | None => dict_get id (_private_channels_by_user (conn w))
            end)
    /\ (forall k channel,
          (k, channel) ∈ _private_channels (conn (fst (add_private_channels pms w))) ->
          (k, channel) ∈ _private_channels (conn w) \/ channel ∈ channels)
    /\ (forall k channel,
          (k, channel) ∈ _private_channels_by_user (conn (fst (add_private_channels pms w))) ->
          (k, channel) ∈ _private_channels_by_user (conn w) \/ channel ∈ channels)
    /\ beside_private_channels (fst (add_private_channels pms w)) = beside_private_channels w.
Proof.
  revert w. induction pms as [|pm rest IH]; intros w Hok.
  - exists []. split; [constructor |]. split; [reflexivity |]. split; [reflexivity |].
    split; [intros k channel Hin; left; exact Hin |].
    split; [intros k channel Hin; left; exact Hin | reflexivity].
  - revert Hok. rewrite add_private_channels_cons_eq.
    destruct (private_channel_of pm) as [e|channel] eqn:Hnew; [discriminate |].
    destruct (dict_setitem (channel_id channel) channel (_private_channels (conn w)))
      as [e|d] eqn:Hd; [discriminate |].
    cbv zeta.
    destruct (dict_setitem (user_id (channel_user channel)) channel
                           (_private_channels_by_user (conn w))) as [e|u] eqn:Hu;
      [discriminate |].
    intros Hok.
    destruct (IH _ Hok) as (channels & Hmade & Hfind & Hfindu & Hin & Hinu & Hrest).
    exists (channel :: channels). split; [constructor; assumption |].
    split; [| split; [| split; [| split]]].
    + intros id Hid.
      apply (lookup_last_step channel_id channel channels _ d id _ Hd).
      apply (Hfind id Hid).
    + intros id Hid.
      apply (lookup_last_step (fun x => user_id (channel_user x)) channel channels _ u id _ Hu).
      apply (Hfindu id Hid).
    + intros k x Hx. apply (member_step _ channel channels _ d k x Hd). apply (Hin k x Hx).
    + intros k x Hx. apply (member_step _ channel channels _ u k x Hu). apply (Hinu k x Hx).
    + rewrite Hrest. reflexivity.
Qed.

Lemma parse_ready_eq (data : json) (w : World) :
  parse_ready data w
  = let w1 := with_conn (set_ready_state (Some (mkReadyState (next_event w) [])))
                        (fst (new_event w)) in
    match rbind (py_item data "user") User_new with
    | inl e => (w1, throw e)
    | inr u =>
        let w2 := with_conn (set_user (Some u)) w1 in
        match rbind (py_get data "guilds") py_iter with
        | inl e => (w2, throw e)
        | inr guilds =>
            match add_guilds guilds w2 with
            | (w3, inl e) => (w3, throw e)
            | (w3, inr _) =>
                match rbind (py_get data "private_channels") py_iter with
                | inl e => (w3, throw e)
                | inr pms =>
                    match add_private_channels pms w3 with
                    | (w4, inl e) => (w4, throw e)
                    | (w4, inr _) => (with_tasks (fun t => t ++ [DR_created]) w4, ok tt)
                    end
                end
            end
        end
    end.
Proof.
  unfold parse_ready, bind, lift, modify, new_event, rbind. cbn [fst snd].
  destruct (py_item data "user") as [e|user_data]; [reflexivity |].
  destruct (User_new user_data) as [e|u]; [reflexivity |].
  destruct (py_get data "guilds") as [e|guilds]; [reflexivity |].
  destruct (py_iter guilds) as [e|guild_list]; [reflexivity |].
  match goal with
  | |- context [add_guilds guild_list ?w2] =>
      destruct (add_guilds guild_list w2) as [w3 [e|[]]]; [reflexivity |]
  end.
  destruct (py_get data "private_channels") as [e|pms]; [reflexivity |].
  destruct (py_iter pms) as [e|pm_list]; [reflexivity |].
  destruct (add_private_channels pm_list w3) as [w4 [e|[]]]; reflexivity.
Qed.

(** [parse_ready], when it returns: the user, the servers and the
    private channels of the cache are made from the payload, on top of
    what the cache held. *)
Lemma parse_ready_made (data : json) (w : World) :
  snd (parse_ready data w) = ok tt ->
  exists (u : User) (guilds : list json) (made : list Server)
         (pms : list json) (channels : list PrivateChannel),
    rbind (py_item data "user") User_new = ok u
    /\ rbind (py_get data "guilds") py_iter = ok guilds
    /\ Forall2 (fun guild server => Server_new guild = ok server) guilds made
    /\ rbind (py_get data "private_channels") py_iter = ok pms
    /\ Forall2 (fun pm channel => private_channel_of pm = ok channel) pms channels
    /\ user (conn (fst (parse_ready data w))) = Some u
    /\ (forall id, hashable id = true ->
          dict_get id (_servers (conn (fst (parse_ready data w))))
          = match List.find (fun server => py_eq (server_id server) id) (rev made) with
            | Some server => ok (Some server)
            | None => dict_get id (_servers (conn w))
            end)
    /\ (forall k server, (k, server) ∈ _servers (conn (fst (parse_ready data w))) ->
          (k, server) ∈ _servers (conn w) \/ server ∈ made)
    /\ (forall id, hashable id = true ->
          dict_get id (_private_channels (conn (fst (parse_ready data w))))
          = match List.find (fun channel => py_eq (channel_id channel) id) (rev channels) with
            | Some channel => ok (Some channel)
            | None => dict_get id (_private_channels (conn w))
            end)
    /\ (forall id, hashable id = true ->
          dict_get id (_private_channels_by_user (conn (fst (parse_ready data w))))
          = match List.find (fun channel => py_eq (user_id (channel_user channel)) id)
                            (rev channels) with
            | Some channel => ok (Some channel)
            | None => dict_get id (_private_channels_by_user (conn w))
            end)
    /\ (forall k channel,
          (k, channel) ∈ _private_channels (conn (fst (parse_ready data w))) ->
          (k, channel) ∈ _private_channels (conn w) \/ channel ∈ channels)
    /\ (forall k channel,
          (k, channel) ∈ _private_channels_by_user (conn (fst (parse_ready data w))) ->
          (k, channel) ∈ _private_channels_by_user (conn w) \/ channel ∈ channels)
    /\ _ready_state (conn (fst (parse_ready data w)))
       = Some (mkReadyState (next_event w) (List.filter server_large made))
    /\ (sequence (conn (fst (parse_ready data w))),
        session_id (conn (fst (parse_ready data w))),
        _voice_clients (conn (fst (parse_ready data w))),
        messages (conn (fst (parse_ready data w))))
       = (sequence (conn w), session_id (conn w), _voice_clients (conn w), messages (conn w)).
Proof.
  rewrite parse_ready_eq. cbv zeta.
  destruct (rbind (py_item data "user") User_new) as [e|u]; [discriminate |].
  destruct (rbind (py_get data "guilds") py_iter) as [e|guilds]; [discriminate |].
  match goal with
  | |- context [add_guilds guilds ?w2] =>
      pose proof (add_guilds_made guilds w2) as Hguilds;
      destruct (add_guilds guilds w2) as [w3 [e|[]]]; [discriminate |]
  end.
  destruct (rbind (py_get data "private_channels") py_iter) as [e|pms]; [discriminate |].
  pose proof (add_private_channels_made pms w3) as Hpms.
  destruct (add_private_channels pms w3) as [w4 [e|[]]]; [discriminate |].
  cbn [fst snd] in Hguilds, Hpms |- *. intros _.
  destruct (Hguilds eq_refl) as (made & Hmade & Hfind & Hin & Hstaged & Hrest).
  destruct (Hpms eq_refl) as (channels & Hchannels & Hfindc & Hfindu & Hinc & Hinu & Hrestc).
  clear Hguilds Hpms.
  cbn [conn with_conn _ready_state set_ready_state set_user] in Hstaged.
  cbn [launch servers app] in Hstaged.
  unfold beside_servers in Hrest. unfold beside_private_channels in Hrestc.
  cbn [conn with_conn with_tasks] in Hrest, Hrestc |- *.
  cbn [user sequence session_id _voice_clients _private_channels _private_channels_by_user
       messages _listeners set_user set_ready_state new_event fst ws futures events tasks
       effects conn] in Hrest.
  injection Hrest as Hr_user Hr_seq Hr_sid Hr_voice Hr_pc Hr_pcu Hr_msg _ _ _ _ _ _.
  injection Hrestc as Hc_user Hc_seq Hc_sid Hc_servers Hc_voice Hc_msg Hc_staged _ _ _ _ _ _.
  exists u, guilds, made, pms, channels.
  split; [reflexivity |]. split; [reflexivity |]. split; [exact Hmade |].
  split; [reflexivity |]. split; [exact Hchannels |].
  split; [congruence |].
  split; [intros id Hid; rewrite Hc_servers; apply (Hfind id Hid) |].
  split; [intros k server Hs; rewrite Hc_servers in Hs; apply (Hin k server Hs) |].
  split; [intros id Hid; rewrite (Hfindc id Hid), Hr_pc; reflexivity |].
  split; [intros id Hid; rewrite (Hfindu id Hid), Hr_pcu; reflexivity |].
  split; [intros k channel Hs; rewrite <- Hr_pc; apply (Hinc k channel Hs) |].
  split; [intros k channel Hs; rewrite <- Hr_pcu; apply (Hinu k channel Hs) |].
  split; [rewrite Hc_staged; exact Hstaged |].
  congruence.
Qed.

Lemma ready_reset_eq (fields : list (string * json)) (data : json) (w : World) :
  ready_reset (JDict fields) data w
  = let w1 := with_conn clear_state w in
    match assoc "s" fields with
    | None => (w1, throw (KeyError "s"))
    | Some s =>
        let w2 := with_conn (set_sequence s) w1 in
        match py_item data "session_id" with
        | inl e => (w2, throw e)
        | inr sid => (with_conn (set_session_id sid) w2, ok tt)
        end
    end.
Proof.
  unfold ready_reset, clear, bind, lift, modify. cbn [py_item fst snd].
  destruct (assoc "s" fields); [| reflexivity].
  destruct (py_item data "session_id"); reflexivity.
Qed.

Lemma handle_dispatch_ready_eq (fields : list (string * json)) (data : json) (w : World) :
  assoc "t" fields = Some (JStr "READY") ->
  handle_dispatch (JDict fields) data w
  = match ready_reset (JDict fields) data w with
    | (w1, inl e) => (w1, throw e)
    | (w1, inr _) =>
        match start_keep_alive data w1 with
        | (w2, inl e) => (w2, throw e)
        | (w2, inr _) =>
            match parse_ready data w2 with
            | (w3, inl e) => (w3, throw e)
            | (w3, inr _) => dispatch_listeners "READY" data w3
            end
        end
    end.
Proof.
  intros Ht. rewrite (handle_dispatch_ready fields data w Ht). reflexivity.
Qed.

(** C4. A DISPATCH frame named READY first runs [clear()], which leaves
    no user, sequence or session id, no server, voice client or private
    channel in either index, and an empty message deque, and then fills
    the cache from the frame: the cache it leaves depends on the frame
    alone (and on the configured capacity of the message cache). Whatever
    the cache was before, two clients that receive the same frame end with
    the same one, so nothing of the old cache is left; and processing the
    frame a second time gives the cache that the first time gave. When the
    frame is processed without an error, what the cache holds is what the
    payload says: the user made from [user], the sequence and the session
    id of the frame, for each id the server made from the last guild of
    [guilds] with that id and no server besides those made from the
    guilds, the private channels made from [private_channels] likewise in
    both indices, no voice client, no message, and the large servers
    staged for their member chunks in the order of the payload. *)
Theorem ready_rebuilds_cache (fields : list (string * json)) :
  assoc "op" fields = Some (JInt DISPATCH) ->
  assoc "t" fields = Some (JStr "READY") ->
  let data := default JNull (assoc "d" fields) in
  (forall w,
      received_message (JDict fields) w
      = ((clear ;;
          let* s := lift (py_item (JDict fields) "s") in
          modify (with_conn (set_sequence s)) ;;
          let* sid := lift (py_item data "session_id") in
          modify (with_conn (set_session_id sid))) ;;
         start_keep_alive data ;;
         parse_ready data ;;
         dispatch_listeners "READY" data) (before_tests fields w))
  /\ (forall c,
      cache_of (clear_state c)
      = (None, JNull, JNull, [], [], [], [], mkDeque (max_messages c) []))
  /\ (forall w1 w2,
      max_messages (conn w1) = max_messages (conn w2) ->
      cache_of (conn (fst (received_message (JDict fields) w1)))
      = cache_of (conn (fst (received_message (JDict fields) w2))))
  /\ (forall w,
      let once := fst (received_message (JDict fields) w) in
      let twice := fst (received_message (JDict fields) once) in
      cache_of (conn twice) = cache_of (conn once))
  /\ (forall w,
      snd (received_message (JDict fields) w) = ok tt ->
      let c := conn (fst (received_message (JDict fields) w)) in
      exists (u : User) (guilds : list json) (made : list Server)
             (pms : list json) (channels : list PrivateChannel),
        rbind (py_item data "user") User_new = ok u
        /\ rbind (py_get data "guilds") py_iter = ok guilds
        /\ Forall2 (fun guild server => Server_new guild = ok server) guilds made
        /\ rbind (py_get data "private_channels") py_iter = ok pms
        /\ Forall2 (fun pm channel => private_channel_of pm = ok channel) pms channels
        /\ user c = Some u
        /\ assoc "s" fields = Some (sequence c)
        /\ py_item data "session_id" = ok (session_id c)
        /\ (forall id, hashable id = true ->
              dict_get id (_servers c)
              = ok (List.find (fun server => py_eq (server_id server) id) (rev made)))
        /\ (forall k server, (k, server) ∈ _servers c -> server ∈ made)
        /\ (forall id, hashable id = true ->
              dict_get id (_private_channels c)
              = ok (List.find (fun channel => py_eq (channel_id channel) id) (rev channels)))
        /\ (forall id, hashable id = true ->
              dict_get id (_private_channels_by_user c)
              = ok (List.find (fun channel => py_eq (user_id (channel_user channel)) id)
                              (rev channels)))
        /\ (forall k channel,
              (k, channel) ∈ _private_channels c \/ (k, channel) ∈ _private_channels_by_user c ->
              channel ∈ channels)
        /\ _voice_clients c = []
        /\ messages c = mkDeque (max_messages (conn w)) []
        /\ (servers <$> _ready_state c) = Some (List.filter server_large made)).
Proof.
  intros Hop Ht data.
  assert (Hcap : forall w,
    capacity (fst (received_message (JDict fields) w)) = capacity w).
  { intros w. rewrite received_message_dispatch by exact Hop.
    rewrite handle_dispatch_ready_keeps_capacity by exact Ht.
    apply before_tests_capacity. }
  assert (Hrel : forall w1 w2,
    max_messages (conn w1) = max_messages (conn w2) ->
    cache_of (conn (fst (received_message (JDict fields) w1)))
    = cache_of (conn (fst (received_message (JDict fields) w2)))).
  { intros w1 w2 H.
    rewrite !received_message_dispatch by exact Hop.
    apply (handle_dispatch_ready_rel fields _ Ht).
    unfold same_capacity. fold (capacity (before_tests fields w1)).
    fold (capacity (before_tests fields w2)).
    rewrite !before_tests_capacity. exact H. }
  split; [| split; [| split; [exact Hrel | split]]].
  - intros w. rewrite received_message_dispatch by exact Hop.
    apply handle_dispatch_ready, Ht.
  - intros c. reflexivity.
  - intros w once twice. subst once twice. apply Hrel. apply Hcap.
  - intros w. rewrite received_message_dispatch by exact Hop. fold data.
    rewrite (handle_dispatch_ready_eq fields data _ Ht), ready_reset_eq. cbv zeta.
    pose proof (before_tests_capacity fields w) as Hmax. unfold capacity in Hmax.
    set (w0 := before_tests fields w) in *.
    destruct (assoc "s" fields) as [s|]; [| discriminate].
    destruct (py_item data "session_id") as [e|sid]; [discriminate |].
    rewrite start_keep_alive_eq.
    destruct (rbind (py_item data "heartbeat_interval") py_dividend) as [e|ms];
      [discriminate |].
    match goal with
    | |- context [parse_ready data ?wk] =>
        pose proof (parse_ready_made data wk) as Hmade;
        destruct (parse_ready data wk) as [w3 [e|[]]]; [discriminate |]
    end.
    cbn [fst snd] in Hmade. intros _.
    rewrite (dispatch_listeners_keeps_conn "READY" data w3).
    destruct (Hmade eq_refl)
      as (u & guilds & made & pms & channels & Hu & Hguilds & Hservers & Hpms & Hchannels
          & Huser & Hfind & Hin & Hfindc & Hfindu & Hinc & Hinu & Hstaged & Hrest).
    injection Hrest as Hseq Hsid Hvoice Hmsg.
    exists u, guilds, made, pms, channels.
    split; [exact Hu |]. split; [exact Hguilds |]. split; [exact Hservers |].
    split; [exact Hpms |]. split; [exact Hchannels |]. split; [exact Huser |].
    split; [rewrite Hseq; reflexivity |]. split; [rewrite Hsid; reflexivity |].
    split.
    { intros id Hid. rewrite (Hfind id Hid).
      destruct (List.find (fun server => py_eq (server_id server) id) (rev made));
        [reflexivity |].
      unfold dict_get. rewrite Hid. reflexivity. }
    split.
    { intros k server Hs. destruct (Hin k server Hs) as [Hold | Hnew]; [| exact Hnew].
      inversion Hold. }
    split.
    { intros id Hid. rewrite (Hfindc id Hid).
      destruct (List.find (fun channel => py_eq (channel_id channel) id) (rev channels));
        [reflexivity |].
      unfold dict_get. rewrite Hid. reflexivity. }
    split.
    { intros id Hid. rewrite (Hfindu id Hid).
      destruct (List.find (fun channel => py_eq (user_id (channel_user channel)) id)
                          (rev channels)); [reflexivity |].
      unfold dict_get. rewrite Hid. reflexivity. }
    split.
    { intros k channel [Hs | Hs].
      - destruct (Hinc k channel Hs) as [Hold | Hnew]; [inversion Hold | exact Hnew].
      - destruct (Hinu k channel Hs) as [Hold | Hnew]; [inversion Hold | exact Hnew]. }
    split; [rewrite Hvoice; reflexivity |].
    split; [rewrite Hmsg; cbn; rewrite Hmax; reflexivity |].
    rewrite Hstaged. reflexivity.
Qed.

End Client.

(** ** Voice: the discovery reply *)

Section VoiceFacts.
Import Voice.

Lemma index_null_from_first (recv : list byte) :
  forall pos start k,
    recv !! k = Some x00 ->
    (start <= pos + k)%nat ->
    (forall j, (j < k)%nat -> (start <= pos + j)%nat -> recv !! j <> Some x00) ->
    index_null_from recv pos start = ok (pos + k)%nat.
Proof.
  induction recv as [|b rest IH]; intros pos start k Hk Hge Hfirst.
  - discriminate.
  - destruct k as [|k]; simpl in *.
    + injection Hk as ->.
      replace (pos + 0)%nat with pos in * by lia.
      apply Nat.leb_le in Hge. rewrite Hge. reflexivity.
    + destruct ((start <=? pos)%nat && Byte.eqb b x00)%bool eqn:Hhit.
      * apply andb_true_iff in Hhit as [Hle Hb].
        apply Nat.leb_le in Hle. apply Byte.byte_dec_bl in Hb. subst b.
        exfalso. apply (Hfirst 0%nat); [lia | lia | reflexivity].
      * replace (pos + S k)%nat with (S pos + k)%nat by lia.
        apply IH; [assumption | lia |].
        intros j Hj Hs. apply (Hfirst (S j)); lia.
Qed.

Lemma index_null_from_none (recv : list byte) :
  forall pos start,
    (forall j, (start <= pos + j)%nat -> recv !! j <> Some x00) ->
    index_null_from recv pos start = throw ValueError.
Proof.
  induction recv as [|b rest IH]; intros pos start Hnone; [reflexivity|].
  simpl. destruct ((start <=? pos)%nat && Byte.eqb b x00)%bool eqn:Hhit.
  - apply andb_true_iff in Hhit as [Hle Hb].
    apply Nat.leb_le in Hle. apply Byte.byte_dec_bl in Hb. subst b.
    exfalso. apply (Hnone 0%nat); [lia | reflexivity].
  - apply IH. intros j Hj. apply (Hnone (S j)). lia.
Qed.

Lemma decode_ascii_all (bs : list byte) :
  Forall (fun b => (Byte.to_N b < 128)%N) bs ->
  decode_ascii bs = ok (string_of_list_ascii (map ascii_of_byte bs)).
Proof.
  induction 1 as [|b rest Hb _ IH]; [reflexivity|].
  simpl. apply N.ltb_lt in Hb. rewrite Hb, IH. reflexivity.
Qed.

Lemma unpack_last_two (recv : list byte) (lo hi : byte) :
  length recv = 70%nat ->
  recv !! 68%nat = Some lo -> recv !! 69%nat = Some hi ->
  discovery_port recv = ok (Z.of_N (Byte.to_N lo) + 256 * Z.of_N (Byte.to_N hi)).
Proof.
  intros Hlen Hlo Hhi. unfold discovery_port, unpack_le_u16. rewrite Hlen.
  change (Z.of_nat 70 - 2 <? 0) with false. cbv iota.
  change (Z.to_nat (Z.of_nat 70 - 2)) with 68%nat.
  rewrite Hlo, Hhi. reflexivity.
Qed.

(** C8. For a discovery reply of 70 bytes, the external address is the
    ASCII decoding of the bytes from offset 4 up to the first null byte at
    or after offset 4, and the external port is the little-endian unsigned
    16-bit integer in the last two bytes; a reply holding "1.2.3.4" at
    offset 4, then a null, and ending in the little-endian bytes of 50000
    gives the address "1.2.3.4" and the port 50000. *)
Theorem discovery_reply_parse (recv : list byte) :
  length recv = 70%nat ->
  (forall (ip_end : nat) (lo hi : byte),
      (4 <= ip_end)%nat ->
      recv !! ip_end = Some x00 ->
      (forall i, (4 <= i < ip_end)%nat -> recv !! i <> Some x00) ->
      (forall i b, (4 <= i < ip_end)%nat -> recv !! i = Some b -> (Byte.to_N b < 128)%N) ->
      recv !! 68%nat = Some lo ->
      recv !! 69%nat = Some hi ->
      discovery_ip recv
        = ok (string_of_list_ascii (map ascii_of_byte (take (ip_end - 4) (drop 4 recv))))
      /\ discovery_port recv = ok (Z.of_N (Byte.to_N lo) + 256 * Z.of_N (Byte.to_N hi)))
  /\ (forall pre rest : list byte,
      length pre = 4%nat ->
      recv = pre ++ [x31; x2e; x32; x2e; x33; x2e; x34] ++ [x00] ++ rest ++ [x50; xc3] ->
      discovery_ip recv = ok "1.2.3.4" /\ discovery_port recv = ok 50000).
Proof.
  intros Hlen.
  assert (General : forall (ip_end : nat) (lo hi : byte),
      (4 <= ip_end)%nat ->
      recv !! ip_end = Some x00 ->
      (forall i, (4 <= i < ip_end)%nat -> recv !! i <> Some x00) ->
      (forall i b, (4 <= i < ip_end)%nat -> recv !! i = Some b -> (Byte.to_N b < 128)%N) ->
      recv !! 68%nat = Some lo ->
      recv !! 69%nat = Some hi ->
      discovery_ip recv
        = ok (string_of_list_ascii (map ascii_of_byte (take (ip_end - 4) (drop 4 recv))))
      /\ discovery_port recv = ok (Z.of_N (Byte.to_N lo) + 256 * Z.of_N (Byte.to_N hi))).
  { intros ip_end lo hi Hge Hnull Hfirst Hascii Hlo Hhi. split.
    - unfold discovery_ip, bytes_index_null.
      rewrite (index_null_from_first recv 0 4 ip_end Hnull); [|lia|].
      + simpl rbind. unfold bytes_slice. apply decode_ascii_all.
        apply Forall_lookup_2. intros i b Hi.
        apply lookup_take_Some in Hi as [Hi Hlt].
        rewrite lookup_drop in Hi.
        apply (Hascii (4 + i)%nat b); [lia | assumption].
      + intros j Hj Hs. apply Hfirst. lia.
    - apply unpack_last_two; assumption. }
  split; [exact General|].
  intros pre rest Hpre ->.
  destruct pre as [|p0 [|p1 [|p2 [|p3 [|]]]]]; try discriminate Hpre.
  assert (Hrest : length rest = 56%nat).
  { rewrite !length_app in Hlen. simpl in Hlen. lia. }
  destruct (General 11%nat x50 xc3) as [Hip Hport].
  - lia.
  - reflexivity.
  - intros i [H1 H2].
    do 11 (destruct i as [|i]; [first [lia | discriminate]|]). lia.
  - intros i b [H1 H2] Hb.
    do 11 (destruct i as [|i];
           [first [lia | injection Hb as <-; reflexivity]|]). lia.
  - change 68%nat with (length [p0; p1; p2; p3; x31; x2e; x32; x2e; x33; x2e; x34; x00] + 56)%nat.
    change ([p0; p1; p2; p3] ++ [x31; x2e; x32; x2e; x33; x2e; x34] ++ [x00] ++ rest ++ [x50; xc3])
      with ([p0; p1; p2; p3; x31; x2e; x32; x2e; x33; x2e; x34; x00] ++ rest ++ [x50; xc3]).
    rewrite lookup_app_r by lia.
    rewrite lookup_app_r by lia.
    replace (_ - _ - _)%nat with 0%nat by (rewrite Hrest; simpl; lia).
    reflexivity.
  - change 69%nat with (length [p0; p1; p2; p3; x31; x2e; x32; x2e; x33; x2e; x34; x00] + 57)%nat.
    change ([p0; p1; p2; p3] ++ [x31; x2e; x32; x2e; x33; x2e; x34] ++ [x00] ++ rest ++ [x50; xc3])
      with ([p0; p1; p2; p3; x31; x2e; x32; x2e; x33; x2e; x34; x00] ++ rest ++ [x50; xc3]).
    rewrite lookup_app_r by lia.
    rewrite lookup_app_r by lia.
    replace (_ - _ - _)%nat with 1%nat by (rewrite Hrest; simpl; lia).
    reflexivity.
  - split; [exact Hip | exact Hport].
Qed.

End VoiceFacts.

(** ** Facts: the discovery packet and the failures of the parse *)

Section VoiceEdges.
Import Voice.

Lemma byte_of_Z_value (z : Z) : Z.of_N (Byte.to_N (byte_of_Z z)) = z mod 256.
Proof.
  unfold byte_of_Z.
  assert (Hrange : 0 <= z mod 256 < 256) by (apply Z.mod_pos_bound; lia).
  destruct (Byte.of_N (Z.to_N (z mod 256))) as [b|] eqn:E.
  - apply Byte.to_of_N in E. cbn [default]. simpl. rewrite E. lia.
  - apply Byte.of_N_None_iff in E. lia.
Qed.

(** The packet sent for the discovery has 70 bytes: the [ssrc] in
    big-endian order in the first four, which read back give [ssrc], and
    zeros in the other 66; an [ssrc] that is no integer of 32 bits without
    sign ([None] when the payload has none) cannot be packed. *)
Theorem discovery_packet_big_endian :
  (forall n : Z,
      0 <= n < 2 ^ 32 ->
      exists b0 b1 b2 b3 : byte,
        discovery_packet (JInt n) = ok ([b0; b1; b2; b3] ++ replicate 66 x00)
        /\ length ([b0; b1; b2; b3] ++ replicate 66 x00) = 70%nat
        /\ 2 ^ 24 * Z.of_N (Byte.to_N b0) + 2 ^ 16 * Z.of_N (Byte.to_N b1)
           + 2 ^ 8 * Z.of_N (Byte.to_N b2) + Z.of_N (Byte.to_N b3) = n)
  /\ (forall n : Z, ~ 0 <= n < 2 ^ 32 -> discovery_packet (JInt n) = throw StructError)
  /\ discovery_packet JNull = throw StructError
  /\ (forall s, discovery_packet (JStr s) = throw StructError).
Proof.
  split; [| split; [| split; [reflexivity | reflexivity]]].
  - intros n Hn. unfold discovery_packet.
    assert (Hin : (0 <=? n) && (n <? 2 ^ 32) = true).
    { apply andb_true_iff. split; [apply Z.leb_le | apply Z.ltb_lt]; lia. }
    rewrite Hin.
    exists (byte_of_Z (n / 2 ^ 24)), (byte_of_Z (n / 2 ^ 16)), (byte_of_Z (n / 2 ^ 8)),
           (byte_of_Z n).
    split; [reflexivity |]. split; [reflexivity |].
    rewrite !byte_of_Z_value.
    assert (H24 : n / 2 ^ 24 < 256) by (apply Z.div_lt_upper_bound; lia).
    assert (H24' : 0 <= n / 2 ^ 24) by (apply Z.div_pos; lia).
    rewrite (Z.mod_small (n / 2 ^ 24)) by lia.
    change (2 ^ 24) with (2 ^ 16 * 256). change (2 ^ 16) with (2 ^ 8 * 256).
    change (2 ^ 8) with 256.
    rewrite <- !Z.div_div by lia.
    pose proof (Z.div_mod n 256 ltac:(lia)) as E0.
    pose proof (Z.div_mod (n / 256) 256 ltac:(lia)) as E1.
    pose proof (Z.div_mod (n / 256 / 256) 256 ltac:(lia)) as E2.
    lia.
  - intros n Hn. unfold discovery_packet.
    destruct ((0 <=? n) && (n <? 2 ^ 32)) eqn:E; [| reflexivity].
    apply andb_true_iff in E as [H1 H2]. apply Z.leb_le in H1. apply Z.ltb_lt in H2. lia.
Qed.

Lemma index_null_from_spec (recv : list byte) :
  forall pos start,
    (exists k, index_null_from recv pos start = ok (pos + k)%nat
               /\ recv !! k = Some x00 /\ (start <= pos + k)%nat)
    \/ (index_null_from recv pos start = throw ValueError
        /\ forall j, (start <= pos + j)%nat -> recv !! j <> Some x00).
Proof.
  induction recv as [|b rest IH]; intros pos start.
  - right. split; [reflexivity |]. intros j _. discriminate.
  - simpl. destruct ((start <=? pos)%nat && Byte.eqb b x00)%bool eqn:Hhit.
    + apply andb_true_iff in Hhit as [Hle Hb].
      apply Nat.leb_le in Hle. apply Byte.byte_dec_bl in Hb. subst b.
      left. exists 0%nat. rewrite Nat.add_0_r. split; [reflexivity |]. split; [reflexivity | lia].
    + destruct (IH (S pos) start) as [(k & Hk & Hnull & Hge) | (Hnone & Hall)].
      * left. exists (S k). replace (pos + S k)%nat with (S pos + k)%nat by lia.
        split; [exact Hk |]. split; [exact Hnull | exact Hge].
      * right. split; [exact Hnone |].
        intros [|j] Hj.
        -- simpl. intros [= ->]. rewrite Nat.add_0_r in Hj.
           apply Nat.leb_le in Hj. rewrite Hj in Hhit. discriminate.
        -- simpl. apply Hall. lia.
Qed.

Lemma decode_ascii_outcome (bs : list byte) :
  (exists s, decode_ascii bs = ok s /\ String.length s = length bs)
  \/ decode_ascii bs = throw UnicodeDecodeError.
Proof.
  induction bs as [|b rest IH]; simpl.
  - left. exists EmptyString. split; reflexivity.
  - destruct (Byte.to_N b <? 128)%N; [| right; reflexivity].
    destruct IH as [(s & -> & Hlen) | ->]; [| right; reflexivity].
    left. eexists. split; [reflexivity |]. simpl. rewrite Hlen. reflexivity.
Qed.

Lemma discovery_ip_cases (recv : list byte) :
  (exists k, recv !! k = Some x00 /\ (4 <= k)%nat
             /\ discovery_ip recv = decode_ascii (bytes_slice recv 4 k))
  \/ (discovery_ip recv = throw ValueError
      /\ forall j, (4 <= j)%nat -> recv !! j <> Some x00).
Proof.
  unfold discovery_ip, bytes_index_null.
  destruct (index_null_from_spec recv 0 4) as [(k & Hk & Hnull & Hge) | (Hnone & Hall)].
  - left. exists k. simpl in Hk. rewrite Hk. repeat split; assumption || lia.
  - right. rewrite Hnone. split; [reflexivity |]. intros j Hj. apply Hall. lia.
Qed.

Lemma discovery_ip_outcome (recv : list byte) :
  (discovery_ip recv = throw ValueError
   <-> forall i, (4 <= i)%nat -> recv !! i <> Some x00)
  /\ (forall e, discovery_ip recv = throw e -> e = ValueError \/ e = UnicodeDecodeError)
  /\ (forall address, discovery_ip recv = ok address ->
        (String.length address + 5 <= length recv)%nat).
Proof.
  pose proof (discovery_ip_cases recv) as Hip.
  assert (Hslice : forall k, recv !! k = Some x00 -> (4 <= k)%nat ->
                   (length (bytes_slice recv 4 k) + 5 <= length recv)%nat).
  { intros k Hk Hge. apply lookup_lt_Some in Hk.
    unfold bytes_slice. rewrite length_take, length_drop. lia. }
  split; [| split].
  - split.
    + intros Hfail. destruct Hip as [(k & Hnull & Hge & Heq) | (_ & Hall)]; [| exact Hall].
      rewrite Heq in Hfail.
      destruct (decode_ascii_outcome (bytes_slice recv 4 k)) as [(s & Hs & _) | Hs];
        rewrite Hs in Hfail; discriminate.
    + intros Hall. destruct Hip as [(k & Hnull & Hge & _) | (Hfail & _)]; [| exact Hfail].
      exfalso. exact (Hall k Hge Hnull).
  - intros e He. destruct Hip as [(k & _ & _ & Heq) | (Hfail & _)].
    + rewrite Heq in He.
      destruct (decode_ascii_outcome (bytes_slice recv 4 k)) as [(s & Hs & _) | Hs];
        rewrite Hs in He; [discriminate | right; congruence].
    + left. congruence.
  - intros address Hok. destruct Hip as [(k & Hnull & Hge & Heq) | (Hfail & _)];
      [| congruence].
    rewrite Heq in Hok.
    destruct (decode_ascii_outcome (bytes_slice recv 4 k)) as [(s & Hs & Hlen) | Hs];
      rewrite Hs in Hok; [| discriminate].
    injection Hok as <-. rewrite Hlen. apply Hslice; assumption.
Qed.

Lemma discovery_port_outcome (recv : list byte) :
  (discovery_port recv = throw StructError <-> (length recv < 2)%nat)
  /\ (forall e, discovery_port recv = throw e -> e = StructError)
  /\ (forall p, discovery_port recv = ok p -> 0 <= p < 65536).
Proof.
  unfold discovery_port, unpack_le_u16.
  destruct (Z.of_nat (length recv) - 2 <? 0) eqn:Hneg.
  - apply Z.ltb_lt in Hneg.
    split; [split; [intros _; lia | reflexivity] |].
    split; [intros e [= <-]; reflexivity | discriminate].
  - apply Z.ltb_ge in Hneg.
    assert (Hlo : is_Some (recv !! Z.to_nat (Z.of_nat (length recv) - 2))).
    { apply lookup_lt_is_Some. lia. }
    assert (Hhi : is_Some (recv !! S (Z.to_nat (Z.of_nat (length recv) - 2)))).
    { apply lookup_lt_is_Some. lia. }
    destruct Hlo as [lo ->]. destruct Hhi as [hi ->].
    split; [split; [discriminate | lia] |].
    split; [discriminate |].
    intros p [= <-].
    pose proof (Byte.to_N_bounded lo). pose proof (Byte.to_N_bounded hi). lia.
Qed.

Lemma discovery_port_follows (recv : list byte) (address : string) :
  discovery_ip recv = ok address -> exists p, discovery_port recv = ok p.
Proof.
  destruct (discovery_ip_outcome recv) as (_ & _ & Hlen).
  destruct (discovery_port_outcome recv) as (Hport & Hporte & _).
  intros Hok. specialize (Hlen address Hok).
  destruct (discovery_port recv) as [e|p] eqn:Hpt; [| eauto].
  exfalso. rewrite (Hporte e eq_refl) in Hport. pose proof (proj1 Hport eq_refl). lia.
Qed.

(** The address cannot be read, with [ValueError], exactly when the reply
    has no null byte at or after offset 4 (so for every reply shorter than
    five bytes), and with [UnicodeDecodeError] otherwise; an address that
    is read is shorter than the reply by five bytes or more. The port
    cannot be read, with [struct.error], exactly when the reply has fewer
    than two bytes, and a port that is read lies in 0..65535; so whenever
    the address is read, the port is read too. *)
Theorem discovery_parse_edges (recv : list byte) :
  (discovery_ip recv = throw ValueError
   <-> forall i, (4 <= i)%nat -> recv !! i <> Some x00)
  /\ (forall e, discovery_ip recv = throw e -> e = ValueError \/ e = UnicodeDecodeError)
  /\ (forall address, discovery_ip recv = ok address ->
        (String.length address + 5 <= length recv)%nat
        /\ exists p, discovery_port recv = ok p)
  /\ (discovery_port recv = throw StructError <-> (length recv < 2)%nat)
  /\ (forall e, discovery_port recv = throw e -> e = StructError)
  /\ (forall p, discovery_port recv = ok p -> 0 <= p < 65536).
Proof.
  destruct (discovery_ip_outcome recv) as (Hvalue & Herrors & Hlen).
  destruct (discovery_port_outcome recv) as (Hstruct & Hporte & Hrange).
  split; [exact Hvalue |]. split; [exact Herrors |]. split.
  - intros address Hok. split; [apply Hlen, Hok |].
    apply (discovery_port_follows recv address Hok).
  - split; [exact Hstruct |]. split; [exact Hporte | exact Hrange].
Qed.



Lemma discovery_packet_length (s : json) (packet : list byte) :
  discovery_packet s = ok packet -> length packet = 70%nat.
Proof.
  unfold discovery_packet. destruct s; try discriminate.
  - intros [= <-]. reflexivity.
  - destruct ((0 <=? z) && (z <? 2 ^ 32)); [| discriminate]. intros [= <-]. reflexivity.
Qed.

Lemma initial_connection_ok (data : json) (recv : list byte) (state : VoiceClient) :
  snd (initial_connection data recv state) = ok tt ->
  exists packet dport address p,
    snd (fst (initial_connection data recv state))
    = [SendTo packet (endpoint_ip state) dport; SelectProtocol address p]
    /\ length packet = 70%nat
    /\ discovery_ip recv = ok address /\ discovery_port recv = ok p
    /\ py_get data "port" = ok dport.
Proof.
  unfold initial_connection.
  destruct (py_get data "ssrc") as [e1|s]; [discriminate |].
  destruct (py_get data "port") as [e2|vp]; [discriminate |].
  destruct (discovery_packet s) as [e3|packet] eqn:Hpk; [discriminate |].
  destruct (sendto_port vp) as [e6|[]]; [discriminate |].
  destruct (discovery_ip recv) as [e4|addr]; [discriminate |].
  destruct (discovery_port recv) as [e5|prt]; [discriminate |].
  intros _. exists packet, vp, addr, prt. cbn.
  split; [reflexivity |]. split; [apply (discovery_packet_length s), Hpk |].
  repeat split; reflexivity.
Qed.


(** ** Facts: the voice websocket *)


(** A READY frame of the voice socket whose payload has no numeric
    heartbeat interval raises before anything is started, stored or sent.
    With one, the keep-alive is started first, so it runs whether or not
    the discovery then succeeds, and the discovery follows: what is sent
    after the start of the keep-alive is what the discovery sends, the
    protocol being announced as UDP with the address and the port read
    from the reply. *)
Theorem voice_ready_frame (fields : list (string * json)) (recv : list byte)
    (st : VoiceSocket.VoiceState) :
  assoc "op" fields = Some (JInt VoiceSocket.READY) ->
  let data := default JNull (assoc "d" fields) in
  let run := VoiceSocket.received_message (JDict fields) recv st in
  (forall e, rbind (py_item data "heartbeat_interval") py_dividend = throw e ->
      run = (st, [], throw e))
  /\ (forall interval, rbind (py_item data "heartbeat_interval") py_dividend = ok interval ->
      VoiceSocket._keep_alive (fst (fst run)) = Some (VoiceSocket.mkVoiceKeepAlive interval)
      /\ VoiceSocket.secret_key (fst (fst run)) = VoiceSocket.secret_key st
      /\ VoiceSocket.client (fst (fst run))
         = fst (fst (initial_connection data recv (VoiceSocket.client st)))
      /\ snd run = snd (initial_connection data recv (VoiceSocket.client st))
      /\ snd (fst run)
         = VoiceSocket.KeepAliveStarted (VoiceSocket.mkVoiceKeepAlive interval)
           :: map VoiceSocket.sent_of
                (snd (fst (initial_connection data recv (VoiceSocket.client st))))
      /\ (snd run = ok tt ->
          exists packet dport address p,
            py_get data "port" = ok dport
            /\ length packet = 70%nat
            /\ discovery_ip recv = ok address /\ discovery_port recv = ok p
            /\ snd (fst run)
               = [VoiceSocket.KeepAliveStarted (VoiceSocket.mkVoiceKeepAlive interval);
                  VoiceSocket.Datagram packet (endpoint_ip (VoiceSocket.client st)) dport;
                  VoiceSocket.SendAsJson
                    (JDict [("op", JInt 1);
                            ("d", JDict [("protocol", JStr "udp");
                                         ("data", JDict [("address", JStr address);
                                                         ("port", JInt p);
                                                         ("mode", JStr "xsalsa20_poly1305")])])])])).
Proof.
  intros Hop data run. subst run.
  unfold VoiceSocket.received_message. cbn [py_get]. rewrite Hop.
  change (default JNull (Some (JInt VoiceSocket.READY))) with (JInt VoiceSocket.READY).
  fold data. change (py_eq_int (JInt VoiceSocket.READY) VoiceSocket.READY) with true.
  cbv iota. split.
  - intros e He. rewrite He. reflexivity.
  - intros interval Hi. rewrite Hi.
    pose proof (initial_connection_ok data recv (VoiceSocket.client st)) as Hok.
    destruct (initial_connection data recv (VoiceSocket.client st)) as [[c effects] r].
    cbn [fst snd] in *.
    repeat (split; [reflexivity |]).
    intros Hr.
    destruct (Hok Hr) as (packet & dport & address & p & -> & Hlen & Hip & Hpt & Hvp).
    exists packet, dport, address, p.
    split; [exact Hvp |]. split; [exact Hlen |]. split; [exact Hip |]. split; [exact Hpt |].
    reflexivity.
Qed.


End VoiceEdges.

(** A reply of 70 bytes: four bytes of header, "1.2.3.4", a null, padding,
    and 50000 in little-endian order. *)
Definition discovery_reply : list byte :=
  [x00; x00; x00; x2a] ++ [x31; x2e; x32; x2e; x33; x2e; x34] ++ [x00]
  ++ replicate 56 x00 ++ [x50; xc3].

Lemma discovery_reply_parse_witness :
  Voice.discovery_ip discovery_reply = inr "1.2.3.4"
  /\ Voice.discovery_port discovery_reply = inr 50000.
Proof.
  exact (proj2 (discovery_reply_parse discovery_reply eq_refl)
           [x00; x00; x00; x2a] (replicate 56 x00) eq_refl eq_refl).
Defined.

(** ** A concrete client

    The absent classes are given the simplest faithful shape: a server
    keeps its id and member count, a user and a private channel keep their
    payloads, a message is its attribute map, a full update stores every
    field of the payload, and the handlers of the absent classes do
    nothing. *)

Module Demo.

Record DemoServer : Type := mkDemoServer {
  ds_id : json;
  ds_member_count : Z;
}.

Definition demo_Server_new (guild : json) : result DemoServer :=
  match py_item guild "id", py_item guild "member_count" with
  | inr i, inr (JInt n) => inr (mkDemoServer i n)
  | inr _, inr _ => inl TypeError
  | inl e, _ => inl e
  | _, inl e => inl e
  end.

Definition demo_large (s : DemoServer) : bool := 250 <? ds_member_count s.

Definition demo_user_id (u : json) : json :=
  match py_get u "id" with inr i => i | inl _ => JNull end.

Definition demo_channel_new (i : json) (u : json) : result (json * json) := inr (i, u).

Definition demo_update (m : @Message json) (data : json) : @Message json * result unit :=
  match data with
  | JDict fields =>
      (mkMessage (foldr (fun kv attrs => <[fst kv := snd kv]> attrs) (attributes m) fields),
       inr tt)
  | _ => (m, inl TypeError)
  end.

Definition demo_has_id (m : @Message json) (msg_id : json) : bool :=
  match attributes m !! "id" with
  | Some v => py_eq v msg_id
  | None => false
  end.

Fixpoint demo_find {A} (p : A -> bool) (l : list A) : option nat :=
  match l with
  | [] => None
  | x :: rest => if p x then Some 0%nat else option_map S (demo_find p rest)
  end.

Abbreviation DemoWorld := (@World DemoServer json (json * json) unit json).

Definition demo_absent (parser : string) (data : json) : DemoWorld -> DemoWorld * result unit :=
  ret tt.

Definition demo_received (msg : json) : DemoWorld -> DemoWorld * result unit :=
  received_message demo_Server_new ds_id demo_large (fun u => inr u) demo_user_id
    demo_channel_new fst snd (fun j => j) demo_update demo_has_id demo_find demo_absent msg.

(** A client that has just been constructed, with room for 5000
    messages. *)
Definition fresh : DemoWorld :=
  mkWorld (ConnectionState_init 5000) (mkWebSocket [] None) ∅ 0%nat ∅ 0%nat [] [].

Definition frame (op : Z) (s : Z) (t : string) (d : json) : list (string * json) :=
  [("op", JInt op); ("s", JInt s); ("t", JStr t); ("d", d)].


(** *** The properties at concrete inputs *)

Lemma demo_absent_keeps (parser : string) (data : json) :
  keeps stored_sequence (demo_absent parser data).
Proof. apply keeps_ret. Qed.

Definition typing_frame : json := JDict (frame 0 3 "TYPING_START" (JDict [])).
Definition unknown_frame : json := JDict (frame 0 3 "SOMETHING_NEW" JNull).
Definition update_frame : json :=
  JDict (frame 0 9 "MESSAGE_UPDATE" (JDict [("id", JStr "1")])).

Lemma sequence_follows_frames_witness :
  stored_sequence
    (process_frames demo_Server_new ds_id demo_large (fun u => inr u) demo_user_id
       demo_channel_new fst snd (fun j => j) demo_update demo_has_id demo_find demo_absent
       [typing_frame; unknown_frame; update_frame] fresh)
  = JInt 9.
Proof.
  apply (proj2 (proj2 (sequence_follows_frames demo_Server_new ds_id demo_large
                         (fun u => inr u) demo_user_id demo_channel_new fst snd (fun j => j)
                         demo_update demo_has_id demo_find demo_absent demo_absent_keeps))
           typing_frame [unknown_frame; update_frame] 3 [3; 9] fresh).
  - repeat constructor; eexists; (split; [reflexivity | split; reflexivity]).
  - intros i j a b Hij Ha Hb.
    destruct i as [|[|[|i]]]; destruct j as [|[|[|j]]]; simpl in Ha, Hb;
      try discriminate; try lia; injection Ha as <-; injection Hb as <-; lia.
Defined.

Definition foo_true : EventListener := mkEventListener (fun _ => inr true) "FOO" None 0.
Definition foo_false : EventListener := mkEventListener (fun _ => inr false) "FOO" None 1.
Definition bar_true : EventListener := mkEventListener (fun _ => inr true) "BAR" None 2.

(** Three waiters registered in turn on a fresh client. *)
Definition three_waiters : DemoWorld :=
  fst (wait_for "BAR" (fun _ => inr true) None
         (fst (wait_for "FOO" (fun _ => inr false) None
                 (fst (wait_for "FOO" (fun _ => inr true) None fresh))))).

Lemma three_waiters_ready : waiters_ready "FOO" (JInt 7) three_waiters.
Proof.
  split.
  - apply (bool_decide_unpack _). vm_compute. exact I.
  - intros entry Hin Hev.
    repeat (apply elem_of_cons in Hin as [-> | Hin]); try discriminate Hev;
      [| | inversion Hin].
    + left. split; [reflexivity |]. intros _. exists (JInt 7). reflexivity.
    + left. split; [reflexivity |]. intros Hpred. discriminate Hpred.
Qed.

Lemma dispatch_resolves_matching_witness :
  snd (dispatch_listeners "FOO" (JInt 7) three_waiters) = inr tt
  /\ map el_future (_dispatch_listeners (ws (fst (dispatch_listeners "FOO" (JInt 7) three_waiters))))
     = [1%nat; 2%nat].
Proof.
  destruct (dispatch_resolves_matching "FOO" (JInt 7) three_waiters three_waiters_ready)
    as (Hres & _ & Hkept & _).
  split; [exact Hres |]. rewrite Hkept. reflexivity.
Defined.


Definition ready_payload : json :=
  JDict [("session_id", JStr "abc"); ("heartbeat_interval", JInt 41250);
         ("user", JDict [("id", JStr "1")]);
         ("guilds", JList [JDict [("id", JStr "10"); ("member_count", JInt 2500)];
                           JDict [("id", JStr "11"); ("member_count", JInt 12)]]);
         ("private_channels", JList [JDict [("id", JStr "20");
                                            ("recipient", JDict [("id", JStr "2")])]])].

Definition ready_frame : list (string * json) := frame 0 1 "READY" ready_payload.

Lemma ready_rebuilds_cache_witness :
  cache_of (conn (fst (demo_received (JDict ready_frame)
                         (fst (demo_received (JDict ready_frame) three_waiters)))))
  = cache_of (conn (fst (demo_received (JDict ready_frame) three_waiters)))
  /\ user (conn (fst (demo_received (JDict ready_frame) three_waiters)))
     = Some (JDict [("id", JStr "1")])
  /\ dict_get (JStr "10") (_servers (conn (fst (demo_received (JDict ready_frame)
                                                  three_waiters))))
     = inr (Some (mkDemoServer (JStr "10") 2500)).
Proof.
  destruct (ready_rebuilds_cache demo_Server_new ds_id demo_large
              (fun u => inr u) demo_user_id demo_channel_new fst snd
              (fun j => j) demo_update demo_has_id demo_find demo_absent
              ready_frame eq_refl eq_refl) as (_ & _ & _ & Htwice & Hstored).
  split; [exact (Htwice three_waiters) |].
  destruct (Hstored three_waiters ltac:(vm_compute; reflexivity))
    as (u & guilds & made & pms & channels & Hu & Hguilds & Hmade & _ & _ & Huser & _ & _
        & Hfind & _).
  injection Hu as <-. injection Hguilds as <-.
  assert (Hlist : made = [mkDemoServer (JStr "10") 2500; mkDemoServer (JStr "11") 12]).
  { inversion Hmade as [|g1 s1 r1 m1 H1 Hmade1]. subst.
    inversion Hmade1 as [|g2 s2 r2 m2 H2 Hmade2]. subst.
    inversion Hmade2. subst.
    injection H1 as <-. injection H2 as <-. reflexivity. }
  subst made. split; [exact Huser |].
  exact (Hfind (JStr "10") eq_refl).
Defined.

Lemma invalidate_session_frame_witness :
  sequence (conn (fst (demo_received (JDict [("op", JInt 9); ("s", JInt 4)])
                         (fst (demo_received (JDict ready_frame) fresh)))))
  = JNull
  /\ _servers (conn (fst (demo_received (JDict [("op", JInt 9); ("s", JInt 4)])
                            (fst (demo_received (JDict ready_frame) fresh)))))
     = _servers (conn (fst (demo_received (JDict ready_frame) fresh))).
Proof.
  destruct (invalidate_session_frame demo_Server_new ds_id demo_large (fun u => inr u)
              demo_user_id demo_channel_new fst snd (fun j => j) demo_update demo_has_id
              demo_find demo_absent [("op", JInt 9); ("s", JInt 4)]
              (fst (demo_received (JDict ready_frame) fresh)) eq_refl)
    as (_ & Hseq & _ & _ & Hservers & _).
  split; [exact Hseq | exact Hservers].
Defined.

(** A cached message and an embed-only edit of it. *)
Definition cached_message : @Message json :=
  mkMessage (<["id" := JStr "1"]> (<["content" := JStr "hello"]> (<["embeds" := JList []]> ∅))).

Definition one_message : DemoWorld :=
  with_conn (set_messages (mkDeque 5000 [cached_message])) fresh.

Definition embed_edit : list (string * json) :=
  [("id", JStr "1"); ("embeds", JList [JDict [("title", JStr "t")]])].

Lemma message_update_embed_only_witness :
  exists m',
    items (messages (conn (fst (parse_message_update (fun j => j) demo_update demo_has_id
                                  demo_find (JDict embed_edit) one_message)))) !! 0%nat
    = Some m'
    /\ attributes m' !! "content" = Some (JStr "hello").
Proof.
  destruct (message_update_embed_only (fun j => j) demo_update demo_has_id demo_find
              embed_edit 0 cached_message one_message eq_refl eq_refl)
    as [Hlacks _].
  destruct (Hlacks eq_refl) as (_ & m' & Hat & Hcontent & _).
  exists m'. split; [exact Hat |]. rewrite Hcontent. reflexivity.
Defined.

(** Three chunk waiters of server "10" and a chunk of it. *)
Definition big_server : DemoServer := mkDemoServer (JStr "10") 2500.

Definition chunk_waiters : DemoWorld :=
  fst (chunks_needed ds_id ds_member_count big_server fresh).

Lemma chunk_waiters_ready : listeners_ready chunk_waiters.
Proof.
  split.
  - apply (bool_decide_unpack _). vm_compute. exact I.
  - intros l Hin.
    repeat (apply elem_of_cons in Hin as [-> | Hin]); try (left; reflexivity).
    inversion Hin.
Qed.

Lemma chunk_signal_resolves_one_witness :
  snd (process_listeners chunk big_server (JInt 1000) chunk_waiters) = inr tt
  /\ forall f g,
       newly_finished chunk_waiters
         (fst (process_listeners chunk big_server (JInt 1000) chunk_waiters)) f ->
       newly_finished chunk_waiters
         (fst (process_listeners chunk big_server (JInt 1000) chunk_waiters)) g ->
       f = g.
Proof.
  destruct (chunk_signal_resolves_one big_server (JInt 1000) chunk_waiters chunk_waiters_ready)
    as (Hres & Hone & _).
  split; [exact Hres | exact Hone].
Defined.

(** A waiter for "FOO" whose predicate is false and whose handle was
    cancelled before the dispatch. *)
Definition cancelled_false : DemoWorld :=
  cancel 0 (fst (wait_for "FOO" (fun _ => inr false) None fresh)).

(** C2, as stated, fails here: the only waiter has a false predicate on
    the payload, and the dispatch of its event does not leave it
    registered: cancelled, it is removed. *)
Lemma false_predicate_waiter_pruned :
  exists entry,
    _dispatch_listeners (ws cancelled_false) = [entry]
    /\ el_event entry = "FOO"
    /\ el_predicate entry (JInt 7) = inr false
    /\ snd (dispatch_listeners "FOO" (JInt 7) cancelled_false) = inr tt
    /\ _dispatch_listeners (ws (fst (dispatch_listeners "FOO" (JInt 7) cancelled_false))) = [].
Proof.
  eexists. split; [reflexivity |]. repeat split; reflexivity.
Qed.

(** A waiter for "FOO" whose handle was cancelled before the dispatch,
    followed by a pending one. *)
Definition cancelled_first : DemoWorld :=
  cancel 0
    (fst (wait_for "FOO" (fun _ => inr true) None
            (fst (wait_for "FOO" (fun _ => inr true) None fresh)))).

(** C3, on the code: with the first of two waiters for "FOO" cancelled,
    the dispatch of "FOO" calls the predicate of the cancelled waiter and
    raises [InvalidStateError] as it sets the result; the cancelled waiter
    is not pruned, and the pending waiter after it is neither looked at
    nor resolved. The loop of [process_listeners] in state.py, which has
    the [continue], prunes a cancelled listener without calling its
    predicate and goes on. *)
Theorem cancelled_waiter_breaks_dispatch :
  let run := dispatch_listeners "FOO" (JInt 7) cancelled_first in
  snd run = inl InvalidStateError
  /\ effects (fst run) = [PredicateCalled 0]
  /\ map el_future (_dispatch_listeners (ws (fst run))) = [0%nat; 1%nat]
  /\ future_state (fst run) 0 = Cancelled
  /\ future_state (fst run) 1 = Pending.
Proof. vm_compute. repeat split; reflexivity. Qed.

(** The loop of the cache, which has the [continue]: a cancelled chunk
    listener is removed without its predicate being called, and the
    pending one after it gets the result. *)
Example cancelled_listener_is_skipped :
  let w := cancel 0 chunk_waiters in
  let run := process_listeners chunk big_server (JInt 1000) w in
  snd run = inr tt
  /\ effects (fst run) = [PredicateCalled 1]
  /\ map l_future (_listeners (conn (fst run))) = [2%nat]
  /\ future_state (fst run) 0 = Cancelled
  /\ future_state (fst run) 1 = Finished (JInt 1000)
  /\ future_state (fst run) 2 = Pending.
Proof. vm_compute. repeat split; reflexivity. Qed.

(** Two hundred large servers staged when the settle ends. *)
Definition two_hundred : list DemoServer :=
  map (fun n => mkDemoServer (JInt (Z.of_nat n)) 2500) (seq 1 200).

Definition settled : DemoWorld :=
  with_events (insert 0%nat true)
    (with_conn (set_ready_state (Some (mkReadyState 0 two_hundred))) fresh).

Definition is_request (e : @Effect json) : bool :=
  match e with SendAsJson _ => true | _ => false end.

(** Three resumes send the three batches and leave the coroutine holding
    the 600 futures; the next two find them pending and wait, without a
    [ready]. *)
Example two_hundred_servers :
  let run := resume_times ds_id ds_member_count (replicate 5 None) (DR_sleeping 0) settled in
  snd run = inr (DR_waiting (seq 0 600))
  /\ List.filter (fun e => negb (is_request e)) (effects (fst run)) = []
  /\ length (effects (fst run)) = 3%nat
  /\ length (_listeners (conn (fst run))) = 600%nat.
Proof. vm_compute. repeat split. Qed.

(** The same with the socket closed at the second send with a code that
    can be handled, and at the third with one that cannot: the second
    batch is dropped and the third send raises, so the coroutine ends
    with one frame sent and no [ready]. *)
Example two_hundred_servers_closed :
  let run := resume_times ds_id ds_member_count [None; Some 1006; Some 1000]
               (DR_sleeping 0) settled in
  snd run = inl (ConnectionClosed 1000)
  /\ List.filter (fun e => negb (is_request e)) (effects (fst run)) = []
  /\ length (effects (fst run)) = 1%nat.
Proof. vm_compute. repeat split. Qed.

End Demo.

(** ** The added properties at concrete inputs

    The classes of [channel.py] and the voice clients get the simplest
    shape as well: no server has a channel, a message made by
    [Message(channel=channel, **data)] holds the fields of its payload,
    and disconnecting a voice client leaves the client as it is. *)

Module Cases.
Import Demo.

Definition case_get_channel (server : DemoServer) (id : json) : option json := None.

Definition case_Message_new (channel : option (@AnyChannel (json * json) json)) (data : json)
  : result (@Message json) :=
  match data with
  | JDict fields =>
      inr (mkMessage (foldr (fun kv attrs => <[fst kv := snd kv]> attrs) ∅ fields))
  | _ => inl TypeError
  end.

Definition case_voice_disconnect (voice : unit) : DemoWorld -> DemoWorld * result unit :=
  ret tt.

Definition case_voice_server_id (voice : unit) : json := JStr "10".

(** The client after the READY frame of the demonstration. *)
Definition ready_world : DemoWorld := fst (demo_received (JDict ready_frame) fresh).

Lemma other_opcode_frames_witness :
  snd (demo_received (JDict [("op", JInt 7)]) ready_world) = inl ReconnectWebSocket
  /\ _keep_alive (ws (fst (demo_received (JDict [("op", JInt 7)]) ready_world)))
     = Some (mkKeepAlive 41250 true).
Proof.
  destruct (other_opcode_frames demo_Server_new ds_id demo_large (fun u => inr u)
              demo_user_id demo_channel_new fst snd (fun j => j) demo_update demo_has_id
              demo_find demo_absent [("op", JInt 7)] ready_world eq_refl eq_refl)
    as (_ & _ & _ & _ & _ & Hreconnect & _).
  destruct (Hreconnect eq_refl) as (Hres & Hkeep & _).
  split; [exact Hres | exact (eq_trans Hkeep eq_refl)].
Defined.

(** A READY frame whose payload has no [session_id]. *)
Definition short_ready : list (string * json) :=
  frame 0 2 "READY" (JDict [("heartbeat_interval", JInt 41250)]).

Lemma incomplete_ready_wipes_cache_witness :
  length (_servers (conn ready_world)) = 2%nat
  /\ _servers (conn (fst (demo_received (JDict short_ready) ready_world))) = [].
Proof.
  split; [reflexivity |].
  exact (proj1 (proj2 (proj2 (incomplete_ready_wipes_cache demo_Server_new ds_id demo_large
                                (fun u => inr u) demo_user_id demo_channel_new fst snd
                                (fun j => j) demo_update demo_has_id demo_find demo_absent
                                short_ready ready_world eq_refl eq_refl eq_refl)))).
Defined.

(** The waiter that [join_voice_channel] registers before it asks for
    the voice state. *)
Definition voice_waiter : DemoWorld :=
  fst (wait_for "VOICE_SERVER_UPDATE" (fun _ => inr true) None fresh).

Definition voice_server_update : list (string * json) :=
  frame 0 5 "VOICE_SERVER_UPDATE" (JDict [("token", JStr "t")]).

Lemma voice_waiter_ready :
  waiters_ready "VOICE_SERVER_UPDATE" (JDict [("token", JStr "t")]) voice_waiter.
Proof.
  split.
  - apply (bool_decide_unpack _). vm_compute. exact I.
  - intros entry Hin Hev.
    apply elem_of_cons in Hin as [-> | Hin]; [| inversion Hin].
    left. split; [reflexivity |]. intros _. eexists. reflexivity.
Qed.

Lemma unparsed_event_reaches_waiters_witness :
  future_state (fst (demo_received (JDict voice_server_update) voice_waiter)) 0
  = Finished (JDict [("token", JStr "t")]).
Proof.
  destruct (unparsed_event_reaches_waiters demo_Server_new ds_id demo_large (fun u => inr u)
              demo_user_id demo_channel_new fst snd (fun j => j) demo_update demo_has_id
              demo_find demo_absent voice_server_update "VOICE_SERVER_UPDATE" voice_waiter
              eq_refl eq_refl eq_refl ltac:(discriminate))
    as (_ & _ & _ & _ & _ & Hwaiters).
  destruct (Hwaiters voice_waiter_ready) as (_ & _ & Hserved).
  destruct (Hserved (mkEventListener (fun _ => inr true) "VOICE_SERVER_UPDATE" None 0)
              ltac:(left) eq_refl eq_refl eq_refl) as (v & Hv & Hstate).
  injection Hv as <-. exact Hstate.
Defined.

Definition resumed : list (string * json) :=
  frame 0 6 "RESUMED" (JDict [("heartbeat_interval", JInt 41250)]).

Lemma resumed_frame_witness :
  _keep_alive (ws (fst (demo_received (JDict resumed) fresh)))
  = Some (mkKeepAlive 41250 false).
Proof.
  exact (proj1 (proj2 (proj1 (resumed_frame demo_Server_new ds_id demo_large (fun u => inr u)
                                demo_user_id demo_channel_new fst snd (fun j => j) demo_update
                                demo_has_id demo_find demo_absent resumed fresh
                                eq_refl eq_refl) 41250 eq_refl))).
Defined.

Lemma voice_client_registry_witness :
  snd (_get_voice_client (JStr "10") (fst (_add_voice_client (JStr "10") tt fresh)))
  = inr (Some tt)
  /\ snd (_get_voice_client (JStr "10")
            (fst (_remove_voice_client (JStr "10")
                    (fst (_add_voice_client (JStr "10") tt fresh)))))
     = inr None.
Proof.
  destruct (voice_client_registry (JStr "10") tt fresh eq_refl)
    as (_ & Hget & _ & Hgone & _).
  split; [exact (f_equal snd Hget) | exact (f_equal snd Hgone)].
Defined.

Definition direct_channel : json * json := (JStr "20", JDict [("id", JStr "2")]).

Lemma private_channel_indices_witness :
  snd (_get_private_channel_by_user (JStr "2")
         (fst (_add_private_channel demo_user_id fst snd direct_channel fresh)))
  = inr (Some direct_channel).
Proof.
  exact (proj1 (proj2 (proj2 (private_channel_indices demo_user_id fst snd direct_channel fresh
                                eq_refl eq_refl)))).
Defined.

Definition hello : json :=
  JDict [("id", JStr "1"); ("channel_id", JStr "20"); ("content", JStr "hello")].

Definition edited : json := JDict [("id", JStr "1"); ("content", JStr "bye")].

Definition message_events : list MessageEvent :=
  [MessageCreate hello; MessageUpdate edited; MessageCreate hello;
   MessageDelete (JDict [("id", JStr "1")])].

(** [Client(max_messages=3)] gets a cache of 5000 messages. *)
Lemma message_cache_never_overflows_witness :
  100 <= max_messages (conn fresh)
  /\ Z.of_nat (length (items (messages (conn
        (handle_message_events (fun j => j) demo_update demo_has_id demo_find
           case_get_channel case_Message_new message_events fresh)))))
     <= max_messages (conn fresh).
Proof.
  destruct (message_cache_never_overflows (fun j => j) demo_update demo_has_id demo_find
              case_get_channel case_Message_new (JInt 3) (conn fresh) eq_refl)
    as (Hfloor & Hbounded & Hevents).
  split; [exact Hfloor |].
  exact (proj2 (proj2 (Hevents fresh message_events Hbounded eq_refl))).
Defined.

Lemma message_create_appends_witness :
  cache_bounded (conn (fst (parse_message_create case_get_channel case_Message_new hello
                              fresh))).
Proof.
  refine (proj1 (message_create_appends case_get_channel case_Message_new hello fresh _)).
  split; [reflexivity | cbn; lia].
Defined.

(** The handler wakes five times; the socket is closed with 1001 at the
    second beat and with 1000 at the fourth. *)
Definition beats : list (option Z) := [None; Some 1001; None; Some 1000; None].

Lemma keep_alive_beats_until_fatal_witness :
  snd (run beats ready_world) = inr tt
  /\ _keep_alive (ws (fst (run beats ready_world))) = Some (mkKeepAlive 41250 true)
  /\ length (effects (fst (run beats ready_world)))
     = (length (effects ready_world) + 2)%nat.
Proof.
  destruct (keep_alive_beats_until_fatal beats (mkKeepAlive 41250 false) ready_world
              eq_refl eq_refl) as (Hres & Heffects & Hkeep & _).
  split; [exact Hres |]. split; [exact Hkeep |].
  rewrite Heffects, length_app. reflexivity.
Defined.

Lemma heartbeat_carries_last_sequence_witness :
  run_turn None (fst (demo_received (JDict resumed) fresh))
  = (emit (SendAsJson (JDict [("op", JInt 1); ("d", JInt 6)]))
       (fst (demo_received (JDict resumed) fresh)),
     inr true).
Proof.
  refine (heartbeat_carries_last_sequence demo_Server_new ds_id demo_large (fun u => inr u)
            demo_user_id demo_channel_new fst snd (fun j => j) demo_update demo_has_id
            demo_find demo_absent resumed (JInt 6) fresh demo_absent_keeps eq_refl _).
  exists (mkKeepAlive 41250 false). split; reflexivity.
Defined.

Definition in_voice : DemoWorld := fst (_add_voice_client (JStr "10") tt fresh).

Lemma leaving_voice_forgets_client_witness :
  snd (_get_voice_client (JStr "10") in_voice) = inr (Some tt)
  /\ snd (_get_voice_client (JStr "10")
            (fst (voice_state None (JStr "10") JNull false false in_voice)))
     = inr None.
Proof.
  split; [reflexivity |].
  destruct (leaving_voice_forgets_client None (JStr "10") JNull false false in_voice eq_refl)
    as (_ & Hopen).
  destruct (Hopen eq_refl) as (_ & _ & _ & Hleft).
  exact (proj1 (Hleft eq_refl)).
Defined.

Definition said (content : string) : @Message json :=
  mkMessage (<["content" := JStr content]> ∅).

Definition says (content : string) (message : @Message json) : result bool :=
  match attributes message !! "content" with
  | Some v => inr (py_eq v (JStr content))
  | None => inl AttributeError
  end.

(** Three waiters; the wait of the second one has run out of time. *)
Definition waiting : list (@WaiterStep json) :=
  [Registered (says "ping"); Registered (says "pong"); TimedOut 1; Registered (says "pong")].

Definition no_waiters : @Client json := mkClient [] ∅ 0 [].

Definition three_message_waiters : @Client json :=
  foldl (fun c step => waiter_step step c) no_waiters waiting.

Lemma no_waiters_wf : message_waiters_wf no_waiters.
Proof.
  split; [split |]; [apply NoDup_nil_2 | |]; intros entry Hin; inversion Hin.
Qed.

Lemma message_waiters_served_witness :
  snd (handle_message (said "pong") three_message_waiters) = inr tt
  /\ map waiter_future
       (client_listeners (fst (handle_message (said "pong") three_message_waiters)))
     = [0%nat].
Proof.
  destruct (message_waiters_served (said "pong") three_message_waiters
              (proj1 (waiter_steps_wf waiting no_waiters no_waiters_wf)))
    as (Hres & _ & Hkept & _).
  split; [exact Hres |]. rewrite Hkept. reflexivity.
Defined.

Definition open_flags : ClientFlags := mkClientFlags false true true.

Lemma client_close_is_final_witness :
  snd (Client_close case_voice_disconnect case_voice_server_id true open_flags in_voice)
  = inr (mkClientFlags true false false)
  /\ ~ running
         (fst (Client_close case_voice_disconnect case_voice_server_id true open_flags
                 in_voice)).
Proof.
  destruct (client_close_is_final case_voice_disconnect case_voice_server_id true open_flags
              in_voice (fun _ => eq_refl)) as (_ & Hclose).
  destruct (Hclose eq_refl) as (Hres & _ & Hopen & _).
  split; [exact Hres | exact (proj1 (Hopen eq_refl))].
Defined.

Definition gateway_found : Attempt :=
  mkAttempt 200 (JDict [("url", JStr "wss://gateway.discord.gg")]) None None.

Definition gateway_missing : Attempt := mkAttempt 404 JNull None None.

Definition case_connect_turn (t : Turn) (flags : ClientFlags) (w : DemoWorld) :=
  connect_turn demo_Server_new ds_id demo_large (fun u => inr u) demo_user_id
    demo_channel_new fst snd (fun j => j) demo_update demo_has_id demo_find demo_absent
    case_voice_disconnect case_voice_server_id "linux" (JStr "token") t flags w.

Definition case_connect (first : Attempt) (turns : list Turn) (flags : ClientFlags)
    (w : DemoWorld) :=
  connect demo_Server_new ds_id demo_large (fun u => inr u) demo_user_id
    demo_channel_new fst snd (fun j => j) demo_update demo_has_id demo_find demo_absent
    case_voice_disconnect case_voice_server_id "linux" (JStr "token") first turns flags w.

(** The server closes the socket with code 1000. *)
Definition clean_close : Turn := mkTurn (Closed 1000) gateway_found true.

Lemma connect_turn_outcomes_witness :
  snd (case_connect_turn clean_close open_flags ready_world) = inr Looping
  /\ _closed (fst (fst (case_connect_turn clean_close open_flags ready_world))) = true.
Proof.
  destruct (connect_turn_outcomes demo_Server_new ds_id demo_large (fun u => inr u)
              demo_user_id demo_channel_new fst snd (fun j => j) demo_update demo_has_id
              demo_find demo_absent case_voice_disconnect case_voice_server_id "linux"
              (JStr "token") clean_close open_flags ready_world (fun _ => eq_refl) eq_refl)
    as (_ & _ & Hclosed & _).
  destruct (Hclosed 1000 eq_refl) as (Hflag & _ & _ & Hclean).
  split; [exact (proj1 (Hclean eq_refl)) | exact Hflag].
Defined.

Lemma connect_returns_after_clean_close_witness :
  case_connect gateway_missing [clean_close] open_flags fresh
  = ((open_flags, fresh), inl GatewayNotFound).
Proof.
  refine (proj2 (proj2 (connect_returns_after_clean_close demo_Server_new ds_id demo_large
                          (fun u => inr u) demo_user_id demo_channel_new fst snd
                          (fun j => j) demo_update demo_has_id demo_find demo_absent
                          case_voice_disconnect case_voice_server_id "linux" (JStr "token")
                          gateway_missing [clean_close] open_flags fresh (fun _ => eq_refl)
                          eq_refl)) _).
  discriminate.
Defined.

Definition voice_start : VoiceSocket.VoiceState :=
  VoiceSocket.mkVoiceState (Voice.mkVoiceClient JNull JNull "10.0.0.1" None None) None None.



Definition voice_ready : list (string * json) :=
  [("op", JInt 2);
   ("d", JDict [("ssrc", JInt 42); ("port", JInt 50001); ("heartbeat_interval", JInt 5500)])].

Lemma voice_ready_frame_witness :
  VoiceSocket._keep_alive
    (fst (fst (VoiceSocket.received_message (JDict voice_ready) discovery_reply voice_start)))
  = Some (VoiceSocket.mkVoiceKeepAlive 5500)
  /\ length (snd (fst (VoiceSocket.received_message (JDict voice_ready) discovery_reply
                         voice_start))) = 3%nat.
Proof.
  destruct (voice_ready_frame voice_ready discovery_reply voice_start eq_refl)
    as (_ & Hready).
  destruct (Hready 5500 eq_refl) as (Hkeep & _ & _ & _ & _ & Hsent).
  split; [exact Hkeep |].
  destruct (Hsent eq_refl) as (packet & dport & address & p & _ & _ & _ & _ & ->).
  reflexivity.
Defined.

(** Three guilds, the first and the last with the same id. *)
Definition three_guilds : list json :=
  [JDict [("id", JStr "10"); ("member_count", JInt 2500)];
   JDict [("id", JStr "11"); ("member_count", JInt 12)];
   JDict [("id", JStr "10"); ("member_count", JInt 3000)]].

Definition staging : DemoWorld :=
  with_conn (set_ready_state (Some (mkReadyState 0 []))) fresh.

Definition case_add_guilds : DemoWorld -> DemoWorld * result unit :=
  add_guilds demo_Server_new ds_id demo_large three_guilds.

Lemma ready_guilds_staged_and_found_witness :
  snd (_get_server (JStr "10") (fst (case_add_guilds staging)))
  = inr (Some (mkDemoServer (JStr "10") 3000))
  /\ (servers <$> _ready_state (conn (fst (case_add_guilds staging))))
     = Some [mkDemoServer (JStr "10") 2500; mkDemoServer (JStr "10") 3000].
Proof.
  destruct (ready_guilds_staged_and_found demo_Server_new ds_id demo_large three_guilds
              staging eq_refl) as (made & Hmade & Hfind & Hstaged & _).
  assert (Hlist : made = [mkDemoServer (JStr "10") 2500; mkDemoServer (JStr "11") 12;
                          mkDemoServer (JStr "10") 3000]).
  { inversion Hmade as [|g1 s1 r1 m1 H1 Hmade1]. subst.
    inversion Hmade1 as [|g2 s2 r2 m2 H2 Hmade2]. subst.
    inversion Hmade2 as [|g3 s3 r3 m3 H3 Hmade3]. subst.
    inversion Hmade3. subst.
    injection H1 as <-. injection H2 as <-. injection H3 as <-. reflexivity. }
  subst made. split.
  - exact (Hfind (JStr "10") eq_refl).
  - exact (f_equal (fmap servers) Hstaged).
Defined.

(** A voice READY whose port is out of range: [sendto] raises, after the
    keep-alive was started and before any datagram goes out. *)
Example voice_ready_bad_port :
  let frame :=
    JDict [("op", JInt 2);
           ("d", JDict [("ssrc", JInt 42); ("port", JInt 70000);
                        ("heartbeat_interval", JInt 5500)])] in
  let run := VoiceSocket.received_message frame discovery_reply voice_start in
  snd run = inl OverflowError
  /\ snd (fst run) = [VoiceSocket.KeepAliveStarted (VoiceSocket.mkVoiceKeepAlive 5500)]
  /\ Voice.ip (VoiceSocket.client (fst (fst run))) = None.
Proof. vm_compute. repeat split. Qed.

End Cases.
